(** * batch_gen.py: the batch generator of the SSD training pipeline

    A shallow embedding of [src/batch_gen.py] (the module-level [flip], the
    constructor of [BatchGenerator], [parse_csv], [generate] and
    [get_n_samples]) and the properties of its box-consistency engine.

    Conventions of the embedding
    - numpy [int64] label arrays are lists of rows over [Z]; every arithmetic
      operation on them wraps around ([wrap64]);
    - Python and numpy floats are IEEE-754 binary64 values, modelled with the
      standard library's [spec_float] operations at [prec = 53], [emax = 1024];
    - exceptions are an explicit result type, random draws come from an
      explicit oracle, and image loading is recorded in an event trace. *)

From Stdlib Require Import String ZArith List Bool Lia Permutation PeanoNat.
From Stdlib Require Import SpecFloat Sorted.
Import ListNotations.

Open Scope Z_scope.

(* ================================================================== *)
(** ** Machine integers: numpy int64 *)

Module Int64.

Definition min_int : Z := - 2 ^ 63.
Definition max_int : Z := 2 ^ 63 - 1.
Definition modulus : Z := 2 ^ 64.

(** Two's complement wrap-around of an integer result. *)
Definition wrap64 (z : Z) : Z := (z + 2 ^ 63) mod modulus - 2 ^ 63.

Definition in_range (z : Z) : Prop := min_int <= z <= max_int.

Definition sub (a b : Z) : Z := wrap64 (a - b).
Definition add (a b : Z) : Z := wrap64 (a + b).
Definition mul (a b : Z) : Z := wrap64 (a * b).

End Int64.

(* ================================================================== *)
(** ** Floating point: IEEE-754 binary64 *)

Module F64.

Definition prec : Z := 53.
Definition emax : Z := 1024.

Definition float := spec_float.

Definition mul : float -> float -> float := SFmul prec emax.
Definition div : float -> float -> float := SFdiv prec emax.
Definition sub : float -> float -> float := SFsub prec emax.
Definition add : float -> float -> float := SFadd prec emax.

(** [a <= b], [a < b] and [a == b] as Python and numpy compute them
    (every comparison with a NaN is false). *)
Definition leb : float -> float -> bool := SFleb.
Definition ltb : float -> float -> bool := SFltb.
Definition eqb : float -> float -> bool := SFeqb.

(** Conversion of an integer to the nearest binary64 value. *)
Definition of_Z (z : Z) : float := binary_normalize prec emax z 0 false.

Definition zero : float := S754_zero false.
Definition one : float := Eval cbv in of_Z 1.

(** The integer part of a finite value, rounding toward zero. *)
Definition trunc (f : float) : option Z :=
  match f with
  | S754_zero _ => Some 0
  | S754_finite s m e =>
      let a := match e with
               | Zneg p => Z.shiftr (Zpos m) (Zpos p)
               | _ => Z.shiftl (Zpos m) e
               end in
      Some (if s then - a else a)
  | _ => None
  end.

(** [ndarray.astype(int)] on a float64 array: the C conversion of a double
    to a 64-bit integer truncates toward zero; NaN, the infinities and
    values out of range yield the "integer indefinite" value [-2^63]. *)
Definition to_int64 (f : float) : Z :=
  match trunc f with
  | Some z => if (Int64.min_int <=? z) && (z <=? Int64.max_int) then z else Int64.min_int
  | None => Int64.min_int
  end.

End F64.

(* ================================================================== *)
(** ** Data model: boxes and images *)

(** One row of a label array, in the generator's [box_output_format]
    [['class_id', 'xmin', 'xmax', 'ymin', 'ymax']]. *)
Record Box : Type := mkBox
  { class_id : Z; xmin : Z; xmax : Z; ymin : Z; ymax : Z }.

Definition Labels := list Box.

Definition box_in_int64 (b : Box) : Prop :=
  Int64.in_range (xmin b) /\ Int64.in_range (xmax b) /\
  Int64.in_range (ymin b) /\ Int64.in_range (ymax b).

(** A pixel is its list of channel values; an image is a list of rows
    (height x width x channels, origin top-left). *)
Definition Pixel := list N.
Definition Image := list (list Pixel).

Definition img_rows (img : Image) : Z := Z.of_nat (length img).
Definition img_cols (img : Image) : Z :=
  match img with
  | [] => 0
  | r :: _ => Z.of_nat (length r)
  end.
Definition img_channels (img : Image) : Z :=
  match img with
  | (p :: _) :: _ => Z.of_nat (length p)
  | _ => 0
  end.

(* ================================================================== *)
(** ** Module-level image functions *)

(** An image array as [cv2] takes and returns it: two-dimensional
    [(h, w)], one value per pixel, or three-dimensional [(h, w, c)]. *)
Inductive Array : Type :=
| Array2 (rows : list (list N))
| Array3 (image : Image).

Module Transforms.

(** [cv2.flip(src, flip_code)] on a non-empty array of at most four
    channels: a positive code mirrors every row, the code 0 reverses the
    order of the rows.  [cv2] returns a one-channel array [(h, w, 1)]
    without its channel axis, as an array [(h, w)]. *)
Definition cv2_flip (src : Array) (flip_code : Z) : Array :=
  match src with
  | Array2 rows =>
      Array2 (if 0 <? flip_code then map (@rev N) rows else rev rows)
  | Array3 image =>
      let dst := if 0 <? flip_code then map (@rev Pixel) image else rev image in
      if img_channels image =? 1
      then Array2 (map (map (fun px => hd 0%N px)) dst)
      else Array3 dst
  end.

(** [flip(image, orientation)] *)
Definition flip (image : Array) (orientation : string) : Array :=
  if String.eqb orientation "horizontal"
  then cv2_flip image 1
  else cv2_flip image 0.

End Transforms.

(** The box remapping of the flip branch of [generate]:
    [batch_y[i][:, [xmin, xmax]] = img_width - batch_y[i][:, [xmax, xmin]]]. *)
Definition flip_box (img_width : Z) (b : Box) : Box :=
  {| class_id := class_id b;
     xmin := Int64.sub img_width (xmax b);
     xmax := Int64.sub img_width (xmin b);
     ymin := ymin b;
     ymax := ymax b |}.

Definition flip_boxes (img_width : Z) (l : Labels) : Labels :=
  map (flip_box img_width) l.

(* ================================================================== *)
(** ** Python sequences *)

(** Normalisation of a slice bound against a sequence of length [len]:
    a negative bound counts from the end, and bounds are clipped. *)
Definition py_index (len i : Z) : Z :=
  if i <? 0 then Z.max 0 (i + len) else Z.min i len.

(** [l[lo:hi]] *)
Definition py_slice {A : Type} (l : list A) (lo hi : Z) : list A :=
  let len := Z.of_nat (length l) in
  let a := py_index len lo in
  let b := py_index len hi in
  firstn (Z.to_nat (b - a)) (skipn (Z.to_nat a) l).

(** [l[c:c+n]] for a non-negative cursor and a non-negative length. *)
Definition window {A : Type} (l : list A) (c n : nat) : list A :=
  firstn n (skipn c l).

(** [l.pop(j)], as used on an index that exists. *)
Fixpoint pop {A : Type} (j : nat) (l : list A) : list A :=
  match l, j with
  | [], _ => []
  | _ :: l', O => l'
  | x :: l', S j' => x :: pop j' l'
  end.

Fixpoint insert_desc (j : nat) (l : list nat) : list nat :=
  match l with
  | [] => [j]
  | k :: l' => if (k <=? j)%nat then j :: l else k :: insert_desc j l'
  end.

(** [sorted(l, reverse=True)] *)
Definition sorted_reverse (l : list nat) : list nat :=
  fold_right insert_desc [] l.

(** [x in l] on a list of indices. *)
Definition py_in (x : nat) (l : list nat) : bool := existsb (Nat.eqb x) l.

(* ================================================================== *)
(** ** Shuffling

    [sklearn.utils.shuffle(filenames, labels)] permutes both lists with one
    random permutation; the two parallel lists are one list of samples
    here.  The permutation is decoded from a seed by repeated insertion, so
    that every permutation of the list is the result of some seed. *)

Fixpoint insert_at {A : Type} (n : nat) (x : A) (l : list A) : list A :=
  match n, l with
  | O, _ => x :: l
  | S _, [] => [x]
  | S n', y :: l' => y :: insert_at n' x l'
  end.

Fixpoint shuffle {A : Type} (seed : list nat) (l : list A) : list A :=
  match l with
  | [] => []
  | x :: l' =>
      match seed with
      | [] => x :: shuffle [] l'
      | r :: seed' => insert_at r x (shuffle seed' l')
      end
  end.

(* ================================================================== *)
(** ** Exceptions, events and the generator monad *)

Inductive exn : Type :=
| TypeError (callee : string)      (* '...' object is not callable *)
| ValueError (msg : string)
| ZeroDivisionError
| IndexError
| IOError (filename : string)      (* [Image.open] failed *)
| CvError.                         (* [cv2.error] *)

(** What a run of the generator does, in order: a shuffle of the dataset,
    the loading of a file, the start of the transforms of batch item [i],
    the evaluation of a call expression [callee(...)] through one of the
    option names, and a [yield]. *)
Inductive Event : Type :=
| EvShuffle
| EvLoad (filename : string)
| EvAugment (i : nat)
| EvCall (callee : string)
| EvYield.

(** The sources of randomness: the successive values of
    [np.random.uniform(0, 1)], the successive raw values behind
    [np.random.randint], and the seeds of the successive shuffles. *)
Record Oracle : Type := mkOracle
  { uniform01 : nat -> F64.float;
    randint_raw : nat -> Z;
    shuffle_seed : nat -> list nat }.

Record RngState : Type := mkRng
  { n_uniform : nat; n_randint : nat; n_shuffle : nat }.

Definition Result (A : Type) : Type := (exn + A)%type.

(** A computation reads the oracle, advances the draw counters, appends to
    the event trace and either raises or returns. *)
Definition M (A : Type) : Type :=
  Oracle -> RngState -> list Event * Result (A * RngState).

Definition ret {A : Type} (a : A) : M A :=
  fun _ s => ([], inr (a, s)).

Definition raise {A : Type} (e : exn) : M A :=
  fun _ _ => ([], inl e).

Definition bind {A B : Type} (m : M A) (k : A -> M B) : M B :=
  fun o s =>
    match m o s with
    | (t, inl e) => (t, inl e)
    | (t, inr (a, s')) =>
        let '(t', r) := k a o s' in (t ++ t', r)
    end.

Declare Scope gen_scope.
Delimit Scope gen_scope with gen.
Notation "x <- m ;; k" := (bind m (fun x => k))
  (at level 61, m at next level, right associativity) : gen_scope.
Notation "' p <- m ;; k" := (bind m (fun p => k))
  (at level 61, p pattern, m at next level, right associativity) : gen_scope.
Notation "m ;;; k" := (bind m (fun _ => k))
  (at level 61, right associativity) : gen_scope.
Open Scope gen_scope.

Definition emit (e : Event) : M unit :=
  fun _ s => ([e], inr (tt, s)).

(** [np.random.uniform(0, 1)] *)
Definition random_uniform : M F64.float :=
  fun o s =>
    ([], inr (uniform01 o (n_uniform s),
              mkRng (S (n_uniform s)) (n_randint s) (n_shuffle s))).

(** [np.random.randint(0, high)]: an integer of [[0, high)]; numpy raises
    a [ValueError] when the interval is empty. *)
Definition random_randint (high : Z) : M Z :=
  fun o s =>
    if high <=? 0 then ([], inl (ValueError "low >= high"))
    else ([], inr (randint_raw o (n_randint s) mod high,
                   mkRng (n_uniform s) (S (n_randint s)) (n_shuffle s))).

(** [shuffle(self.filenames, self.labels)] *)
Definition random_shuffle {A : Type} (l : list A) : M (list A) :=
  fun o s =>
    ([EvShuffle], inr (shuffle (shuffle_seed o (n_shuffle s)) l,
                       mkRng (n_uniform s) (n_randint s) (S (n_shuffle s)))).

(* ================================================================== *)
(** ** Box arithmetic of [generate] *)

Definition map_x (f : Z -> Z) (b : Box) : Box :=
  {| class_id := class_id b; xmin := f (xmin b); xmax := f (xmax b);
     ymin := ymin b; ymax := ymax b |}.

Definition map_y (f : Z -> Z) (b : Box) : Box :=
  {| class_id := class_id b; xmin := xmin b; xmax := xmax b;
     ymin := f (ymin b); ymax := f (ymax b) |}.

(** [coords[coords < 0] = 0] *)
Definition limit_lo (v : Z) : Z := if v <? 0 then 0 else v.

(** [coords[coords >= bound] = bound - 1] *)
Definition limit_hi (bound v : Z) : Z := if bound <=? v then bound - 1 else v.

(** [(b[xmax] - b[xmin]) * (b[ymax] - b[ymin])] on an int64 row. *)
Definition box_area (b : Box) : Z :=
  Int64.mul (Int64.sub (xmax b) (xmin b)) (Int64.sub (ymax b) (ymin b)).

(** The mask of the clip-and-filter step for one box:
    [after_area > include_thresh * before_area] if [include_thresh == 0],
    [after_area >= include_thresh * before_area] otherwise.  The product of
    the Python float with an int64 array is a float64 array, and the int64
    [after_area] is compared with it as a float64. *)
Definition keep_box (include_thresh : F64.float) (before_area after_area : Z) : bool :=
  if F64.eqb include_thresh F64.zero
  then F64.ltb (F64.mul include_thresh (F64.of_Z before_area)) (F64.of_Z after_area)
  else F64.leb (F64.mul include_thresh (F64.of_Z before_area)) (F64.of_Z after_area).

(** [labels[mask]], where the mask compares the rows of [labels] with the
    rows of [before_limiting]. *)
Definition filter_boxes (include_thresh : F64.float)
    (before_limiting labels : Labels) : Labels :=
  map snd
    (filter (fun p => keep_box include_thresh (box_area (fst p)) (box_area (snd p)))
       (combine before_limiting labels)).

(** [(coords * ratio).astype(np.int)] for one coordinate. *)
Definition scale_coord (ratio : F64.float) (v : Z) : Z :=
  F64.to_int64 (F64.mul (F64.of_Z v) ratio).

(** [a / b] on Python integers that a binary64 represents exactly. *)
Definition py_truediv (a b : Z) : Result F64.float :=
  if b =? 0 then inl ZeroDivisionError
  else inr (F64.div (F64.of_Z a) (F64.of_Z b)).

(** A 2x3 warp matrix, as [cv2.getRotationMatrix2D] returns it. *)
Definition WarpMat : Type :=
  ((F64.float * F64.float * F64.float) * (F64.float * F64.float * F64.float))%type.

(** One column of [np.dot(rot_mat, [x, y, 1])], converted with
    [astype(np.int)]. *)
Definition warp_point (m : WarpMat) (x y : Z) : Z * Z :=
  let '((a, b, c), (d, e, f)) := m in
  let fx := F64.of_Z x in
  let fy := F64.of_Z y in
  (F64.to_int64 (F64.add (F64.add (F64.mul a fx) (F64.mul b fy)) (F64.mul c F64.one)),
   F64.to_int64 (F64.add (F64.add (F64.mul d fx) (F64.mul e fy)) (F64.mul f F64.one))).

Definition warp_box (m : WarpMat) (b : Box) : Box :=
  let tl := warp_point m (xmin b) (ymin b) in
  let br := warp_point m (xmax b) (ymax b) in
  {| class_id := class_id b; xmin := fst tl; xmax := fst br;
     ymin := snd tl; ymax := snd br |}.

(* ================================================================== *)
(** ** Image slicing and canvas placement *)

(** [image[r0:r1, c0:c1]] *)
Definition crop_image (image : Image) (r0 r1 c0 c1 : Z) : Image :=
  map (fun row => py_slice row c0 c1) (py_slice image r0 r1).

Definition zeros {A : Type} (z : A) (n : Z) : list A := repeat z (Z.to_nat n).

(** [canvas = np.zeros((h, w, ch)); canvas[top:top+rows, left:left+cols] = patch]
    for a patch of [rows] x [cols] pixels that fits on the canvas. *)
Definition place_on_canvas (h w ch top left : Z) (patch : Image) : Image :=
  let px := zeros 0%N ch in
  let blank := zeros px w in
  zeros blank top
  ++ map (fun row => zeros px left ++ row
                       ++ zeros px (w - left - Z.of_nat (length row))) patch
  ++ zeros blank (h - top - Z.of_nat (length patch)).

(* ================================================================== *)
(** ** The cursor over the shuffled dataset *)

(** [self.filenames] and [self.labels] (one list of samples) and the local
    variable [current] of [generate]. *)
Record Cursor (A : Type) : Type := mkCursor
  { dataset : list A; current : nat }.
Arguments mkCursor {A} _ _.
Arguments dataset {A} _.
Arguments current {A} _.

(** The statement before the loop of [generate]: the first shuffle. *)
Definition generate_start {A : Type} (data : list A) : M (Cursor A) :=
  d <- random_shuffle data ;;
  ret (mkCursor d O).

(** The head of one loop iteration:
    [if current >= len(self.filenames): <shuffle>; current = 0], the slice
    [[current:current + batch_size]] and [current += batch_size]. *)
Definition select_window {A : Type} (batch_size : nat) (st : Cursor A)
    : M (list A * Cursor A) :=
  st1 <- (if (length (dataset st) <=? current st)%nat
          then d <- random_shuffle (dataset st) ;; ret (mkCursor d O)
          else ret st) ;;
  ret (window (dataset st1) (current st1) batch_size,
       mkCursor (dataset st1) (current st1 + batch_size)).



(* ================================================================== *)
(** ** Configuration of [generate] *)

Section Generator.

(** The collaborators of the generator: the target type and the image
    library.  [image_open] gives the array of an image file that loads as a
    three-dimensional array; [histogram_eq] and [cv2_gray] give the results
    of the equalization and of the gray conversion when these return. *)
Variable Target : Type.
Variable image_open : string -> option Image.          (* [Image.open] *)
Variable histogram_eq : Image -> Image.
Variable cv2_resize : Image -> Z * Z -> option Image.  (* [cv2.resize] *)
Variable cv2_gray : Image -> Image.                    (* gray conversion *)

Record Config : Type := mkConfig
  { batch_size : nat;
    train : bool;
    ssd_box_encoder : option (list Labels -> Target);
    equalize : bool;
    brightness : option (F64.float * F64.float * F64.float);
    flip : option F64.float;
    scale : option (F64.float * F64.float * F64.float);
    random_crop : option (Z * Z * Z * Z);
    crop : option (Z * Z * Z * Z);
    resize : option (Z * Z);
    gray : bool;
    limit_boxes : bool;
    include_thresh : F64.float }.

(** The running [(image, boxes, height, width)] of one batch item:
    [batch__x[i]], [batch_y[i]], [img_height], [img_width]. *)
Record Item : Type := mkItem
  { item_x : Image; item_y : Labels; img_height : Z; img_width : Z }.

(** Truth value of a Python float: false only for a zero. *)
Definition float_truthy (x : F64.float) : bool :=
  match x with
  | S754_zero _ => false
  | _ => true
  end.

(** [p >= (1 - prob)] *)
Definition draw_passes (p prob : F64.float) : bool :=
  F64.leb (F64.sub F64.one prob) p.

(** The objects the options [brightness], [flip] and [scale] are bound
    to.  Inside [generate] these three names are its parameters: they
    hide the module-level functions, so an expression such as
    [flip(batch__x[i])] applies the option value. *)
Inductive OptionValue : Type :=
| OptFloat (x : F64.float)
| OptTuple (a b c : F64.float).

Definition type_name (v : OptionValue) : string :=
  match v with
  | OptFloat _ => "float"
  | OptTuple _ _ _ => "tuple"
  end.

(** The call expression [name(...)] where [name] is bound to an option
    value: neither a float nor a tuple is callable, Python raises
    [TypeError: '...' object is not callable]. *)
Definition call_option_value {A : Type} (name : string) (v : OptionValue) : M A :=
  emit (EvCall name) ;;;
  raise (TypeError (type_name v)).

(* ---------------------------------------------------------------- *)
(** *** The transforms of one batch item, in the order of [generate] *)

Definition set_x (it : Item) (x : Image) : Item :=
  mkItem x (item_y it) (img_height it) (img_width it).

Definition set_y (it : Item) (y : Labels) : Item :=
  mkItem (item_x it) y (img_height it) (img_width it).

(** [if equalize: batch__x[i] = histogram_eq(batch__x[i])] *)
Definition equalize_step (cfg : Config) (it : Item) : M Item :=
  if equalize cfg then ret (set_x it (histogram_eq (item_x it))) else ret it.

(** [if brightness: p = uniform(0, 1); if p >= 1 - brightness[2]:
     batch__x[i] = brightness(batch__x[i], ...)] *)
Definition brightness_step (cfg : Config) (it : Item) : M Item :=
  match brightness cfg with
  | Some (lo, hi, prob) =>
      p <- random_uniform ;;
      if draw_passes p prob then
        x <- call_option_value "brightness" (OptTuple lo hi prob) ;;
        ret (set_x it x)
      else ret it
  | None => ret it
  end.

(** [if flip: p = uniform(0, 1); if p >= 1 - flip:
     batch__x[i] = flip(batch__x[i]); <remap xmin, xmax>] *)
Definition flip_step (cfg : Config) (it : Item) : M Item :=
  match flip cfg with
  | Some prob =>
      if float_truthy prob then
        p <- random_uniform ;;
        if draw_passes p prob then
          x <- call_option_value "flip" (OptFloat prob) ;;
          ret (mkItem x (flip_boxes (img_width it) (item_y it))
                 (img_height it) (img_width it))
        else ret it
      else ret it
  | None => ret it
  end.

(** The limiting of the scale branch: the upper bound is applied first. *)
Definition limit_scaled (h w : Z) (b : Box) : Box :=
  map_y (fun v => limit_lo (limit_hi h v))
    (map_x (fun v => limit_lo (limit_hi w v)) b).

(** [if scale: p = uniform(0, 1); if p >= 1 - scale[2]:
     batch__x[i], rot_mat, scale_factor = scale(batch__x[i], scale[0], scale[1]);
     <warp the corners>; if limit_boxes and scale_factor > 1: <clip and filter>] *)
Definition scale_step (cfg : Config) (it : Item) : M Item :=
  match scale cfg with
  | Some (lo, hi, prob) =>
      p <- random_uniform ;;
      if draw_passes p prob then
        ' (x, rot_mat, scale_factor) <-
          call_option_value "scale" (OptTuple lo hi prob) ;;
        let y := map (warp_box rot_mat) (item_y it) in
        let y' :=
          if limit_boxes cfg && F64.ltb F64.one scale_factor then
            filter_boxes (include_thresh cfg) y
              (map (limit_scaled (img_height it) (img_width it)) y)
          else y in
        ret (mkItem x y' (img_height it) (img_width it))
      else ret it
  | None => ret it
  end.

(** The limiting of the crop branches: the lower bound is applied first. *)
Definition limit_cropped (bound v : Z) : Z := limit_hi bound (limit_lo v).

(** One crop or canvas placement at the drawn position: the patch, the
    shifted boxes ([before_limiting]) and the limited boxes ([patch_y]). *)
Definition crop_patch (cfg : Config) (it : Item) (crop_h crop_w : Z)
    (y_range x_range crop_ymin crop_xmin : Z) : Image * Labels * Labels :=
  let x := item_x it in
  let y := item_y it in
  if (0 <=? y_range) && (0 <=? x_range) then
    let patch_x :=
      crop_image x crop_ymin (crop_ymin + crop_h) crop_xmin (crop_xmin + crop_w) in
    let shifted :=
      map (fun b => map_x (fun v => Int64.sub v crop_xmin)
                      (map_y (fun v => Int64.sub v crop_ymin) b)) y in
    let patch_y :=
      if limit_boxes cfg then
        map (fun b => map_x (limit_cropped crop_w)
                        (map_y (limit_cropped crop_h) b)) shifted
      else shifted in
    (patch_x, shifted, patch_y)
  else if (0 <=? y_range) && (x_range <? 0) then
    let rows := py_slice x crop_ymin (crop_ymin + crop_h) in
    let patch_x :=
      place_on_canvas crop_h crop_w (img_channels rows) 0 crop_xmin rows in
    let shifted :=
      map (fun b => map_x (fun v => Int64.add v crop_xmin)
                      (map_y (fun v => Int64.sub v crop_ymin) b)) y in
    let patch_y :=
      if limit_boxes cfg then map (map_y (limit_cropped crop_h)) shifted
      else shifted in
    (patch_x, shifted, patch_y)
  else if (y_range <? 0) && (0 <=? x_range) then
    let cols := map (fun row => py_slice row crop_xmin (crop_xmin + crop_w)) x in
    let patch_x :=
      place_on_canvas crop_h crop_w (img_channels cols) crop_ymin 0 cols in
    let shifted :=
      map (fun b => map_x (fun v => Int64.sub v crop_xmin)
                      (map_y (fun v => Int64.add v crop_ymin) b)) y in
    let patch_y :=
      if limit_boxes cfg then map (map_x (limit_cropped crop_w)) shifted
      else shifted in
    (patch_x, shifted, patch_y)
  else
    let patch_x :=
      place_on_canvas crop_h crop_w (img_channels x) crop_ymin crop_xmin x in
    let shifted :=
      map (fun b => map_x (fun v => Int64.add v crop_xmin)
                      (map_y (fun v => Int64.add v crop_ymin) b)) y in
    (patch_x, shifted, shifted).

(** One trial of the random crop: two draws, the crop, and the filter
    [if limit_boxes and (y_range >= 0 or x_range >= 0)]. *)
Definition crop_trial (cfg : Config) (it : Item) (crop_h crop_w : Z)
    (y_range x_range : Z) : M (Image * Labels) :=
  crop_ymin <- random_randint (if 0 <=? y_range then y_range + 1 else - y_range + 1) ;;
  crop_xmin <- random_randint (if 0 <=? x_range then x_range + 1 else - x_range + 1) ;;
  (* [np.zeros((random_crop[0], random_crop[1], ...))] of the canvas cases *)
  (if ((y_range <? 0) || (x_range <? 0)) && ((crop_h <? 0) || (crop_w <? 0))
   then raise (ValueError "negative dimensions are not allowed")
   else ret tt) ;;;
  let '(patch_x, before_limiting, patch_y) :=
    crop_patch cfg it crop_h crop_w y_range x_range crop_ymin crop_xmin in
  if limit_boxes cfg && ((0 <=? y_range) || (0 <=? x_range)) then
    ret (patch_x, filter_boxes (include_thresh cfg) before_limiting patch_y)
  else ret (patch_x, patch_y).

(** The variables of the trial loop. *)
Record CropLoop : Type := mkCropLoop
  { loop_item : Item;
    min_1_object_fulfilled : bool;
    trial_counter : Z;
    batch_items_to_remove : list nat }.

(** [while (not min_1_object_fulfilled) and (trial_counter < random_crop[3])].
    [fuel] bounds the number of iterations; [random_crop_step] supplies
    enough of it. *)
Fixpoint crop_loop (fuel : nat) (cfg : Config) (i : nat)
    (crop_h crop_w min_1_object max_trials y_range x_range : Z)
    (st : CropLoop) : M CropLoop :=
  match fuel with
  | O => ret st
  | S fuel' =>
      if negb (min_1_object_fulfilled st) && (trial_counter st <? max_trials) then
        ' (patch_x, patch_y) <-
          crop_trial cfg (loop_item st) crop_h crop_w y_range x_range ;;
        let trial_counter' := trial_counter st + 1 in
        if min_1_object =? 0 then
          (* break *)
          ret (mkCropLoop (mkItem patch_x patch_y crop_h crop_w)
                 (min_1_object_fulfilled st) trial_counter'
                 (batch_items_to_remove st))
        else if (0 <? length patch_y)%nat then
          crop_loop fuel' cfg i crop_h crop_w min_1_object max_trials y_range x_range
            (mkCropLoop (mkItem patch_x patch_y crop_h crop_w)
               true trial_counter' (batch_items_to_remove st))
        else if (max_trials <=? trial_counter')
                && negb (py_in i (batch_items_to_remove st)) then
          crop_loop fuel' cfg i crop_h crop_w min_1_object max_trials y_range x_range
            (mkCropLoop (loop_item st) (min_1_object_fulfilled st) trial_counter'
               (batch_items_to_remove st ++ [i]))
        else
          crop_loop fuel' cfg i crop_h crop_w min_1_object max_trials y_range x_range
            (mkCropLoop (loop_item st) (min_1_object_fulfilled st) trial_counter'
               (batch_items_to_remove st))
      else ret st
  end.

(** [if random_crop: ...] for item [i]. *)
Definition random_crop_step (cfg : Config) (i : nat) (it : Item)
    (to_remove : list nat) : M CropLoop :=
  match random_crop cfg with
  | Some (crop_h, crop_w, min_1_object, max_trials) =>
      let y_range := img_height it - crop_h in
      let x_range := img_width it - crop_w in
      crop_loop (S (Z.to_nat max_trials)) cfg i
        crop_h crop_w min_1_object max_trials y_range x_range
        (mkCropLoop it false 0 to_remove)
  | None => ret (mkCropLoop it false 0 to_remove)
  end.

(** [if crop: ...]: the fixed crop.  Only the sides that were cropped
    are shifted and limited. *)
Definition crop_step (cfg : Config) (it : Item) : M Item :=
  match crop cfg with
  | Some (crop_top, crop_bottom, crop_left, crop_right) =>
      let x :=
        crop_image (item_x it) crop_top (img_height it - crop_bottom)
          crop_left (img_width it - crop_right) in
      let y1 :=
        if 0 <? crop_top then map (map_y (fun v => Int64.sub v crop_top)) (item_y it)
        else item_y it in
      let y2 :=
        if 0 <? crop_left then map (map_x (fun v => Int64.sub v crop_left)) y1 else y1 in
      let h := img_height it - (crop_top + crop_bottom) in
      let w := img_width it - (crop_left + crop_right) in
      let y3 :=
        if limit_boxes cfg then
          let a := if 0 <? crop_top then map (map_y limit_lo) y2 else y2 in
          let b := if 0 <? crop_bottom then map (map_y (limit_hi h)) a else a in
          let c := if 0 <? crop_left then map (map_x limit_lo) b else b in
          let d := if 0 <? crop_right then map (map_x (limit_hi w)) c else c in
          filter_boxes (include_thresh cfg) y2 d
        else y2 in
      ret (mkItem x y3 h w)
  | None => ret it
  end.

(** [if resize: batch__x[i] = cv2.resize(batch__x[i], dsize=resize);
     <scale x by resize[0] / img_width, y by resize[1] / img_height>].
    [img_height] and [img_width] are not updated. *)
Definition resize_step (cfg : Config) (it : Item) : M Item :=
  match resize cfg with
  | Some (new_w, new_h) =>
      match cv2_resize (item_x it) (new_w, new_h) with
      | None => raise CvError
      | Some x =>
          match py_truediv new_w (img_width it) with
          | inl e => raise e
          | inr fx =>
              let y1 := map (map_x (scale_coord fx)) (item_y it) in
              match py_truediv new_h (img_height it) with
              | inl e => raise e
              | inr fy =>
                  ret (mkItem x (map (map_y (scale_coord fy)) y1)
                         (img_height it) (img_width it))
              end
          end
      end
  | None => ret it
  end.

(** [if gray: ...] *)
Definition gray_step (cfg : Config) (it : Item) : M Item :=
  if gray cfg then ret (set_x it (cv2_gray (item_x it))) else ret it.

(** The body of [for i in range(len(batch__x))] for one [i]. *)
Definition augment_item (cfg : Config) (i : nat) (x : Image) (y : Labels)
    (to_remove : list nat) : M (Item * list nat) :=
  emit (EvAugment i) ;;;
  let it := mkItem x y (img_rows x) (img_cols x) in
  it <- equalize_step cfg it ;;
  it <- brightness_step cfg it ;;
  it <- flip_step cfg it ;;
  it <- scale_step cfg it ;;
  st <- random_crop_step cfg i it to_remove ;;
  it <- crop_step cfg (loop_item st) ;;
  it <- resize_step cfg it ;;
  it <- gray_step cfg it ;;
  ret (it, batch_items_to_remove st).

(** The loop [for i in range(len(batch__x))], from index [i] on. *)
Fixpoint augment_items (cfg : Config) (i : nat) (xs : list Image)
    (ys : list Labels) (to_remove : list nat)
    : M (list Image * list Labels * list nat) :=
  match xs with
  | [] => ret ([], ys, to_remove)
  | x :: xs' =>
      match ys with
      | [] => raise IndexError
      | y :: ys' =>
          ' (it, to_remove') <- augment_item cfg i x y to_remove ;;
          ' (xs'', ys'', to_remove'') <-
            augment_items cfg (S i) xs' ys' to_remove' ;;
          ret (item_x it :: xs'', item_y it :: ys'', to_remove'')
      end
  end.

(** [for filename in ...: with Image.open(filename) as img: ...] *)
Fixpoint load_images (filenames : list string) : M (list Image) :=
  match filenames with
  | [] => ret []
  | f :: fs =>
      emit (EvLoad f) ;;;
      match image_open f with
      | None => raise (IOError f)
      | Some x => xs <- load_images fs ;; ret (x :: xs)
      end
  end.

(** [for j in sorted(batch_items_to_remove, reverse=True): l.pop(j)] *)
Definition remove_items {A : Type} (to_remove : list nat) (l : list A) : list A :=
  fold_left (fun acc j => pop j acc) (sorted_reverse to_remove) l.

Definition Sample : Type := (string * Labels)%type.

(** What one iteration yields. *)
Inductive Batch : Type :=
| TrainBatch (batch_x : list Image) (y_true : Target)
| InferBatch (batch_x : list Image) (batch_y : list Labels)
    (this_filenames : list string).

(** One iteration of [while True], up to its [yield].  A batch holds the
    list [batch__x] as it is before its conversion with [np.array]. *)
Definition next_batch (cfg : Config) (st : Cursor Sample)
    : M (Batch * Cursor Sample) :=
  ' (win, st') <- select_window (batch_size cfg) st ;;
  batch_x <- load_images (map fst win) ;;
  let batch_y := map snd win in
  let this_filenames := map fst win in
  ' (batch_x, batch_y, to_remove) <- augment_items cfg 0 batch_x batch_y [] ;;
  let batch_x := remove_items to_remove batch_x in
  let batch_y := remove_items to_remove batch_y in
  if train cfg then
    match ssd_box_encoder cfg with
    | None =>
        raise (ValueError "`ssd_box_encoder` cannot be `None` in training mode.")
    | Some encode_y =>
        emit EvYield ;;; ret (TrainBatch batch_x (encode_y batch_y), st')
    end
  else emit EvYield ;;; ret (InferBatch batch_x batch_y this_filenames, st').

Fixpoint yields (cfg : Config) (n : nat) (st : Cursor Sample) : M (list Batch) :=
  match n with
  | O => ret []
  | S n' =>
      ' (b, st') <- next_batch cfg st ;;
      bs <- yields cfg n' st' ;;
      ret (b :: bs)
  end.

(** The first [n] batches of [generate(...)] on the parsed dataset. *)
Definition generate (cfg : Config) (data : list Sample) (n : nat)
    : M (list Batch) :=
  st <- generate_start data ;;
  yields cfg n st.

End Generator.

Arguments mkConfig {Target}.
Arguments batch_size {Target}.
Arguments train {Target}.
Arguments ssd_box_encoder {Target}.
Arguments equalize {Target}.
Arguments brightness {Target}.
Arguments flip {Target}.
Arguments scale {Target}.
Arguments random_crop {Target}.
Arguments crop {Target}.
Arguments resize {Target}.
Arguments gray {Target}.
Arguments limit_boxes {Target}.
Arguments include_thresh {Target}.
Arguments equalize_step {Target}.
Arguments brightness_step {Target}.
Arguments flip_step {Target}.
Arguments scale_step {Target}.
Arguments crop_patch {Target}.
Arguments crop_trial {Target}.
Arguments crop_loop {Target}.
Arguments random_crop_step {Target}.
Arguments crop_step {Target}.
Arguments resize_step {Target}.
Arguments gray_step {Target}.
Arguments augment_item {Target}.
Arguments augment_items {Target}.
Arguments next_batch {Target}.
Arguments yields {Target}.
Arguments generate {Target}.
Arguments TrainBatch {Target}.
Arguments InferBatch {Target}.

(* ================================================================== *)
(** ** Predicates used in the statements *)

(** The mantissa of a binary64 value in normal form has 53 bits. *)
Definition normal53 (m : positive) : Prop := 2 ^ 52 <= Zpos m < 2 ^ 53.

(** A common scale for the values of binary64 numbers: a finite value
    [m * 2^e] with [-1100 <= e] is the integer [m * 2^(e + 1100)] over
    [Sc]. *)
Definition Sc : Z := 2 ^ 1100.

(** No call through an option name occurs in a trace. *)
Definition no_call (t : list Event) : Prop := forall c, ~ In (EvCall c) t.

(** A computation in which a call through an option name is the last thing
    that happens: its trace has no such call, or it has exactly one, in the
    last position, and the computation ends there with a [TypeError]. *)
Definition call_aborts {A : Type} (m : M A) : Prop :=
  forall o s t r,
    m o s = (t, r) ->
    no_call t \/
    exists t1 c v, t = t1 ++ [EvCall c] /\ no_call t1 /\ r = inl (TypeError v).

(** The three branches for an item whose transforms start at the uniform
    draw number [u]: a branch is taken when its option is enabled and its
    draw [p] satisfies [p >= 1 - prob].  An enabled option draws once. *)
Definition brightness_taken {Target : Type} (cfg : Config Target) (o : Oracle)
    (u : nat) : bool :=
  match brightness cfg with
  | Some (_, _, prob) => draw_passes (uniform01 o u) prob
  | None => false
  end.

Definition brightness_draws {Target : Type} (cfg : Config Target) : nat :=
  match brightness cfg with
  | Some _ => 1
  | None => 0
  end.

Definition flip_taken {Target : Type} (cfg : Config Target) (o : Oracle)
    (u : nat) : bool :=
  match flip cfg with
  | Some prob => float_truthy prob && draw_passes (uniform01 o u) prob
  | None => false
  end.

Definition flip_draws {Target : Type} (cfg : Config Target) : nat :=
  match flip cfg with
  | Some prob => if float_truthy prob then 1 else 0
  | None => 0
  end.

Definition scale_taken {Target : Type} (cfg : Config Target) (o : Oracle)
    (u : nat) : bool :=
  match scale cfg with
  | Some (_, _, prob) => draw_passes (uniform01 o u) prob
  | None => false
  end.

(** The first branch that is taken for such an item, as the name that is
    called and the type of the object it is bound to; [None] when no branch
    is taken. *)
Definition taken_branch {Target : Type} (cfg : Config Target) (o : Oracle)
    (u : nat) : option (string * string) :=
  if brightness_taken cfg o u then Some ("brightness", "tuple")%string
  else if flip_taken cfg o (brightness_draws cfg + u) then Some ("flip", "float")%string
  else if scale_taken cfg o (flip_draws cfg + (brightness_draws cfg + u))
       then Some ("scale", "tuple")%string
  else None.

(** Small concrete inputs for the examples: two 4 x 4 RGB images, a
    dataset of two samples with one box each, an oracle whose draws are
    all 0 and whose shuffles keep the order, and three configurations. *)
Module Example.

Definition px : Pixel := [0%N; 0%N; 0%N].
Definition image4 : Image := repeat (repeat px 4) 4.

Definition image_open (f : string) : option Image :=
  if String.eqb f "a.png" then Some image4
  else if String.eqb f "b.png" then Some image4
  else None.

Definition histogram_eq (x : Image) : Image := x.
Definition cv2_resize (x : Image) (dsize : Z * Z) : option Image := Some x.
Definition cv2_gray (x : Image) : Image := x.

Definition oracle0 : Oracle :=
  mkOracle (fun _ => F64.zero) (fun _ => 0) (fun _ => []).
Definition rng0 : RngState := mkRng 0 0 0.

(** The default [include_thresh=0.3]. *)
Definition thresh_03 : F64.float :=
  Eval cbv in F64.div (F64.of_Z 3) (F64.of_Z 10).

Definition data : list Sample :=
  [("a.png"%string, [mkBox 0 2 3 2 3]); ("b.png"%string, [mkBox 0 0 1 0 1])].

(** [generate(batch_size=2, train=False, random_crop=(2, 2, 1, 1))] *)
Definition infer_crop_config : Config unit :=
  mkConfig 2 false None false None None None (Some (2, 2, 1, 1)) None None
    false true thresh_03.

(** [generate(batch_size=2, train=False, flip=1.0)] *)
Definition flip_config : Config unit :=
  mkConfig 2 false None false None (Some F64.one) None None None None
    false true thresh_03.

(** [generate(batch_size=2, train=True)], without [ssd_box_encoder]. *)
Definition train_config : Config unit :=
  mkConfig 2 true None false None None None None None None
    false true thresh_03.

(** [generate(batch_size=2, train=False, random_crop=(2, 2, 0, 1),
    crop=(0, 1, 0, 1), resize=(8, 6))] *)
Definition crop_resize_config : Config unit :=
  mkConfig 2 false None false None None None (Some (2, 2, 0, 1))
    (Some (0, 1, 0, 1)) (Some (8, 6)) false true thresh_03.


End Example.

(** An image array of shape [(h, w, c)]. *)
Definition array_shape (h w c : nat) (x : Image) : Prop :=
  length x = h /\
  Forall (fun row => length row = w /\ Forall (fun px : Pixel => length px = c) row) x.

(** The box invariant: the coordinates of a box lie inside an image of
    [h] rows and [w] columns, and its corners are in order. *)
Definition box_within (h w : Z) (b : Box) : Prop :=
  (0 <= xmin b <= xmax b /\ xmax b < w) /\
  (0 <= ymin b <= ymax b /\ ymax b < h).






(* ================================================================== *)
(** ** The constructor, [parse_csv] and [get_n_samples]

    A line of the CSV file is the list of its cells, as [csv.reader] yields
    it.  A Python [str] is the string of its UTF-8 bytes: the order of the
    bytes is the order of the code points that [sorted] compares. *)

(** The exceptions of the constructor and of the parser. *)
Inductive csv_exn : Type :=
| NotIterable                    (* TypeError of [enumerate(None)] *)
| MissingArguments               (* the ValueError of [parse_csv] *)
| NotInList (item : string)      (* ValueError of [list.index] *)
| RowTooShort                    (* IndexError of [i[...]] *)
| InvalidLiteral (s : string)    (* ValueError of [int] *)
| KeyError (key : Z)             (* of [self.class_map[val]] *)
| FileError (path : string).     (* OSError of [open] *)

Definition Parsed (A : Type) : Type := (csv_exn + A)%type.

Definition and_then {A B : Type} (m : Parsed A) (k : A -> Parsed B) : Parsed B :=
  match m with
  | inl e => inl e
  | inr a => k a
  end.

Declare Scope csv_scope.
Delimit Scope csv_scope with csv.
Notation "x <- m ;; k" := (and_then m (fun x => k))
  (at level 61, m at next level, right associativity) : csv_scope.

(** A dict with integer keys, in insertion order. *)
Definition Dict : Type := list (Z * nat).

(** [d[k] = v] *)
Fixpoint dict_set (k : Z) (v : nat) (d : Dict) : Dict :=
  match d with
  | [] => [(k, v)]
  | (k', v') :: d' => if k' =? k then (k, v) :: d' else (k', v') :: dict_set k v d'
  end.

(** [d[k]] *)
Fixpoint dict_get (k : Z) (d : Dict) : option nat :=
  match d with
  | [] => None
  | (k', v') :: d' => if k' =? k then Some v' else dict_get k d'
  end.

(** [enumerate(l)] *)
Definition enumerate {A : Type} (l : list A) : list (nat * A) :=
  combine (seq 0 (length l)) l.

(** [{v: k for k, v in enumerate(include_classes)}] *)
Definition make_class_map (include_classes : list Z) : Dict :=
  fold_left (fun d kv => dict_set (snd kv) (fst kv) d) (enumerate include_classes) [].

(** [l.index(x)]: the first position of [x]. *)
Fixpoint list_index (x : string) (l : list string) : option nat :=
  match l with
  | [] => None
  | y :: l' => if String.eqb y x then Some O else option_map S (list_index x l')
  end.

(** [x in l] on a list of integers. *)
Definition int_in (x : Z) (l : list Z) : bool := existsb (Z.eqb x) l.

(** One parsed line: [[image_name, class_id, xmin, xmax, ymin, ymax]]. *)
Definition Obj : Type := (string * Box)%type.

(** The order of Python lists of integers, on the rows
    [[class_id, xmin, xmax, ymin, ymax]]. *)
Definition box_compare (a b : Box) : comparison :=
  match class_id a ?= class_id b with
  | Eq =>
      match xmin a ?= xmin b with
      | Eq =>
          match xmax a ?= xmax b with
          | Eq =>
              match ymin a ?= ymin b with
              | Eq => ymax a ?= ymax b
              | c => c
              end
          | c => c
          end
      | c => c
      end
  | c => c
  end.

Definition obj_compare (a b : Obj) : comparison :=
  match String.compare (fst a) (fst b) with
  | Eq => box_compare (snd a) (snd b)
  | c => c
  end.

(** [a < b] *)
Definition obj_ltb (a b : Obj) : bool :=
  match obj_compare a b with
  | Lt => true
  | _ => false
  end.

Fixpoint sorted_insert (x : Obj) (l : list Obj) : list Obj :=
  match l with
  | [] => [x]
  | y :: l' => if obj_ltb y x then y :: sorted_insert x l' else x :: l
  end.

(** [sorted(data)]: a stable sort that compares with [<]. *)
Definition py_sorted (data : list Obj) : list Obj :=
  fold_right sorted_insert [] data.

(** The object [self]. [count] is [None] until [parse_csv] has set it. *)
Record BatchGenerator : Type := mkBatchGenerator
  { class_map : Dict;
    include_classes : option (list Z);
    labels_path : option string;
    input_format : option (list string);
    filenames : list string;
    labels : list Labels;
    count : option nat }.

Definition set_data (self : BatchGenerator) (fs : list string) (ls : list Labels)
    : BatchGenerator :=
  mkBatchGenerator (class_map self) (include_classes self) (labels_path self)
    (input_format self) fs ls (count self).

(** [self.labels.append(np.stack(current_labels, axis=0));
     self.filenames.append(current_file)] *)
Definition append_sample (self : BatchGenerator) (current_file : string)
    (current_labels : Labels) : BatchGenerator :=
  set_data self (filenames self ++ [current_file]) (labels self ++ [current_labels]).

(** The variables of the loop that compiles the samples. *)
Record Compile : Type := mkCompile
  { current_file : string;
    current_labels : Labels;
    compile_self : BatchGenerator }.

(** The body of [for idx, i in enumerate(data)], where [n] is [len(data)]. *)
Definition compile_step (n : nat) (st : Compile) (idx : nat) (i : Obj) : Compile :=
  if String.eqb (current_file st) "" then
    let current_labels' := current_labels st ++ [snd i] in
    if (n =? 1)%nat
    then mkCompile (fst i) current_labels'
           (append_sample (compile_self st) (fst i) current_labels')
    else mkCompile (fst i) current_labels' (compile_self st)
  else if String.eqb (fst i) (current_file st) then
    let current_labels' := current_labels st ++ [snd i] in
    if (idx =? n - 1)%nat
    then mkCompile (current_file st) current_labels'
           (append_sample (compile_self st) (current_file st) current_labels')
    else mkCompile (current_file st) current_labels' (compile_self st)
  else
    mkCompile (fst i) [snd i]
      (append_sample (compile_self st) (current_file st) (current_labels st)).

Fixpoint compile_from (n idx : nat) (st : Compile) (data : list Obj) : Compile :=
  match data with
  | [] => st
  | i :: data' => compile_from n (S idx) (compile_step n st idx i) data'
  end.

(** The second loop of [parse_csv], on the sorted lines. *)
Definition compile_samples (self : BatchGenerator) (data : list Obj) : BatchGenerator :=
  compile_self (compile_from (length data) 0 (mkCompile "" [] self) data).

(** The attributes that the constructor sets before it calls
    [parse_csv]. *)
Definition new_generator (classes : list Z) : BatchGenerator :=
  mkBatchGenerator (make_class_map classes) (Some classes) None None [] [] None.

Section Parser.

Variable strip : string -> string.                    (* [str.strip] *)
Variable int_of_str : string -> option Z.             (* [int]; [None]: ValueError *)
Variable read_csv : string -> option (list (list string)).  (* [open], [csv.reader] *)

Open Scope csv_scope.

(** [i[self.input_format.index(item)].strip()] *)
Definition cell (input_format i : list string) (item : string) : Parsed string :=
  match list_index item input_format with
  | None => inl (NotInList item)
  | Some k =>
      match nth_error i k with
      | None => inl RowTooShort
      | Some c => inr (strip c)
      end
  end.

(** [int(i[self.input_format.index(item)].strip())] *)
Definition int_cell (input_format i : list string) (item : string) : Parsed Z :=
  s <- cell input_format i item ;;
  match int_of_str s with
  | None => inl (InvalidLiteral s)
  | Some z => inr z
  end.

(** The body of the first loop for one line after the header: the line is
    skipped ([None]) when its class is not among [include_classes]; the
    loop over [box_output_format] is written out for its five items. *)
Definition parse_line (self : BatchGenerator) (input_format i : list string)
    : Parsed (option Obj) :=
  included <- match include_classes self with
              | None => inr true
              | Some classes =>
                  v <- int_cell input_format i "class_id" ;;
                  inr (int_in v classes)
              end ;;
  if included : bool then
    image_name <- cell input_format i "image_name" ;;
    val <- int_cell input_format i "class_id" ;;
    k <- match dict_get val (class_map self) with
         | None => inl (KeyError val)
         | Some k => inr k
         end ;;
    x0 <- int_cell input_format i "xmin" ;;
    x1 <- int_cell input_format i "xmax" ;;
    y0 <- int_cell input_format i "ymin" ;;
    y1 <- int_cell input_format i "ymax" ;;
    inr (Some (image_name, mkBox (Z.of_nat k) x0 x1 y0 y1))
  else inr None.

(** The first loop, from the second line on. *)
Fixpoint parse_lines (self : BatchGenerator) (input_format : list string)
    (lines : list (list string)) : Parsed (list Obj) :=
  match lines with
  | [] => inr []
  | i :: lines' =>
      o <- parse_line self input_format i ;;
      data <- parse_lines self input_format lines' ;;
      inr (match o with
           | Some obj => obj :: data
           | None => data
           end)
  end.

(** [parse_csv(labels_path, input_format)] *)
Definition parse_csv (self : BatchGenerator) (labels_path_arg : option string)
    (input_format_arg : option (list string)) : Parsed BatchGenerator :=
  let path := match labels_path_arg with
              | Some p => Some p
              | None => labels_path self
              end in
  let format := match input_format_arg with
                | Some f => Some f
                | None => input_format self
                end in
  match path, format with
  | Some p, Some f =>
      let self1 :=
        mkBatchGenerator (class_map self) (include_classes self) path format [] []
          (count self) in
      match read_csv p with
      | None => inl (FileError p)
      | Some lines =>
          (* the first line is the header *)
          data <- parse_lines self1 f (tl lines) ;;
          let self2 := compile_samples self1 (py_sorted data) in
          inr (mkBatchGenerator (class_map self2) (include_classes self2)
                 (labels_path self2) (input_format self2) (filenames self2)
                 (labels self2) (Some (length (filenames self2))))
      end
  | _, _ => inl MissingArguments
  end.

(** [BatchGenerator(labels_path, input_format, include_classes)] *)
Definition init (labels_path_arg : option string)
    (input_format_arg : option (list string))
    (include_classes_arg : option (list Z)) : Parsed BatchGenerator :=
  match include_classes_arg with
  | None => inl NotIterable
  | Some classes => parse_csv (new_generator classes) labels_path_arg input_format_arg
  end.

Close Scope csv_scope.

End Parser.

(** [get_n_samples()] *)
Definition get_n_samples (self : BatchGenerator) : nat := length (filenames self).

(** The dataset [generate] iterates over: [self.filenames] beside
    [self.labels]. *)
Definition samples (self : BatchGenerator) : list Sample :=
  combine (filenames self) (labels self).

(** The runs of consecutive lines with the same image name, each with the
    boxes of its lines in order; [(f, acc)] is the run that is open. *)
Fixpoint group_from (f : string) (acc : Labels) (data : list Obj) : list Sample :=
  match data with
  | [] => [(f, acc)]
  | i :: data' =>
      if String.eqb (fst i) f then group_from f (acc ++ [snd i]) data'
      else (f, acc) :: group_from (fst i) [snd i] data'
  end.

Definition group_rows (data : list Obj) : list Sample :=
  match data with
  | [] => []
  | i :: data' => group_from (fst i) [snd i] data'
  end.

(** The strict order of the rows [[class_id, xmin, xmax, ymin, ymax]]. *)
Definition box_lt (a b : Box) : Prop :=
  class_id a < class_id b \/
  (class_id a = class_id b /\
   (xmin a < xmin b \/
    (xmin a = xmin b /\
     (xmax a < xmax b \/
      (xmax a = xmax b /\
       (ymin a < ymin b \/ (ymin a = ymin b /\ ymax a < ymax b))))))).

(** [a <= b] in the order of the lines. *)
Definition obj_le (a b : Obj) : Prop := obj_ltb b a = false.

(** The last line is not the only line and its image name differs from
    that of the line before it. *)
Definition last_line_alone (data : list Obj) : bool :=
  match rev data with
  | i :: j :: _ => negb (String.eqb (fst i) (fst j))
  | _ => false
  end.

(** [a < b] and [a <= b] on image names. *)
Definition name_lt (a b : string) : Prop := String.compare a b = Lt.
Definition name_le (a b : string) : Prop := String.compare a b <> Gt.

(** The boxes of the lines of image [f], in the order of the lines. *)
Definition boxes_of (f : string) (data : list Obj) : Labels :=
  map snd (filter (fun i => String.eqb (fst i) f) data).

(** What the loop keeps, for any lines: the two lists stay parallel, no
    box array is empty, and every box comes from a line. *)
Definition compile_inv (src : list Box) (st : Compile) : Prop :=
  length (labels (compile_self st)) = length (filenames (compile_self st)) /\
  Forall (fun bs => bs <> []) (labels (compile_self st)) /\
  (current_file st <> ""%string -> current_labels st <> []) /\
  Forall (fun bs => incl bs src) (labels (compile_self st)) /\
  incl (current_labels st) src.

(** The last position of [c] in [l], where the positions count from [s]. *)
Fixpoint last_index_from (s : nat) (c : Z) (l : list Z) : option nat :=
  match l with
  | [] => None
  | x :: l' =>
      match last_index_from (S s) c l' with
      | Some k => Some k
      | None => if x =? c then Some s else None
      end
  end.

(** A small CSV file for the examples: five boxes on three images, one of
    them of a class that is not included; cells are decimal numerals. *)
Module ExampleCsv.

Fixpoint digits_value (s : string) (acc : Z) : option Z :=
  match s with
  | EmptyString => Some acc
  | String c s' =>
      let n := Z.of_nat (Ascii.nat_of_ascii c) - 48 in
      if (0 <=? n) && (n <=? 9) then digits_value s' (10 * acc + n) else None
  end.

Definition int_of_str (s : string) : option Z :=
  match s with
  | EmptyString => None
  | _ => digits_value s 0
  end.

Definition strip (s : string) : string := s.

Definition header : list string :=
  ["frame"; "xmin"; "xmax"; "ymin"; "ymax"; "class_id"]%string.

Definition lines : list (list string) :=
  [["b.png"; "0"; "1"; "0"; "1"; "1"];
   ["a.png"; "2"; "3"; "2"; "3"; "1"];
   ["c.png"; "1"; "2"; "1"; "2"; "2"];
   ["b.png"; "5"; "6"; "5"; "6"; "7"];
   ["a.png"; "0"; "1"; "0"; "1"; "2"]]%string.

Definition read_csv (path : string) : option (list (list string)) :=
  if String.eqb path "labels.csv" then Some (header :: lines) else None.

Definition format : list string :=
  ["image_name"; "xmin"; "xmax"; "ymin"; "ymax"; "class_id"]%string.

Definition classes : list Z := [1; 2].

(** The lines that are kept, as parsed. *)
Definition data : list Obj :=
  [("b.png"%string, mkBox 0 0 1 0 1); ("a.png"%string, mkBox 0 2 3 2 3);
   ("c.png"%string, mkBox 1 1 2 1 2); ("a.png"%string, mkBox 1 0 1 0 1)].

End ExampleCsv.

(** [[x for k, x in enumerate(l, i) if k not in to_remove]]: the list
    without the elements at the marked positions. *)
Fixpoint keep_unmarked {A : Type} (to_remove : list nat) (i : nat) (l : list A)
    : list A :=
  match l with
  | [] => []
  | x :: l' =>
      if py_in i to_remove then keep_unmarked to_remove (S i) l'
      else x :: keep_unmarked to_remove (S i) l'
  end.

(** An image array of shape [(h, w, ...)]. *)
Definition image_shape (h w : Z) (x : Image) : Prop :=
  img_rows x = h /\ 0 <= w /\ Forall (fun row => Z.of_nat (length row) = w) x.

(* ################################################################## *)
(** * Properties *)

(* ================================================================== *)
(** ** int64 arithmetic *)

Lemma wrap64_id z : Int64.in_range z -> Int64.wrap64 z = z.
Proof.
  unfold Int64.in_range, Int64.wrap64, Int64.min_int, Int64.max_int, Int64.modulus.
  intros H. rewrite Z.mod_small; lia.
Qed.


Lemma wrap64_congr a b :
  (a - b) mod Int64.modulus = 0 -> Int64.wrap64 a = Int64.wrap64 b.
Proof.
  unfold Int64.wrap64, Int64.modulus. intros H.
  assert (E : (a + 2 ^ 63) mod 2 ^ 64 = (b + 2 ^ 63) mod 2 ^ 64).
  { apply Z.mod_divide in H; [|lia]. destruct H as [k Hk].
    replace (a + 2 ^ 63) with (b + 2 ^ 63 + k * 2 ^ 64) by lia.
    apply Z.mod_add. lia. }
  now rewrite E.
Qed.

Lemma wrap64_sub_wrap_r a b :
  Int64.wrap64 (a - Int64.wrap64 b) = Int64.wrap64 (a - b).
Proof.
  apply wrap64_congr. unfold Int64.wrap64, Int64.modulus.
  rewrite (Z.mod_eq (b + 2 ^ 63) (2 ^ 64)) by lia.
  replace (a - (b + 2 ^ 63 - 2 ^ 64 * ((b + 2 ^ 63) / 2 ^ 64) - 2 ^ 63) - (a - b))
    with (((b + 2 ^ 63) / 2 ^ 64) * 2 ^ 64) by lia.
  apply Z.mod_mul. lia.
Qed.

(* ================================================================== *)
(** ** binary64 arithmetic: rounding of the operations that [generate]
    applies to box coordinates *)

Lemma digits2_pos_size p : digits2_pos p = Pos.size p.
Proof. induction p; simpl; congruence. Qed.

Lemma digits_bounds p :
  2 ^ (Zpos (digits2_pos p) - 1) <= Zpos p < 2 ^ Zpos (digits2_pos p).
Proof.
  rewrite digits2_pos_size. split.
  - pose proof (Pos.size_le p) as H.
    assert (H' : 2 ^ Zpos (Pos.size p) <= 2 * Zpos p).
    { rewrite <- Pos2Z.inj_pow. change (2 * Z.pos p) with (Z.pos p~0). exact H. }
    replace (Zpos (Pos.size p)) with (Z.succ (Zpos (Pos.size p) - 1)) in H' by lia.
    rewrite Z.pow_succ_r in H' by lia. lia.
  - pose proof (Pos.size_gt p) as H.
    rewrite <- Pos2Z.inj_pow. exact H.
Qed.

Lemma digits_unique p d : 2 ^ (d - 1) <= Zpos p < 2 ^ d -> Zpos (digits2_pos p) = d.
Proof.
  intros [H1 H2]. pose proof (digits_bounds p) as [H3 H4].
  destruct (Z.lt_trichotomy (Zpos (digits2_pos p)) d) as [L|[E|G]]; auto.
  - pose proof (Z.pow_le_mono_r 2 (Zpos (digits2_pos p)) (d - 1) ltac:(lia) ltac:(lia)). lia.
  - pose proof (Z.pow_le_mono_r 2 d (Zpos (digits2_pos p) - 1) ltac:(lia) ltac:(lia)). lia.
Qed.

Lemma shr_1_m mrs : 0 <= shr_m mrs -> shr_m (shr_1 mrs) = shr_m mrs / 2.
Proof.
  destruct mrs as [m r s]. cbn [shr_m]. intros H.
  destruct m as [|[p|p|]|p]; cbn [shr_1 shr_m]; try lia; try reflexivity.
  - rewrite Pos2Z.inj_xI. apply Z.div_unique with 1; lia.
  - rewrite Pos2Z.inj_xO. apply Z.div_unique with 0; lia.
Qed.

Lemma shr_1_nonneg mrs : 0 <= shr_m mrs -> 0 <= shr_m (shr_1 mrs).
Proof. intros H. rewrite shr_1_m by auto. apply Z.div_pos; lia. Qed.

Lemma pow2_xO p : 2 ^ Zpos p~0 = 2 ^ Zpos p * 2 ^ Zpos p.
Proof. rewrite Pos2Z.inj_xO, <- Z.pow_add_r by lia. f_equal. lia. Qed.

Lemma pow2_xI p : 2 ^ Zpos p~1 = 2 * (2 ^ Zpos p * 2 ^ Zpos p).
Proof.
  rewrite Pos2Z.inj_xI, <- Z.pow_add_r by lia.
  replace (2 * Zpos p + 1) with (Z.succ (Zpos p + Zpos p)) by lia.
  rewrite Z.pow_succ_r by lia. reflexivity.
Qed.

Lemma pow2_pos n : 0 < 2 ^ Zpos n.
Proof. apply Z.pow_pos_nonneg; lia. Qed.

Lemma iter_shr_m p : forall mrs, 0 <= shr_m mrs ->
  shr_m (iter_pos shr_1 p mrs) = shr_m mrs / 2 ^ Zpos p.
Proof.
  induction p as [p IH|p IH|]; intros mrs H; cbn [iter_pos].
  - pose proof (pow2_pos p).
    assert (H1 : 0 <= shr_m (shr_1 mrs)) by now apply shr_1_nonneg.
    assert (H2 : 0 <= shr_m (iter_pos shr_1 p (shr_1 mrs))).
    { rewrite IH by auto. apply Z.div_pos; lia. }
    rewrite IH, IH, shr_1_m by auto.
    rewrite !Z.div_div by lia. f_equal. rewrite pow2_xI. lia.
  - pose proof (pow2_pos p).
    assert (H2 : 0 <= shr_m (iter_pos shr_1 p mrs)).
    { rewrite IH by auto. apply Z.div_pos; lia. }
    rewrite IH, IH by auto.
    rewrite !Z.div_div by lia. f_equal. rewrite pow2_xO. lia.
  - rewrite shr_1_m by auto. reflexivity.
Qed.

Lemma shr_1_exact m : 0 <= m -> m mod 2 = 0 ->
  shr_1 (Build_shr_record m false false) = Build_shr_record (m / 2) false false.
Proof.
  intros H0 H. destruct m as [|[p|p|]|p]; cbn [shr_1 orb]; try reflexivity; try lia.
  - rewrite Pos2Z.inj_xI in H. rewrite Z.add_comm, Z.mul_comm, Z.mod_add in H by lia. discriminate.
  - f_equal. rewrite Pos2Z.inj_xO. apply Z.div_unique with 0; lia.
  - discriminate.
Qed.

Lemma iter_shr_exact p : forall m, 0 <= m -> m mod 2 ^ Zpos p = 0 ->
  iter_pos shr_1 p (Build_shr_record m false false)
  = Build_shr_record (m / 2 ^ Zpos p) false false.
Proof.
  assert (Hdiv : forall m a b, 0 < a -> 0 < b -> m mod (a * b) = 0 ->
                 m mod a = 0 /\ (m / a) mod b = 0).
  { intros m a b Ha Hb Hm. apply Z.mod_divide in Hm; [|lia].
    destruct Hm as [k Hk]. subst m. split.
    - replace (k * (a * b)) with (k * b * a) by lia. apply Z.mod_mul. lia.
    - replace (k * (a * b)) with (k * b * a) by lia. rewrite Z.div_mul by lia.
      apply Z.mod_mul. lia. }
  induction p as [p IH|p IH|]; intros m H0 H; cbn [iter_pos].
  - pose proof (pow2_pos p). rewrite pow2_xI in H.
    apply Hdiv in H; [|lia|lia]. destruct H as [Ha Hb].
    apply Hdiv in Hb; [|lia|lia]. destruct Hb as [Hb Hc].
    rewrite shr_1_exact, IH, IH; auto.
    + f_equal. rewrite !Z.div_div by lia. f_equal. rewrite pow2_xI. lia.
    + apply Z.div_pos; [apply Z.div_pos|]; lia.
    + apply Z.div_pos; lia.
  - pose proof (pow2_pos p). rewrite pow2_xO in H.
    apply Hdiv in H; [|lia|lia]. destruct H as [Ha Hb].
    rewrite IH, IH; auto.
    + f_equal. rewrite !Z.div_div by lia. f_equal. rewrite pow2_xO. lia.
    + apply Z.div_pos; lia.
  - apply shr_1_exact; auto.
Qed.

Lemma round_nearest_even_cases m l :
  round_nearest_even m l = m \/ round_nearest_even m l = m + 1.
Proof.
  destruct l as [|[]]; simpl; auto. destruct (Z.even m); auto.
Qed.

Lemma shr_record_of_loc_m m l : shr_m (shr_record_of_loc m l) = m.
Proof. destruct l as [|[]]; reflexivity. Qed.

Lemma shr_spec m l e n : 0 <= n -> 0 <= m ->
  snd (shr (shr_record_of_loc m l) e n) = e + n /\
  shr_m (fst (shr (shr_record_of_loc m l) e n)) = m / 2 ^ n /\
  (l = loc_Exact -> m mod 2 ^ n = 0 ->
   fst (shr (shr_record_of_loc m l) e n) = Build_shr_record (m / 2 ^ n) false false).
Proof.
  intros Hn Hm. destruct n as [|p|p]; try lia; cbn [shr fst snd].
  - rewrite shr_record_of_loc_m, Z.div_1_r. repeat split; try lia.
    intros -> _. reflexivity.
  - split; [reflexivity|split].
    + rewrite iter_shr_m by now rewrite shr_record_of_loc_m.
      now rewrite shr_record_of_loc_m.
    + intros -> H. cbn [shr_record_of_loc]. now apply iter_shr_exact.
Qed.

Lemma fexp_normal e : -1021 <= e -> fexp 53 1024 e = e - 53.
Proof. unfold fexp, emin. lia. Qed.

Lemma round_aux_normal sx mx ex lx :
  53 <= Zpos (digits2_pos mx) ->
  -1021 <= Zpos (digits2_pos mx) + ex <= 1023 ->
  exists m k,
    binary_round_aux 53 1024 sx (Zpos mx) ex lx = S754_finite sx m (ex + k) /\
    0 <= k /\
    2 ^ 52 <= Zpos m < 2 ^ 53 /\
    (Zpos m * 2 ^ k = Zpos mx / 2 ^ (Zpos (digits2_pos mx) - 53) * 2 ^ (Zpos (digits2_pos mx) - 53) \/
     Zpos m * 2 ^ k = (Zpos mx / 2 ^ (Zpos (digits2_pos mx) - 53) + 1) * 2 ^ (Zpos (digits2_pos mx) - 53)) /\
    (lx = loc_Exact -> Zpos mx mod 2 ^ (Zpos (digits2_pos mx) - 53) = 0 ->
     Zpos m * 2 ^ k = Zpos mx).
Proof.
  intros Hd Hr.
  set (d := Zpos (digits2_pos mx)) in *.
  set (n := d - 53).
  assert (Hn : 0 <= n) by (unfold n; lia).
  pose proof (digits_bounds mx) as Hb. fold d in Hb.
  assert (Hpn : 0 < 2 ^ n) by (apply Z.pow_pos_nonneg; lia).
  set (q := Zpos mx / 2 ^ n).
  assert (Hq : 2 ^ 52 <= q < 2 ^ 53).
  { unfold q. split.
    - apply Z.div_le_lower_bound; [lia|].
      rewrite <- Z.pow_add_r by lia. replace (n + 52) with (d - 1) by (unfold n; lia). lia.
    - apply Z.div_lt_upper_bound; [lia|].
      rewrite <- Z.pow_add_r by lia. replace (n + 53) with d by (unfold n; lia). lia. }
  unfold binary_round_aux, shr_fexp.
  cbn [Zdigits2]. fold d.
  rewrite fexp_normal by lia.
  replace (d + ex - 53 - ex) with n by (unfold n; lia).
  destruct (shr_spec (Zpos mx) lx ex n Hn ltac:(lia)) as (He & Hm & Hex).
  destruct (shr (shr_record_of_loc (Z.pos mx) lx) ex n) as [mrs e'].
  cbn [fst snd] in He, Hm, Hex. subst e'. fold q in Hm, Hex.
  set (m1 := round_nearest_even (shr_m mrs) (loc_of_shr_record mrs)).
  assert (Hm1 : m1 = q \/ m1 = q + 1).
  { unfold m1. rewrite <- Hm. apply round_nearest_even_cases. }
  assert (Hm1e : lx = loc_Exact -> Zpos mx mod 2 ^ n = 0 -> m1 = q).
  { intros E1 E2. unfold m1. rewrite (Hex E1 E2). reflexivity. }
  assert (Hmod : forall a, a mod 2 ^ n = 0 -> a / 2 ^ n * 2 ^ n = a).
  { intros a Ha. rewrite (Z.div_mod a (2 ^ n)) at 2 by lia. lia. }
  destruct (Z.eq_dec m1 (2 ^ 53)) as [E|NE].
  - (* the carry: one more shift *)
    assert (Hq1 : m1 = q + 1) by lia.
    rewrite E. change (Zdigits2 (2 ^ 53)) with 54.
    rewrite fexp_normal by lia.
    replace (54 + (ex + n) - 53 - (ex + n)) with 1 by lia.
    cbn [shr shr_record_of_loc iter_pos]. 
    change (shr_m (shr_1 {| shr_m := 2 ^ 53; shr_r := false; shr_s := false |}))
      with (Zpos (2 ^ 52)).
    cbv iota beta.
    assert (Hle : (ex + n + 1 <=? 1024 - 53) = true) by (apply Z.leb_le; unfold n; lia).
    rewrite Hle.
    exists (2 ^ 52)%positive, (n + 1).
    refine (conj _ (conj _ (conj _ (conj _ _)))).
    + f_equal. lia.
    + lia.
    + split; [reflexivity|reflexivity].
    + right. rewrite Z.pow_add_r by lia. change (Zpos (2 ^ 52)) with (2 ^ 52).
      replace (q + 1) with (2 ^ 53) by lia. change (2 ^ 53) with (2 ^ 52 * 2 ^ 1). lia.
    + intros E1 E2. specialize (Hm1e E1 E2). lia.
  - assert (Hlt : 2 ^ 52 <= m1 < 2 ^ 53) by lia.
    destruct m1 as [|pm|pm] eqn:Epm; try lia.
    assert (Hdm : Zpos (digits2_pos pm) = 53) by (apply digits_unique; exact Hlt).
    cbn [Zdigits2]. rewrite Hdm.
    rewrite fexp_normal by lia.
    replace (53 + (ex + n) - 53 - (ex + n)) with 0 by lia.
    cbn [shr shr_record_of_loc shr_m].
    assert (Hle : (ex + n <=? 1024 - 53) = true) by (apply Z.leb_le; unfold n; lia).
    rewrite Hle.
    exists pm, n.
    refine (conj _ (conj _ (conj _ (conj _ _)))).
    + reflexivity.
    + lia.
    + lia.
    + destruct Hm1 as [E|E]; rewrite E; [left|right]; reflexivity.
    + intros E1 E2. rewrite (Hm1e E1 E2). apply Hmod. exact E2.
Qed.

Lemma pos_iter_xO p d : Zpos (Pos.iter xO p d) = Zpos p * 2 ^ Zpos d.
Proof.
  induction d as [|d IH] using Pos.peano_ind.
  - cbn [Pos.iter]. rewrite Pos2Z.inj_xO. lia.
  - rewrite Pos.iter_succ, Pos2Z.inj_xO, IH, Pos2Z.inj_succ, Z.pow_succ_r by lia. lia.
Qed.

Lemma normal53_digits m : normal53 m -> Zpos (digits2_pos m) = 53.
Proof. intros H. apply digits_unique. exact H. Qed.

Lemma binary_round_normal sx mx ex :
  -1021 <= Zpos (digits2_pos mx) + ex <= 1023 ->
  exists m e,
    binary_round 53 1024 sx mx ex = S754_finite sx m e /\
    normal53 m /\
    ex - 53 < e /\ e <= Z.max ex (Zpos (digits2_pos mx) + ex - 52) /\
    (Zpos (digits2_pos mx) <= 53 -> e <= ex /\ Zpos m = Zpos mx * 2 ^ (ex - e)).
Proof.
  intros Hr. unfold binary_round.
  set (d := Zpos (digits2_pos mx)) in *.
  assert (Hd1 : 1 <= d) by (unfold d; lia).
  rewrite fexp_normal by lia.
  unfold shl_align.
  destruct (d + ex - 53 - ex) as [|sh|sh] eqn:Esh.
  - (* exactly 53 digits *)
    assert (Ed : d = 53) by lia.
    destruct (round_aux_normal sx mx ex loc_Exact) as (m & k & E & Hk & Hm & _ & Hex);
      fold d; try lia.
    rewrite E. exists m, (ex + k).
    fold d in Hex. replace (d - 53) with 0 in Hex by lia.
    specialize (Hex eq_refl (Z.mod_1_r _)).
    pose proof (digits_bounds mx) as Hb. fold d in Hb. rewrite Ed in Hb.
    change (53 - 1) with 52 in Hb.
    assert (Ek : k = 0).
    { destruct (Z.eq_dec k 0) as [|NZ]; auto. exfalso.
      assert (2 ^ 1 <= 2 ^ k) by (apply Z.pow_le_mono_r; lia).
      change (2 ^ 1) with 2 in *. unfold normal53 in *. nia. }
    subst k. rewrite Z.pow_0_r, Z.mul_1_r in Hex.
    refine (conj eq_refl (conj Hm (conj _ (conj _ _)))); try lia.
    intros _. split; [lia|]. replace (ex - (ex + 0)) with 0 by lia. lia.
  - (* more than 53 digits: rounding *)
    assert (Ed : 53 < d) by lia.
    destruct (round_aux_normal sx mx ex loc_Exact) as (m & k & E & Hk & Hm & Hv & _);
      fold d; try lia.
    rewrite E. exists m, (ex + k). fold d in Hv.
    pose proof (digits_bounds mx) as Hb. fold d in Hb.
    set (n := d - 53) in *.
    assert (Hpn : 0 < 2 ^ n) by (apply Z.pow_pos_nonneg; lia).
    assert (Hq : 2 ^ 52 <= Zpos mx / 2 ^ n < 2 ^ 53).
    { split.
      - apply Z.div_le_lower_bound; [lia|].
        rewrite <- Z.pow_add_r by lia. replace (n + 52) with (d - 1) by lia. lia.
      - apply Z.div_lt_upper_bound; [lia|].
        rewrite <- Z.pow_add_r by lia. replace (n + 53) with d by lia. lia. }
    assert (Hkn : n <= k <= n + 1).
    { unfold normal53 in *. split.
      - destruct (Z.lt_ge_cases k n) as [L|G]; [exfalso|lia].
        assert (2 ^ (k + 1) <= 2 ^ n) by (apply Z.pow_le_mono_r; lia).
        rewrite Z.pow_add_r in H by lia. change (2 ^ 1) with 2 in H.
        assert (0 < 2 ^ k) by (apply Z.pow_pos_nonneg; lia). nia.
      - destruct (Z.lt_ge_cases (n + 1) k) as [L|G]; [exfalso|lia].
        assert (2 ^ (n + 2) <= 2 ^ k) by (apply Z.pow_le_mono_r; lia).
        rewrite Z.pow_add_r in H by lia. change (2 ^ 2) with 4 in H. nia. }
    refine (conj eq_refl (conj Hm (conj _ (conj _ _)))); try lia.
  - (* fewer than 53 digits: alignment, then nothing to round *)
    assert (Ed : d < 53) by lia.
    assert (Esh' : Zpos sh = 53 - d) by lia.
    set (mz := Pos.iter xO mx sh).
    assert (Hmz : Zpos mz = Zpos mx * 2 ^ (53 - d)).
    { unfold mz. rewrite pos_iter_xO, Esh'. reflexivity. }
    pose proof (digits_bounds mx) as Hb. fold d in Hb.
    assert (Hn53 : normal53 mz).
    { unfold normal53. rewrite Hmz. split.
      - replace 52 with ((d - 1) + (53 - d)) by lia. rewrite Z.pow_add_r by lia.
        apply Z.mul_le_mono_nonneg_r; [apply Z.pow_nonneg|]; lia.
      - replace 53 with (d + (53 - d)) at 2 by lia. rewrite Z.pow_add_r by lia.
        apply Z.mul_lt_mono_pos_r; [apply Z.pow_pos_nonneg|]; lia. }
    pose proof (normal53_digits mz Hn53) as Hdz.
    destruct (round_aux_normal sx mz (d + ex - 53) loc_Exact) as (m & k & E & Hk & Hm & _ & Hex);
      rewrite ?Hdz; try lia.
    rewrite E. exists m, (d + ex - 53 + k).
    rewrite Hdz in Hex. change (53 - 53) with 0 in Hex.
    specialize (Hex eq_refl (Z.mod_1_r _)).
    assert (Ek : k = 0).
    { destruct (Z.eq_dec k 0) as [|NZ]; auto. exfalso.
      assert (2 ^ 1 <= 2 ^ k) by (apply Z.pow_le_mono_r; lia).
      change (2 ^ 1) with 2 in *. unfold normal53 in *. nia. }
    subst k. rewrite Z.pow_0_r, Z.mul_1_r in Hex.
    refine (conj eq_refl (conj Hm (conj _ (conj _ _)))); try lia.
    intros _. split; [lia|]. rewrite Hex, Hmz. f_equal. f_equal. lia.
Qed.

Lemma round_aux_rel sx mx ex lx :
  53 <= Zpos (digits2_pos mx) ->
  -1021 <= Zpos (digits2_pos mx) + ex <= 1023 ->
  exists m k,
    binary_round_aux 53 1024 sx (Zpos mx) ex lx = S754_finite sx m (ex + k) /\
    0 <= k /\ normal53 m /\
    (2 ^ 52 - 1) * (Zpos mx + 1) <= 2 ^ 52 * (Zpos m * 2 ^ k) /\
    2 ^ 52 * (Zpos m * 2 ^ k) <= (2 ^ 52 + 1) * Zpos mx /\
    (lx = loc_Exact -> Zpos mx mod 2 ^ (Zpos (digits2_pos mx) - 53) = 0 ->
     Zpos m * 2 ^ k = Zpos mx).
Proof.
  intros Hd Hr.
  destruct (round_aux_normal sx mx ex lx Hd Hr) as (m & k & E & Hk & Hm & Hv & Hex).
  exists m, k.
  pose proof (digits_bounds mx) as Hb.
  set (d := Zpos (digits2_pos mx)) in *. set (n := d - 53) in *.
  assert (Hpn : 0 < 2 ^ n) by (apply Z.pow_pos_nonneg; lia).
  assert (Hlow : 2 ^ 52 * 2 ^ n <= Zpos mx).
  { rewrite <- Z.pow_add_r by lia. replace (52 + n) with (d - 1) by lia. lia. }
  pose proof (Z.mul_div_le (Zpos mx) (2 ^ n) Hpn) as H1.
  pose proof (Z.mul_succ_div_gt (Zpos mx) (2 ^ n) Hpn) as H2.
  set (q := Zpos mx / 2 ^ n) in *.
  refine (conj E (conj Hk (conj Hm (conj _ (conj _ Hex))))).
  - destruct Hv as [Hv|Hv]; rewrite Hv; nia.
  - destruct Hv as [Hv|Hv]; rewrite Hv; nia.
Qed.

Lemma of_Z_pos p :
  Zpos p < 2 ^ 1023 ->
  exists m e,
    F64.of_Z (Zpos p) = S754_finite false m e /\ normal53 m /\ -53 < e /\
    (Zpos p < 2 ^ 53 -> e <= 0 /\ Zpos m = Zpos p * 2 ^ (- e)).
Proof.
  intros Hp. unfold F64.of_Z, binary_normalize.
  pose proof (digits_bounds p) as Hb.
  assert (Hd : 1 <= Zpos (digits2_pos p) <= 1023).
  { split; [lia|].
    destruct (Z.le_gt_cases (Zpos (digits2_pos p)) 1023) as [|G]; auto. exfalso.
    assert (2 ^ 1023 <= 2 ^ (Zpos (digits2_pos p) - 1)) by (apply Z.pow_le_mono_r; lia).
    lia. }
  destruct (binary_round_normal false p 0) as (m & e & E & Hm & He1 & He2 & Hex); [lia|].
  exists m, e. split; [exact E|]. split; [exact Hm|]. split; [lia|].
  intros Hs. apply Hex.
  destruct (Z.le_gt_cases (Zpos (digits2_pos p)) 53) as [|G]; auto. exfalso.
  assert (2 ^ 53 <= 2 ^ (Zpos (digits2_pos p) - 1)) by (apply Z.pow_le_mono_r; lia).
  lia.
Qed.

Lemma of_Z_neg p :
  Zpos p < 2 ^ 1023 ->
  exists m e,
    F64.of_Z (Zneg p) = S754_finite true m e /\ normal53 m /\ -53 < e /\
    (Zpos p < 2 ^ 53 -> e <= 0 /\ Zpos m = Zpos p * 2 ^ (- e)).
Proof.
  intros Hp. unfold F64.of_Z, binary_normalize.
  pose proof (digits_bounds p) as Hb.
  assert (Hd : 1 <= Zpos (digits2_pos p) <= 1023).
  { split; [lia|].
    destruct (Z.le_gt_cases (Zpos (digits2_pos p)) 1023) as [|G]; auto. exfalso.
    assert (2 ^ 1023 <= 2 ^ (Zpos (digits2_pos p) - 1)) by (apply Z.pow_le_mono_r; lia).
    lia. }
  destruct (binary_round_normal true p 0) as (m & e & E & Hm & He1 & He2 & Hex); [lia|].
  exists m, e. split; [exact E|]. split; [exact Hm|]. split; [lia|].
  intros Hs. apply Hex.
  destruct (Z.le_gt_cases (Zpos (digits2_pos p)) 53) as [|G]; auto. exfalso.
  assert (2 ^ 53 <= 2 ^ (Zpos (digits2_pos p) - 1)) by (apply Z.pow_le_mono_r; lia).
  lia.
Qed.

Lemma mul_normal sx sy mx my ex ey :
  normal53 mx -> normal53 my -> -1100 <= ex + ey <= 900 ->
  exists m k,
    F64.mul (S754_finite sx mx ex) (S754_finite sy my ey)
      = S754_finite (xorb sx sy) m (ex + ey + k) /\
    0 <= k /\ normal53 m /\
    (2 ^ 52 - 1) * (Zpos mx * Zpos my) <= 2 ^ 52 * (Zpos m * 2 ^ k) /\
    2 ^ 52 * (Zpos m * 2 ^ k) <= (2 ^ 52 + 1) * (Zpos mx * Zpos my) /\
    (Zpos mx = 2 ^ 52 -> m = my /\ k = 52).
Proof.
  intros Hx Hy He. unfold F64.mul, SFmul, F64.prec, F64.emax.
  unfold normal53 in Hx, Hy.
  assert (Hprod : 2 ^ 104 <= Zpos (mx * my) < 2 ^ 106).
  { rewrite Pos2Z.inj_mul. change (2 ^ 104) with (2 ^ 52 * 2 ^ 52).
    change (2 ^ 106) with (2 ^ 53 * 2 ^ 53). nia. }
  assert (Hd : 105 <= Zpos (digits2_pos (mx * my)) <= 106).
  { pose proof (digits_bounds (mx * my)) as Hb.
    split.
    - destruct (Z.le_gt_cases 105 (Zpos (digits2_pos (mx * my)))) as [|G]; auto. exfalso.
      assert (2 ^ Zpos (digits2_pos (mx * my)) <= 2 ^ 104) by (apply Z.pow_le_mono_r; lia).
      lia.
    - destruct (Z.le_gt_cases (Zpos (digits2_pos (mx * my))) 106) as [|G]; auto. exfalso.
      assert (2 ^ 106 <= 2 ^ (Zpos (digits2_pos (mx * my)) - 1)) by (apply Z.pow_le_mono_r; lia).
      lia. }
  destruct (round_aux_rel (xorb sx sy) (mx * my) (ex + ey) loc_Exact)
    as (m & k & E & Hk & Hm & Hlo & Hhi & Hex); try lia.
  exists m, k. rewrite Pos2Z.inj_mul in *.
  refine (conj E (conj Hk (conj Hm (conj _ (conj Hhi _))))); [nia|].
  intros E52.
  assert (Ed : Zpos (digits2_pos (mx * my)) = 105).
  { apply digits_unique. rewrite Pos2Z.inj_mul, E52.
    change (2 ^ (105 - 1)) with (2 ^ 52 * 2 ^ 52).
    change (2 ^ 105) with (2 ^ 52 * 2 ^ 53). nia. }
  rewrite Ed in Hex. change (105 - 53) with 52 in Hex.
  assert (Hmod : (Zpos mx * Zpos my) mod 2 ^ 52 = 0).
  { rewrite E52, Z.mul_comm. apply Z.mod_mul. lia. }
  specialize (Hex eq_refl Hmod). rewrite E52 in Hex.
  unfold normal53 in Hm.
  assert (Ek : k = 52).
  { destruct (Z.lt_trichotomy k 52) as [L|[?|G]]; auto; exfalso.
    - assert (2 ^ (k + 1) <= 2 ^ 52) by (apply Z.pow_le_mono_r; lia).
      rewrite Z.pow_add_r in H by lia. change (2 ^ 1) with 2 in H.
      assert (0 < 2 ^ k) by (apply Z.pow_pos_nonneg; lia). nia.
    - assert (2 ^ 53 <= 2 ^ k) by (apply Z.pow_le_mono_r; lia). nia. }
  split; [|exact Ek]. subst k. apply Pos2Z.inj. nia.
Qed.

Lemma div_normal sx sy mx my ex ey :
  normal53 mx -> normal53 my -> -900 <= ex - ey <= 900 ->
  exists m k,
    F64.div (S754_finite sx mx ex) (S754_finite sy my ey)
      = S754_finite (xorb sx sy) m (ex - ey - 53 + k) /\
    0 <= k /\ normal53 m /\
    (2 ^ 52 - 1) * (Zpos mx * 2 ^ 53) <= 2 ^ 52 * (Zpos m * 2 ^ k) * Zpos my /\
    2 ^ 52 * (Zpos m * 2 ^ k) * Zpos my <= (2 ^ 52 + 1) * (Zpos mx * 2 ^ 53).
Proof.
  intros Hx Hy He. unfold F64.div, SFdiv, SFdiv_core_binary, F64.prec, F64.emax.
  cbn [Zdigits2]. rewrite (normal53_digits mx Hx), (normal53_digits my Hy).
  replace (53 + ex - (53 + ey)) with (ex - ey) by lia.
  rewrite fexp_normal by lia.
  rewrite Z.min_l by lia.
  replace (ex - ey - (ex - ey - 53)) with 53 by lia.
  rewrite Z.shiftl_mul_pow2 by lia.
  unfold normal53 in Hx, Hy.
  pose proof (Z.div_mod (Zpos mx * 2 ^ 53) (Zpos my) ltac:(lia)) as Hdm.
  pose proof (Z.mod_pos_bound (Zpos mx * 2 ^ 53) (Zpos my) ltac:(lia)) as Hmb.
  unfold Z.div, Z.modulo in Hdm, Hmb.
  destruct (Z.div_eucl (Zpos mx * 2 ^ 53) (Zpos my)) as [Q0 r].
  assert (HQ : 2 ^ 52 <= Q0 < 2 ^ 54).
  { change (2 ^ 54) with (2 * 2 ^ 53). change (2 ^ 53) with (2 * 2 ^ 52) in *. nia. }
  destruct Q0 as [|Q0|Q0]; try lia.
  assert (Hd : 53 <= Zpos (digits2_pos Q0) <= 54).
  { pose proof (digits_bounds Q0) as Hb. split.
    - destruct (Z.le_gt_cases 53 (Zpos (digits2_pos Q0))) as [|G]; auto. exfalso.
      assert (2 ^ Zpos (digits2_pos Q0) <= 2 ^ 52) by (apply Z.pow_le_mono_r; lia).
      lia.
    - destruct (Z.le_gt_cases (Zpos (digits2_pos Q0)) 54) as [|G]; auto. exfalso.
      assert (2 ^ 54 <= 2 ^ (Zpos (digits2_pos Q0) - 1)) by (apply Z.pow_le_mono_r; lia).
      lia. }
  destruct (round_aux_rel (xorb sx sy) Q0 (ex - ey - 53) (new_location (Zpos my) r))
    as (m & k & E & Hk & Hm & Hlo & Hhi & _); try lia.
  exists m, k.
  refine (conj E (conj Hk (conj Hm (conj _ _)))); nia.
Qed.

Lemma trunc_pos m e :
  F64.trunc (S754_finite false m e) = Some (Zpos m * 2 ^ (e + 1100) / 2 ^ 1100) \/ e < -1100.
Proof.
  destruct (Z.lt_ge_cases e (-1100)) as [L|G]; [now right|left].
  unfold F64.trunc. f_equal.
  destruct e as [|p|p].
  - rewrite Z.shiftl_0_r. cbn [Z.add]. rewrite Z.div_mul; [reflexivity|lia].
  - rewrite Z.shiftl_mul_pow2 by lia. rewrite Z.pow_add_r by lia.
    rewrite Z.mul_assoc, Z.div_mul; [reflexivity|lia].
  - rewrite Z.shiftr_div_pow2 by lia.
    assert (E : 2 ^ 1100 = 2 ^ Zpos p * 2 ^ (Zneg p + 1100)).
    { rewrite <- Z.pow_add_r by lia. f_equal. lia. }
    rewrite E.
    rewrite Z.div_mul_cancel_r; try reflexivity.
    + apply Z.pow_nonzero; lia.
    + apply Z.pow_nonzero; lia.
Qed.

Lemma of_Z_small z : 0 < z < 2 ^ 53 ->
  exists m c, F64.of_Z z = S754_finite false m (- c) /\ normal53 m /\
              0 <= c <= 52 /\ Zpos m = z * 2 ^ c.
Proof.
  intros Hz. destruct z as [|p|p]; try lia.
  destruct (of_Z_pos p) as (m & e & E & Hm & He & Hex).
  { assert (2 ^ 53 <= 2 ^ 1023) by (apply Z.pow_le_mono_r; lia). lia. }
  destruct (Hex ltac:(lia)) as [He0 Hv].
  exists m, (- e). rewrite Z.opp_involutive.
  split; [exact E|]. split; [exact Hm|]. split; [lia|exact Hv].
Qed.

(** The value of [x * (new / old)] in binary64, against the exact quotient. *)
Lemma scale_value new old x :
  0 < new < 2 ^ 53 -> 0 < old < 2 ^ 53 -> 0 < x < 2 ^ 53 ->
  exists mp ep,
    F64.mul (F64.of_Z x) (F64.div (F64.of_Z new) (F64.of_Z old))
      = S754_finite false mp ep /\
    -1100 <= ep /\
    (2 ^ 52 - 1) * (2 ^ 52 - 1) * (x * new) * Sc
      <= 2 ^ 52 * 2 ^ 52 * (Zpos mp * 2 ^ (ep + 1100)) * old /\
    2 ^ 52 * 2 ^ 52 * (Zpos mp * 2 ^ (ep + 1100)) * old
      <= (2 ^ 52 + 1) * (2 ^ 52 + 1) * (x * new) * Sc.
Proof.
  intros Hn Ho Hx.
  destruct (of_Z_small new Hn) as (mr & a & Er & Hmr & Ha & Vr).
  destruct (of_Z_small old Ho) as (mi & b & Ei & Hmi & Hb & Vi).
  destruct (of_Z_small x Hx) as (mx & c & Ex & Hmx & Hc & Vx).
  rewrite Er, Ei, Ex.
  destruct (div_normal false false mr mi (- a) (- b) Hmr Hmi ltac:(lia))
    as (mq & kq & Eq & Hkq & Hmq & Dlo & Dhi).
  rewrite Eq. cbn [xorb].
  destruct (mul_normal false false mx mq (- c) (- a - - b - 53 + kq) Hmx Hmq)
    as (mp & kp & Ep & Hkp & Hmp & Mlo & Mhi & _).
  { unfold normal53 in *.
    assert (kq <= 2).
    { destruct (Z.le_gt_cases kq 2) as [|G]; auto. exfalso.
      assert (2 ^ 3 <= 2 ^ kq) by (apply Z.pow_le_mono_r; lia).
      change (2 ^ 3) with 8 in *. change (2 ^ 53) with (2 * 2 ^ 52) in *. nia. }
    lia. }
  rewrite Ep. cbn [xorb]. exists mp, (- c + (- a - - b - 53 + kq) + kp).
  split; [reflexivity|]. split; [lia|].
  set (W := Zpos mp * 2 ^ kp) in *.
  set (KQ := 2 ^ kq) in *.
  set (T := 2 ^ (1100 - c - a + b - 53)).
  assert (HT : 0 < T) by (apply Z.pow_pos_nonneg; lia).
  assert (HKQ : 0 < KQ) by (apply Z.pow_pos_nonneg; lia).
  assert (HA : 0 < 2 ^ a) by (apply Z.pow_pos_nonneg; lia).
  assert (HB : 0 < 2 ^ b) by (apply Z.pow_pos_nonneg; lia).
  assert (HC : 0 < 2 ^ c) by (apply Z.pow_pos_nonneg; lia).
  assert (HV : Zpos mp * 2 ^ (- c + (- a - - b - 53 + kq) + kp + 1100) = W * KQ * T).
  { unfold W, KQ, T. rewrite <- !Z.mul_assoc, <- !Z.pow_add_r by lia. f_equal. f_equal. lia. }
  assert (HS : T * (2 ^ c * 2 ^ a * 2 ^ 53) = Sc * 2 ^ b).
  { unfold T, Sc. rewrite <- !Z.pow_add_r by lia. f_equal. lia. }
  rewrite HV. rewrite Vr in *. rewrite Vi in *. rewrite Vx in *.
  set (A := 2 ^ a) in *. set (B := 2 ^ b) in *. set (C := 2 ^ c) in *.
  set (N := 2 ^ 52) in *. set (U := 2 ^ 53) in *.
  assert (HN : 0 < N) by (unfold N; lia).
  assert (HW : 0 <= W) by (unfold W; apply Z.mul_nonneg_nonneg; [lia|apply Z.pow_nonneg; lia]).
  split.
  - apply (Z.mul_le_mono_pos_r _ _ B HB).
    assert (S1 : (N - 1) * (x * C * Zpos mq) * (N * KQ * T * (old * B))
                 <= N * W * (N * KQ * T * (old * B))).
    { apply Z.mul_le_mono_nonneg_r; [|exact Mlo]. nia. }
    assert (S2 : (N - 1) * (new * A * U) * ((N - 1) * (x * C) * T)
                 <= N * (Zpos mq * KQ) * (old * B) * ((N - 1) * (x * C) * T)).
    { apply Z.mul_le_mono_nonneg_r; [|exact Dlo]. nia. }
    replace ((N - 1) * (N - 1) * (x * new) * Sc * B)
      with ((N - 1) * (N - 1) * (x * new) * (T * (C * A * U))) by (rewrite HS; ring).
    lia.
  - apply (Z.mul_le_mono_pos_r _ _ B HB).
    assert (S1 : N * W * (N * KQ * T * (old * B))
                 <= (N + 1) * (x * C * Zpos mq) * (N * KQ * T * (old * B))).
    { apply Z.mul_le_mono_nonneg_r; [|exact Mhi]. nia. }
    assert (S2 : N * (Zpos mq * KQ) * (old * B) * ((N + 1) * (x * C) * T)
                 <= (N + 1) * (new * A * U) * ((N + 1) * (x * C) * T)).
    { apply Z.mul_le_mono_nonneg_r; [|exact Dhi]. nia. }
    replace ((N + 1) * (N + 1) * (x * new) * Sc * B)
      with ((N + 1) * (N + 1) * (x * new) * (T * (C * A * U))) by (rewrite HS; ring).
    lia.
Qed.

Lemma scale_trunc new old x :
  0 < new < 2 ^ 53 -> 0 < old < 2 ^ 53 -> 0 < x < 2 ^ 53 ->
  exists V,
    F64.trunc (F64.mul (F64.of_Z x) (F64.div (F64.of_Z new) (F64.of_Z old)))
      = Some (V / Sc) /\
    (2 ^ 52 - 1) * (2 ^ 52 - 1) * (x * new) * Sc <= 2 ^ 52 * 2 ^ 52 * V * old /\
    2 ^ 52 * 2 ^ 52 * V * old <= (2 ^ 52 + 1) * (2 ^ 52 + 1) * (x * new) * Sc.
Proof.
  intros Hn Ho Hx.
  destruct (scale_value new old x Hn Ho Hx) as (mp & ep & E & Hep & Hlo & Hhi).
  exists (Zpos mp * 2 ^ (ep + 1100)). rewrite E.
  destruct (trunc_pos mp ep) as [T|T]; [|lia].
  split; [exact T|]. split; assumption.
Qed.

Lemma Sc_pos : 0 < Sc.
Proof. unfold Sc. apply Z.pow_pos_nonneg; lia. Qed.

Lemma scale_coord_zero r :
  (exists s m e, r = S754_finite s m e) -> scale_coord r 0 = 0.
Proof. intros (s & m & e & ->). reflexivity. Qed.

Lemma truediv_finite new old :
  0 < new < 2 ^ 53 -> 0 < old < 2 ^ 53 ->
  exists s m e, F64.div (F64.of_Z new) (F64.of_Z old) = S754_finite s m e.
Proof.
  intros Hn Ho.
  destruct (of_Z_small new Hn) as (mr & a & Er & Hmr & Ha & Vr).
  destruct (of_Z_small old Ho) as (mi & b & Ei & Hmi & Hb & Vi).
  rewrite Er, Ei.
  destruct (div_normal false false mr mi (- a) (- b) Hmr Hmi ltac:(lia))
    as (mq & kq & Eq & _).
  rewrite Eq. eauto.
Qed.

(** The scaled coordinate stays inside the new extent and the scaling is
    monotone. *)
Lemma scale_coord_bounds new old x1 x2 :
  0 < new < 2 ^ 53 -> 0 < old <= 2 ^ 50 ->
  0 <= x1 <= x2 -> x2 < old ->
  let r := F64.div (F64.of_Z new) (F64.of_Z old) in
  0 <= scale_coord r x1 /\ scale_coord r x1 <= scale_coord r x2 /\
  scale_coord r x2 < new.
Proof.
  intros Hn Ho Hx Hx2 r.
  assert (Ho' : 0 < old < 2 ^ 53) by lia.
  pose proof Sc_pos as HS.
  assert (Hpos : forall x, 0 < x < old ->
            exists V, scale_coord r x = V / Sc /\ 0 <= V / Sc < new /\
              (2 ^ 52 - 1) * (2 ^ 52 - 1) * (x * new) * Sc <= 2 ^ 52 * 2 ^ 52 * V * old /\
              2 ^ 52 * 2 ^ 52 * V * old <= (2 ^ 52 + 1) * (2 ^ 52 + 1) * (x * new) * Sc).
  { intros x Hxr.
    destruct (scale_trunc new old x Hn Ho' ltac:(lia)) as (V & T & Hlo & Hhi).
    exists V.
    assert (HV0 : 0 <= V) by nia.
    assert (HVn : V < new * Sc).
    { assert (H1 : (2 ^ 52 + 1) * (2 ^ 52 + 1) * x < 2 ^ 52 * 2 ^ 52 * old) by lia.
      assert (H2 : (2 ^ 52 + 1) * (2 ^ 52 + 1) * x * (new * Sc)
                   < 2 ^ 52 * 2 ^ 52 * old * (new * Sc)).
      { apply Z.mul_lt_mono_pos_r; [nia|exact H1]. }
      assert (H3 : 2 ^ 52 * 2 ^ 52 * old * V < 2 ^ 52 * 2 ^ 52 * old * (new * Sc)) by lia.
      apply Z.mul_lt_mono_pos_l in H3; [exact H3|lia]. }
    assert (Hq : 0 <= V / Sc < new).
    { split; [apply Z.div_pos; lia|apply Z.div_lt_upper_bound; lia]. }
    split; [|split; [exact Hq|split; assumption]].
    unfold scale_coord, F64.to_int64, r. rewrite T.
    assert (Hr1 : (Int64.min_int <=? V / Sc) = true)
      by (apply Z.leb_le; unfold Int64.min_int; lia).
    assert (Hr2 : (V / Sc <=? Int64.max_int) = true)
      by (apply Z.leb_le; unfold Int64.max_int; lia).
    rewrite Hr1, Hr2. reflexivity. }
  assert (Hz : scale_coord r 0 = 0)
    by (apply scale_coord_zero; apply truediv_finite; assumption).
  destruct (Z.eq_dec x2 0) as [E2|N2].
  - assert (x1 = 0) by lia. subst. rewrite Hz. lia.
  - destruct (Hpos x2 ltac:(lia)) as (V2 & E2 & HV2 & Hlo2 & Hhi2).
    destruct (Z.eq_dec x1 0) as [E1|N1].
    + subst x1. rewrite Hz, E2. lia.
    + destruct (Z.eq_dec x1 x2) as [->|NE]; [rewrite E2; lia|].
      destruct (Hpos x1 ltac:(lia)) as (V1 & E1 & HV1 & Hlo1 & Hhi1).
      rewrite E1, E2. split; [lia|]. split; [|lia].
      apply Z.div_le_mono; [lia|].
      assert (Hlt : x1 + 1 <= x2) by lia.
      assert (H1 : (2 ^ 52 + 1) * (2 ^ 52 + 1) * x1
                   <= (2 ^ 52 - 1) * (2 ^ 52 - 1) * x2) by lia.
      assert (H2 : (2 ^ 52 + 1) * (2 ^ 52 + 1) * x1 * (new * Sc)
                   <= (2 ^ 52 - 1) * (2 ^ 52 - 1) * x2 * (new * Sc)).
      { apply Z.mul_le_mono_nonneg_r; [nia|exact H1]. }
      assert (H3 : 2 ^ 52 * 2 ^ 52 * old * V1 <= 2 ^ 52 * 2 ^ 52 * old * V2) by lia.
      apply Z.mul_le_mono_pos_l in H3; [exact H3|lia].
Qed.






(* ================================================================== *)
(** ** The horizontal flip *)

Lemma flip_box_involutive w b :
  Int64.in_range (xmin b) -> Int64.in_range (xmax b) ->
  flip_box w (flip_box w b) = b.
Proof.
  intros Hmin Hmax. destruct b as [c x0 x1 y0 y1]. cbn in *.
  unfold flip_box, Int64.sub; cbn.
  rewrite !wrap64_sub_wrap_r.
  replace (w - (w - x0)) with x0 by lia.
  replace (w - (w - x1)) with x1 by lia.
  now rewrite !wrap64_id.
Qed.

Lemma array_shape_channels h w c x :
  array_shape h w c x -> (1 <= h)%nat -> (1 <= w)%nat -> img_channels x = Z.of_nat c.
Proof.
  intros [Hh F] H1 H2. destruct x as [|row x]; [cbn in Hh; lia|].
  apply Forall_cons_iff in F. destruct F as [[Hw Fr] _].
  destruct row as [|px row]; [cbn in Hw; lia|].
  apply Forall_cons_iff in Fr. destruct Fr as [Hc _]. cbn. now rewrite Hc.
Qed.

Lemma array_shape_mirror h w c x :
  array_shape h w c x -> array_shape h w c (map (@rev Pixel) x).
Proof.
  intros [Hh F]. split; [now rewrite length_map|].
  apply Forall_map. eapply Forall_impl; [|exact F].
  cbn. intros row [Hw Fr]. split; [now rewrite length_rev|now apply Forall_rev].
Qed.

Lemma array_shape_reverse h w c x :
  array_shape h w c x -> array_shape h w c (rev x).
Proof.
  intros [Hh F]. split; [now rewrite length_rev|now apply Forall_rev].
Qed.

Lemma mirror_involutive {A : Type} (x : list (list A)) :
  map (@rev A) (map (@rev A) x) = x.
Proof.
  rewrite map_map. rewrite <- (map_id x) at 2.
  apply map_ext. intros row. apply rev_involutive.
Qed.

(** Two flips of an array of two or more channels give the array back,
    for either orientation. *)
Lemma flip_image_involutive h w c image orientation :
  array_shape h w c image -> (1 <= h)%nat -> (1 <= w)%nat -> (2 <= c)%nat ->
  Transforms.flip (Transforms.flip (Array3 image) orientation) orientation
  = Array3 image.
Proof.
  intros Hs H1 H2 Hc.
  assert (E : forall y, array_shape h w c y -> (img_channels y =? 1) = false).
  { intros y Hy. rewrite (array_shape_channels h w c y Hy H1 H2).
    apply Z.eqb_neq. lia. }
  unfold Transforms.flip. destruct (String.eqb orientation "horizontal");
    unfold Transforms.cv2_flip; cbn [Z.ltb Z.compare]; rewrite (E image Hs).
  - rewrite (E _ (array_shape_mirror _ _ _ _ Hs)). now rewrite mirror_involutive.
  - rewrite (E _ (array_shape_reverse _ _ _ _ Hs)). now rewrite rev_involutive.
Qed.

(** Two flips of a one-channel array [(h, w, 1)] give its values as an
    array [(h, w)]: the channel axis is lost at the first flip. *)
Lemma flip_one_channel h w image orientation :
  array_shape h w 1 image -> (1 <= h)%nat -> (1 <= w)%nat ->
  Transforms.flip (Transforms.flip (Array3 image) orientation) orientation
  = Array2 (map (map (fun px => hd 0%N px)) image).
Proof.
  intros Hs H1 H2.
  assert (E : (img_channels image =? 1) = true)
    by (rewrite (array_shape_channels h w 1 image Hs H1 H2); reflexivity).
  unfold Transforms.flip. destruct (String.eqb orientation "horizontal");
    unfold Transforms.cv2_flip; cbn [Z.ltb Z.compare]; rewrite E; f_equal.
  - rewrite !map_map. apply map_ext. intros row.
    rewrite map_rev. apply rev_involutive.
  - rewrite map_rev. apply rev_involutive.
Qed.

(** C7. Flipping twice gives back the boxes, and the image when it is a
    non-empty array of two to four channels: the mirror of the pixels is an
    involution there, and so is the remapping [xmin := img_width - xmax],
    [xmax := img_width - xmin] of the int64 label rows, which leaves the
    class and the y-coordinates alone.  A one-channel array [(h, w, 1)]
    comes back from the two flips as the array [(h, w)] of its values. *)
Theorem flip_twice_identity (image : Image) (boxes : Labels) (img_width : Z)
    (h w c : nat) :
  array_shape h w c image -> (1 <= h)%nat -> (1 <= w)%nat -> (1 <= c <= 4)%nat ->
  Forall box_in_int64 boxes ->
  Transforms.flip (Transforms.flip (Array3 image) "horizontal") "horizontal"
  = (if (c =? 1)%nat then Array2 (map (map (fun px => hd 0%N px)) image)
     else Array3 image) /\
  flip_boxes img_width (flip_boxes img_width boxes) = boxes /\
  Forall2 (fun b b' =>
             xmin b' = Int64.sub img_width (xmax b) /\
             xmax b' = Int64.sub img_width (xmin b) /\
             ymin b' = ymin b /\ ymax b' = ymax b /\ class_id b' = class_id b)
    boxes (flip_boxes img_width boxes).
Proof.
  intros Hs H1 H2 Hc Hr. split; [|split].
  - destruct (c =? 1)%nat eqn:E.
    + apply Nat.eqb_eq in E. subst c. now apply (flip_one_channel h w).
    + apply Nat.eqb_neq in E. apply (flip_image_involutive h w c); auto. lia.
  - unfold flip_boxes. rewrite map_map. rewrite <- (map_id boxes) at 2.
    apply map_ext_in. intros b Hb.
    rewrite Forall_forall in Hr. destruct (Hr b Hb) as (Hx1 & Hx2 & _).
    now apply flip_box_involutive.
  - clear Hr. induction boxes as [|b l IH]; cbn;
      [constructor|constructor; [repeat split|exact IH]].
Qed.

(** C7, counterexample to the claim as stated: two horizontal flips of the
    one-channel array [[[1], [2]]] of shape [(1, 2, 1)] give the array
    [[1, 2]] of shape [(1, 2)], not the array itself. *)
Lemma flip_twice_one_channel_counterexample :
  Transforms.flip (Transforms.flip (Array3 [[[1%N]; [2%N]]]) "horizontal") "horizontal"
  = Array2 [[1%N; 2%N]] /\
  ~ (forall image : Image,
        Transforms.flip (Transforms.flip (Array3 image) "horizontal") "horizontal"
        = Array3 image).
Proof.
  split; [reflexivity|].
  intros H. specialize (H [[[1%N]; [2%N]]]). discriminate H.
Qed.

Lemma flip_twice_identity_witness :
  let image : Image := [[[1%N; 2%N; 3%N]; [4%N; 5%N; 6%N]]] in
  array_shape 1 2 3 image /\
  Forall box_in_int64 [mkBox 1 10 20 5 15] /\
  Transforms.flip (Transforms.flip (Array3 image) "horizontal") "horizontal"
    = Array3 image /\
  flip_boxes 100 (flip_boxes 100 [mkBox 1 10 20 5 15]) = [mkBox 1 10 20 5 15].
Proof.
  intros image.
  assert (Hs : array_shape 1 2 3 image).
  { split; [reflexivity|]. repeat constructor. }
  assert (H : Forall box_in_int64 [mkBox 1 10 20 5 15]).
  { repeat constructor; cbn; unfold Int64.min_int, Int64.max_int; lia. }
  split; [exact Hs|]. split; [exact H|].
  pose proof (flip_twice_identity image [mkBox 1 10 20 5 15] 100 1 2 3 Hs
                ltac:(lia) ltac:(lia) ltac:(lia) H) as (A & B & _).
  split; [exact A|exact B].
Defined.

(* ================================================================== *)
(** ** Resize *)

Lemma py_truediv_nonzero a b :
  b <> 0 -> py_truediv a b = inr (F64.div (F64.of_Z a) (F64.of_Z b)).
Proof. intros H. unfold py_truediv. now apply Z.eqb_neq in H as ->. Qed.

(** The integer that [astype] produces from [v * (new / old)] is the
    integer part of a value within a relative distance [2^-51] of the
    exact quotient [v * new / old]. *)
Lemma scale_coord_value new old v :
  0 < new < 2 ^ 53 -> 0 < old <= 2 ^ 50 -> 0 < v < old ->
  let r := scale_coord (F64.div (F64.of_Z new) (F64.of_Z old)) v in
  2 ^ 104 * (r * old) <= (2 ^ 52 + 1) * (2 ^ 52 + 1) * (v * new) /\
  (2 ^ 52 - 1) * (2 ^ 52 - 1) * (v * new) < 2 ^ 104 * ((r + 1) * old).
Proof.
  intros Hn Ho Hv r.
  destruct (scale_trunc new old v Hn ltac:(lia) ltac:(lia)) as (V & T & Hlo & Hhi).
  pose proof Sc_pos as HS.
  pose proof (scale_coord_bounds new old v v Hn Ho ltac:(lia) ltac:(lia)) as (Hr0 & _ & Hr1).
  fold r in Hr0, Hr1.
  assert (Er : r = V / Sc).
  { unfold r, scale_coord, F64.to_int64 in *. rewrite T in *.
    destruct ((Int64.min_int <=? V / Sc) && (V / Sc <=? Int64.max_int)) eqn:E;
      [reflexivity|].
    unfold Int64.min_int in Hr0. lia. }
  assert (HV0 : 0 <= V) by nia.
  pose proof (Z.mul_div_le V Sc HS) as H1.
  pose proof (Z.mul_succ_div_gt V Sc HS) as H2.
  rewrite <- Er in H1, H2.
  change (2 ^ 104) with (2 ^ 52 * 2 ^ 52).
  split.
  - apply (Z.mul_le_mono_pos_r _ _ Sc HS). nia.
  - apply (Z.mul_lt_mono_pos_r Sc); [exact HS|]. nia.
Qed.

(** C10. The resize step multiplies every x-coordinate by the binary64
    quotient [new_width / img_width] and every y-coordinate by
    [new_height / img_height], and converts the product to an integer by
    truncation: the result is the integer part of a value that differs from
    the exact quotient by the rounding of the two floating-point
    operations only.  On the 100 x 50 image with the box
    [(xmin, xmax, ymin, ymax) = (10, 20, 5, 15)], resizing to [(200, 100)]
    gives [(20, 40, 10, 30)]. *)
Theorem resize_scales_and_truncates :
  (forall (Target : Type) (cv2_resize : Image -> Z * Z -> option Image)
          (cfg : Config Target) (it : Item) (new_w new_h : Z) (x : Image)
          (o : Oracle) (s : RngState),
      resize cfg = Some (new_w, new_h) ->
      cv2_resize (item_x it) (new_w, new_h) = Some x ->
      img_width it <> 0 -> img_height it <> 0 ->
      resize_step cv2_resize cfg it o s =
        ([], inr (mkItem x
                    (map (fun b =>
                            mkBox (class_id b)
                              (F64.to_int64 (F64.mul (F64.of_Z (xmin b))
                                 (F64.div (F64.of_Z new_w) (F64.of_Z (img_width it)))))
                              (F64.to_int64 (F64.mul (F64.of_Z (xmax b))
                                 (F64.div (F64.of_Z new_w) (F64.of_Z (img_width it)))))
                              (F64.to_int64 (F64.mul (F64.of_Z (ymin b))
                                 (F64.div (F64.of_Z new_h) (F64.of_Z (img_height it)))))
                              (F64.to_int64 (F64.mul (F64.of_Z (ymax b))
                                 (F64.div (F64.of_Z new_h) (F64.of_Z (img_height it))))))
                       (item_y it))
                    (img_height it) (img_width it), s))) /\
  (forall new old v : Z,
      0 < new < 2 ^ 53 -> 0 < old <= 2 ^ 50 -> 0 < v < old ->
      let r := F64.to_int64 (F64.mul (F64.of_Z v)
                               (F64.div (F64.of_Z new) (F64.of_Z old))) in
      0 <= r /\
      2 ^ 104 * (r * old) <= (2 ^ 52 + 1) * (2 ^ 52 + 1) * (v * new) /\
      (2 ^ 52 - 1) * (2 ^ 52 - 1) * (v * new) < 2 ^ 104 * ((r + 1) * old)) /\
  (forall (Target : Type) (cv2_resize : Image -> Z * Z -> option Image)
          (cfg : Config Target) (image x : Image) (c : Z)
          (o : Oracle) (s : RngState),
      resize cfg = Some (200, 100) ->
      cv2_resize image (200, 100) = Some x ->
      resize_step cv2_resize cfg (mkItem image [mkBox c 10 20 5 15] 50 100) o s =
        ([], inr (mkItem x [mkBox c 20 40 10 30] 50 100, s))).
Proof.
  split; [|split].
  - intros Target cv2_resize cfg it new_w new_h x o s Hcfg Hcv Hw Hh.
    unfold resize_step. rewrite Hcfg, Hcv.
    rewrite (py_truediv_nonzero new_w _ Hw), (py_truediv_nonzero new_h _ Hh).
    unfold ret. do 3 f_equal. f_equal.
    rewrite map_map. apply map_ext. intros b. reflexivity.
  - intros new old v Hn Ho Hv r.
    pose proof (scale_coord_bounds new old v v Hn Ho ltac:(lia) ltac:(lia)) as (H0 & _).
    pose proof (scale_coord_value new old v Hn Ho Hv) as (H1 & H2).
    repeat split; assumption.
  - intros Target cv2_resize cfg image x c o s Hcfg Hcv.
    unfold resize_step. rewrite Hcfg. cbn [item_x]. rewrite Hcv. reflexivity.
Qed.

Lemma resize_scales_and_truncates_witness :
  let cfg : Config unit :=
    mkConfig 1 false None false None None None None None (Some (200, 100))
      false true F64.zero in
  resize cfg = Some (200, 100) /\
  resize_step (fun x _ => Some x) cfg
    (mkItem [] [mkBox 0 10 20 5 15] 50 100)
    (mkOracle (fun _ => F64.zero) (fun _ => 0) (fun _ => [])) (mkRng 0 0 0)
  = ([], inr (mkItem [] [mkBox 0 20 40 10 30] 50 100, mkRng 0 0 0)).
Proof.
  intros cfg. split; [reflexivity|].
  exact (proj2 (proj2 resize_scales_and_truncates) unit (fun x _ => Some x) cfg
           [] [] 0 (mkOracle (fun _ => F64.zero) (fun _ => 0) (fun _ => []))
           (mkRng 0 0 0) eq_refl eq_refl).
Defined.

(* ================================================================== *)
(** ** Clip and filter *)







(* ================================================================== *)
(** ** Calls through the option names *)

Lemma no_call_nil : no_call [].
Proof. intros c H. inversion H. Qed.

Lemma no_call_app t1 t2 : no_call t1 -> no_call t2 -> no_call (t1 ++ t2).
Proof.
  intros H1 H2 c H. apply in_app_or in H. destruct H; [eapply H1|eapply H2]; eauto.
Qed.

Lemma call_aborts_ret {A : Type} (a : A) : call_aborts (ret a).
Proof. intros o s t r E. inversion E. left. apply no_call_nil. Qed.

Lemma call_aborts_raise {A : Type} (e : exn) : call_aborts (@raise A e).
Proof. intros o s t r E. inversion E. left. apply no_call_nil. Qed.

Lemma call_aborts_bind {A B : Type} (m : M A) (k : A -> M B) :
  call_aborts m -> (forall a, call_aborts (k a)) -> call_aborts (bind m k).
Proof.
  intros Hm Hk o s t r E. unfold bind in E.
  destruct (m o s) as [t1 [e|[a s1]]] eqn:Em.
  - inversion E; subst.
    destruct (Hm _ _ _ _ Em) as [N1|(u & c & v & -> & N1 & F)]; [now left|right].
    inversion F. exists u, c, v. repeat split; assumption.
  - destruct (k a o s1) as [t2 r2] eqn:Ek. inversion E; subst.
    destruct (Hm _ _ _ _ Em) as [N1|(u & c & v & _ & _ & F)]; [|discriminate].
    destruct (Hk a _ _ _ _ Ek) as [N2|(u & c & v & -> & N2 & ->)].
    + left. now apply no_call_app.
    + right. exists (t1 ++ u), c, v. rewrite app_assoc.
      split; [reflexivity|]. split; [now apply no_call_app|reflexivity].
Qed.

Lemma call_aborts_emit (e : Event) :
  (forall c, e <> EvCall c) -> call_aborts (emit e).
Proof.
  intros He o s t r E. inversion E. left.
  intros c [H|[]]. exact (He c H).
Qed.

Lemma call_aborts_uniform : call_aborts random_uniform.
Proof. intros o s t r E. inversion E. left. apply no_call_nil. Qed.

Lemma call_aborts_randint high : call_aborts (random_randint high).
Proof.
  intros o s t r E. unfold random_randint in E.
  destruct (high <=? 0); inversion E; left; apply no_call_nil.
Qed.

Lemma call_aborts_shuffle {A : Type} (l : list A) : call_aborts (random_shuffle l).
Proof.
  intros o s t r E. inversion E. left. intros c [H|[]]. discriminate.
Qed.

Lemma call_aborts_call {A : Type} name v : call_aborts (@call_option_value A name v).
Proof.
  intros o s t r E. inversion E. right.
  exists [], name, (type_name v). split; [reflexivity|].
  split; [apply no_call_nil|reflexivity].
Qed.

Create HintDb aborts.

#[local] Hint Resolve call_aborts_ret call_aborts_raise call_aborts_uniform
  call_aborts_randint call_aborts_shuffle call_aborts_call : aborts.

(** Closes a goal [call_aborts m] by following the structure of [m]. *)
Ltac aborts :=
  repeat first
    [ progress auto with aborts
    | apply call_aborts_bind; [|intros ?]
    | apply call_aborts_emit; intros ?; discriminate
    | match goal with
      | |- forall _, _ => intro
      | |- call_aborts (match ?x with _ => _ end) => destruct x
      | |- call_aborts (if ?b then _ else _) => destruct b
      | |- call_aborts (let '(_, _) := ?x in _) => destruct x
      end ].

Section CallAborts.

Context {Target : Type}.
Variable image_open : string -> option Image.
Variable histogram_eq : Image -> Image.
Variable cv2_resize : Image -> Z * Z -> option Image.
Variable cv2_gray : Image -> Image.
Variable cfg : Config Target.

Lemma call_aborts_crop_trial it crop_h crop_w y_range x_range :
  call_aborts (crop_trial cfg it crop_h crop_w y_range x_range).
Proof. unfold crop_trial. aborts. Qed.

Lemma call_aborts_crop_loop fuel i crop_h crop_w min_1 max_trials y_range x_range :
  forall st,
    call_aborts (crop_loop fuel cfg i crop_h crop_w min_1 max_trials y_range x_range st).
Proof.
  induction fuel as [|fuel IH]; intros st; cbn [crop_loop]; [aborts|].
  destruct (negb (min_1_object_fulfilled st) && (trial_counter st <? max_trials));
    [|aborts].
  apply call_aborts_bind; [apply call_aborts_crop_trial|].
  intros [patch_x patch_y].
  destruct (min_1 =? 0); [aborts|].
  destruct (0 <? length patch_y)%nat; [apply IH|].
  destruct ((max_trials <=? trial_counter st + 1)
            && negb (py_in i (batch_items_to_remove st))); apply IH.
Qed.

Lemma call_aborts_augment_item i x y to_remove :
  call_aborts
    (augment_item histogram_eq cv2_resize cv2_gray cfg i x y to_remove).
Proof.
  unfold augment_item.
  apply call_aborts_bind; [aborts|intros _].
  apply call_aborts_bind; [unfold equalize_step; aborts|intros it1].
  apply call_aborts_bind; [unfold brightness_step; aborts|intros it2].
  apply call_aborts_bind; [unfold flip_step; aborts|intros it3].
  apply call_aborts_bind; [unfold scale_step; aborts|intros it4].
  apply call_aborts_bind.
  { unfold random_crop_step. destruct (random_crop cfg) as [[[[? ?] ?] ?]|];
      [apply call_aborts_crop_loop|aborts]. }
  intros st.
  apply call_aborts_bind; [unfold crop_step; aborts|intros it5].
  apply call_aborts_bind; [unfold resize_step; aborts|intros it6].
  apply call_aborts_bind; [unfold gray_step; aborts|intros it7].
  aborts.
Qed.

Lemma call_aborts_augment_items xs :
  forall i ys to_remove,
    call_aborts
      (augment_items histogram_eq cv2_resize cv2_gray cfg i xs ys to_remove).
Proof.
  induction xs as [|x xs IH]; intros i ys to_remove; cbn [augment_items]; [aborts|].
  destruct ys as [|y ys]; [aborts|].
  apply call_aborts_bind; [apply call_aborts_augment_item|].
  intros [it rm]. apply call_aborts_bind; [apply IH|]. aborts.
Qed.

Lemma call_aborts_load_images fs : call_aborts (load_images image_open fs).
Proof.
  induction fs as [|f fs IH]; cbn [load_images]; [aborts|].
  apply call_aborts_bind; [aborts|intros _].
  destruct (image_open f); [|aborts].
  apply call_aborts_bind; [exact IH|]. aborts.
Qed.

Lemma call_aborts_select_window {A : Type} n (st : Cursor A) :
  call_aborts (select_window n st).
Proof. unfold select_window. aborts. Qed.

Lemma call_aborts_next_batch st :
  call_aborts
    (next_batch image_open histogram_eq cv2_resize cv2_gray cfg st).
Proof.
  unfold next_batch.
  apply call_aborts_bind; [apply call_aborts_select_window|intros [win st']].
  apply call_aborts_bind; [apply call_aborts_load_images|intros batch_x].
  apply call_aborts_bind; [apply call_aborts_augment_items|intros [[bx by_] rm]].
  aborts.
Qed.

Lemma call_aborts_yields n :
  forall st,
    call_aborts (yields image_open histogram_eq cv2_resize cv2_gray cfg n st).
Proof.
  induction n as [|n IH]; intros st; cbn [yields]; [aborts|].
  apply call_aborts_bind; [apply call_aborts_next_batch|intros [b st']].
  apply call_aborts_bind; [apply IH|]. aborts.
Qed.

Lemma call_aborts_generate data n :
  call_aborts (generate image_open histogram_eq cv2_resize cv2_gray cfg data n).
Proof.
  unfold generate, generate_start.
  apply call_aborts_bind; [aborts|intros st]. apply call_aborts_yields.
Qed.

End CallAborts.

Lemma call_is_last (t t1 t2 : list Event) (c : string) :
  (no_call t \/ exists u c', t = u ++ [EvCall c'] /\ no_call u) ->
  t = t1 ++ EvCall c :: t2 -> t2 = [].
Proof.
  intros H E. destruct H as [N|(u & c' & Eu & N)].
  - exfalso. apply (N c). rewrite E. apply in_or_app. right. now left.
  - destruct t2 as [|e t2] using rev_ind; [reflexivity|]. exfalso.
    clear IHt2. rewrite Eu in E.
    change (t1 ++ EvCall c :: t2 ++ [e]) with (t1 ++ (EvCall c :: t2) ++ [e]) in E.
    rewrite app_assoc in E. apply app_inj_tail in E. destruct E as [E _].
    apply (N c). rewrite E. apply in_or_app. right. now left.
Qed.

(* ================================================================== *)
(** ** The cursor: windows, passes and reshuffles *)

Lemma insert_at_perm {A : Type} (x : A) l : forall n, Permutation (insert_at n x l) (x :: l).
Proof.
  induction l as [|y l IH]; intros [|n]; cbn; try reflexivity.
  rewrite IH. apply perm_swap.
Qed.

Lemma shuffle_perm {A : Type} (l : list A) : forall seed, Permutation (shuffle seed l) l.
Proof.
  induction l as [|x l IH]; intros [|r seed]; cbn; try reflexivity.
  - constructor. apply IH.
  - rewrite insert_at_perm. constructor. apply IH.
Qed.

Lemma shuffle_length {A : Type} (l : list A) seed : length (shuffle seed l) = length l.
Proof. apply Permutation_length, shuffle_perm. Qed.

Lemma window_length {A : Type} (l : list A) c n :
  length (window l c n) = Nat.min n (length l - c).
Proof. unfold window. now rewrite length_firstn, length_skipn. Qed.


(** One iteration either continues the pass or, when the cursor has
    reached the end of the dataset, reshuffles and starts again at 0. *)
Lemma select_window_run {A : Type} (n : nat) (st : Cursor A) o s :
  select_window n st o s =
    if (length (dataset st) <=? current st)%nat
    then
      let d := shuffle (shuffle_seed o (n_shuffle s)) (dataset st) in
      ([EvShuffle],
       inr ((window d 0 n, mkCursor d (0 + n)),
            mkRng (n_uniform s) (n_randint s) (S (n_shuffle s))))
    else
      ([], inr ((window (dataset st) (current st) n,
                 mkCursor (dataset st) (current st + n)), s)).
Proof.
  unfold select_window, bind.
  destruct (length (dataset st) <=? current st)%nat; reflexivity.
Qed.















(* ================================================================== *)
(** ** Calls through the option names *)

Lemma bind_inr {A B : Type} (m : M A) (k : A -> M B) o s t b s' :
  bind m k o s = (t, inr (b, s')) ->
  exists t1 a s1 t2,
    m o s = (t1, inr (a, s1)) /\ k a o s1 = (t2, inr (b, s')) /\ t = t1 ++ t2.
Proof.
  unfold bind. destruct (m o s) as [t1 [e|[a s1]]]; [discriminate|].
  destruct (k a o s1) as [t2 r] eqn:E. intros H. inversion H; subst.
  eexists _, _, _, _. repeat split; eassumption.
Qed.

Lemma brightness_step_run {Target : Type} (cfg : Config Target) it o s :
  brightness_step cfg it o s =
    if brightness_taken cfg o (n_uniform s)
    then ([EvCall "brightness"], inl (TypeError "tuple"))
    else ([], inr (it, mkRng (brightness_draws cfg + n_uniform s) (n_randint s)
                         (n_shuffle s))).
Proof.
  unfold brightness_step, brightness_taken, brightness_draws.
  destruct (brightness cfg) as [[[lo hi] prob]|]; [|now destruct s].
  unfold bind, random_uniform. cbn [n_uniform n_randint n_shuffle].
  destruct (draw_passes _ prob); reflexivity.
Qed.

Lemma flip_step_run {Target : Type} (cfg : Config Target) it o s :
  flip_step cfg it o s =
    if flip_taken cfg o (n_uniform s)
    then ([EvCall "flip"], inl (TypeError "float"))
    else ([], inr (it, mkRng (flip_draws cfg + n_uniform s) (n_randint s)
                         (n_shuffle s))).
Proof.
  unfold flip_step, flip_taken, flip_draws.
  destruct (flip cfg) as [prob|]; [|now destruct s].
  destruct (float_truthy prob); [|now destruct s]. cbn [andb].
  unfold bind, random_uniform. cbn [n_uniform n_randint n_shuffle].
  destruct (draw_passes _ prob); reflexivity.
Qed.

Lemma scale_step_run {Target : Type} (cfg : Config Target) it o s :
  scale_step cfg it o s =
    if scale_taken cfg o (n_uniform s)
    then ([EvCall "scale"], inl (TypeError "tuple"))
    else ([], inr (it, mkRng (match scale cfg with Some _ => 1 | None => 0 end
                              + n_uniform s)%nat (n_randint s) (n_shuffle s))).
Proof.
  unfold scale_step, scale_taken.
  destruct (scale cfg) as [[[lo hi] prob]|]; [|now destruct s].
  unfold bind, random_uniform. cbn [n_uniform n_randint n_shuffle].
  destruct (draw_passes _ prob); reflexivity.
Qed.

(** A branch that is taken ends the transforms of the item at the call. *)
Lemma augment_item_taken {Target : Type} histogram_eq cv2_resize cv2_gray
    (cfg : Config Target) i x y to_remove o s c v :
  taken_branch cfg o (n_uniform s) = Some (c, v) ->
  augment_item histogram_eq cv2_resize cv2_gray cfg i x y to_remove o s
  = ([EvAugment i; EvCall c], inl (TypeError v)).
Proof.
  unfold taken_branch, augment_item.
  unfold bind at 1, emit at 1.
  set (it0 := mkItem x y (img_rows x) (img_cols x)).
  set (it1 := if equalize cfg then set_x it0 (histogram_eq (item_x it0)) else it0).
  assert (E1 : equalize_step histogram_eq cfg it0 = ret it1)
    by (unfold equalize_step, it1; destruct (equalize cfg); reflexivity).
  rewrite E1. unfold bind at 1, ret at 1.
  unfold bind at 1. rewrite brightness_step_run.
  destruct (brightness_taken cfg o (n_uniform s));
    [intros H; inversion H; reflexivity|].
  unfold bind at 1. rewrite flip_step_run. cbn [n_uniform n_randint n_shuffle].
  destruct (flip_taken cfg o (brightness_draws cfg + n_uniform s));
    [intros H; inversion H; reflexivity|].
  unfold bind at 1. rewrite scale_step_run. cbn [n_uniform n_randint n_shuffle].
  destruct (scale_taken cfg o (flip_draws cfg + (brightness_draws cfg + n_uniform s)));
    [intros H; inversion H; reflexivity|discriminate].
Qed.

(** The items before the one whose branch is taken have gone through
    their transforms; the loop over the batch ends at the call. *)
Lemma augment_items_taken {Target : Type} histogram_eq cv2_resize cv2_gray
    (cfg : Config Target) x y xs2 ys2 c v :
  forall xs1 ys1 i to_remove o s t1 xs1' ys1' to_remove1 s1,
    length xs1 = length ys1 ->
    augment_items histogram_eq cv2_resize cv2_gray cfg i xs1 ys1 to_remove o s
      = (t1, inr ((xs1', ys1', to_remove1), s1)) ->
    taken_branch cfg o (n_uniform s1) = Some (c, v) ->
    augment_items histogram_eq cv2_resize cv2_gray cfg i
      (xs1 ++ x :: xs2) (ys1 ++ y :: ys2) to_remove o s
    = (t1 ++ [EvAugment (i + length xs1); EvCall c], inl (TypeError v)).
Proof.
  induction xs1 as [|x1 xs1 IH]; intros ys1 i rm o s t1 xs1' ys1' rm1 s1 L E Ht.
  - destruct ys1; [|discriminate L]. cbn [augment_items] in E.
    unfold ret in E. inversion E; subst. clear E.
    cbn [app augment_items length]. unfold bind at 1.
    rewrite (augment_item_taken histogram_eq cv2_resize cv2_gray cfg i x y rm1 o s1
               c v Ht).
    now rewrite Nat.add_0_r.
  - destruct ys1 as [|y1 ys1]; [discriminate L|]. cbn [augment_items] in E.
    apply bind_inr in E. destruct E as (ta & [ita rma] & sa & tb & Ea & E & ->).
    apply bind_inr in E.
    destruct E as (tc & [[xsc ysc] rmc] & sc & td & Ec & E & ->).
    unfold ret in E. inversion E; subst. clear E.
    cbn [app augment_items]. unfold bind at 1. rewrite Ea.
    unfold bind at 1.
    rewrite (IH ys1 (S i) rma o sa tc xsc ysc rm1 s1 ltac:(cbn in L; lia) Ec Ht).
    rewrite app_nil_r, <- app_assoc. cbn [length].
    now rewrite Nat.add_succ_r.
Qed.

Lemma load_images_ok image_open : forall fs o s,
  Forall (fun g => image_open g <> None) fs ->
  exists xs, load_images image_open fs o s = (map EvLoad fs, inr (xs, s)) /\
             length xs = length fs.
Proof.
  induction fs as [|f fs IH]; intros o s Hf; cbn [load_images map].
  - exists []. split; reflexivity.
  - apply Forall_cons_iff in Hf. destruct Hf as [Hg Hf].
    destruct (IH o s Hf) as (xs & E & L).
    unfold bind at 1, emit. destruct (image_open f) as [x|]; [|congruence].
    unfold bind. rewrite E. exists (x :: xs). cbn [length]. split; [|now rewrite L].
    unfold ret. cbn [app]. rewrite app_nil_r. reflexivity.
Qed.

Lemma window_incl {A : Type} (l : list A) c n x : In x (window l c n) -> In x l.
Proof.
  unfold window. intros H.
  rewrite <- (firstn_skipn c l). apply in_or_app. right.
  rewrite <- (firstn_skipn n (skipn c l)). apply in_or_app. now left.
Qed.

(** The first iteration of [generate] on a dataset that is not empty, when
    a branch is taken for its first item. *)
Lemma generate_first_item_taken {Target : Type}
    (image_open : string -> option Image) (histogram_eq : Image -> Image)
    (cv2_resize : Image -> Z * Z -> option Image) (cv2_gray : Image -> Image)
    (cfg : Config Target) (data : list Sample) (n : nat) o s c v :
  data <> [] -> (0 < batch_size cfg)%nat ->
  (forall f, In f (map fst data) -> image_open f <> None) ->
  taken_branch cfg o (n_uniform s) = Some (c, v) ->
  generate image_open histogram_eq cv2_resize cv2_gray cfg data (S n) o s
  = (EvShuffle
       :: map EvLoad
            (map fst (window (shuffle (shuffle_seed o (n_shuffle s)) data) 0
                        (batch_size cfg)))
       ++ [EvAugment 0; EvCall c],
     inl (TypeError v)).
Proof.
  intros Hd Hb Hf Ht.
  unfold generate, generate_start, random_shuffle.
  unfold bind at 1. unfold bind at 1. unfold ret at 1. cbn [app].
  set (d := shuffle (shuffle_seed o (n_shuffle s)) data).
  set (s1 := mkRng (n_uniform s) (n_randint s) (S (n_shuffle s))).
  assert (Ld : length d = length data) by apply shuffle_length.
  assert (Hd' : (0 < length d)%nat)
    by (rewrite Ld; destruct data; [congruence|cbn; lia]).
  cbn [yields]. unfold bind at 1. unfold next_batch. unfold bind at 1.
  rewrite select_window_run. cbn [dataset current].
  assert (G : (length d <=? 0)%nat = false) by (apply Nat.leb_gt; exact Hd').
  rewrite G.
  set (win := window d 0 (batch_size cfg)).
  assert (Hopen : Forall (fun g => image_open g <> None) (map fst win)).
  { apply Forall_forall. intros f Hin. apply Hf.
    apply in_map_iff in Hin. destruct Hin as (x & <- & Hx). apply in_map.
    apply window_incl in Hx. eapply Permutation_in; [apply shuffle_perm|exact Hx]. }
  destruct (load_images_ok image_open (map fst win) o s1 Hopen) as (xs & E2 & L2).
  unfold bind at 1. rewrite E2.
  assert (Lw : (0 < length win)%nat).
  { unfold win. rewrite window_length. lia. }
  rewrite length_map in L2.
  destruct win as [|[f0 y0] win'] eqn:Ew; [cbn in Lw; lia|].
  destruct xs as [|x0 xs']; [discriminate L2|].
  cbn [map snd fst]. unfold bind at 1.
  pose proof (augment_items_taken histogram_eq cv2_resize cv2_gray cfg x0 y0 xs'
                (map snd win') c v [] [] 0%nat [] o s1 [] [] [] [] s1
                eq_refl eq_refl Ht) as E3.
  cbn [app length Nat.add] in E3. rewrite E3.
  cbn [app]. reflexivity.
Qed.

(** C2. Inside [generate] the names [brightness], [flip] and [scale] denote
    the option values.  Whenever one of the three branches is taken (the
    option is enabled and the draw [p] satisfies [p >= 1 - prob]), the call
    through the name raises a [TypeError]; when the draw fails, the step
    leaves the item as it is.  This ends the transforms of the item, the
    loop over the batch and the run of [generate]: with the equalization
    off, an item whose branch is taken raises the [TypeError] at its first
    taken branch, whatever position it has in the batch, and [generate] on a
    dataset that is not empty raises it in its first iteration when this is
    the first item, after the images of the window have been loaded and
    before anything is yielded.  An item that goes through its transforms
    had no branch taken.  In every run of [generate], a call through an
    option name is the last event, the run ends there with the [TypeError],
    and a run that yields its batches has made no such call. *)
Theorem option_call_raises_type_error :
  (forall (Target : Type) (cfg : Config Target) (it : Item) (o : Oracle)
          (s : RngState) (lo hi prob : F64.float),
      brightness cfg = Some (lo, hi, prob) ->
      brightness_step cfg it o s =
        if draw_passes (uniform01 o (n_uniform s)) prob
        then ([EvCall "brightness"], inl (TypeError "tuple"))
        else ([], inr (it, mkRng (S (n_uniform s)) (n_randint s) (n_shuffle s)))) /\
  (forall (Target : Type) (cfg : Config Target) (it : Item) (o : Oracle)
          (s : RngState) (prob : F64.float),
      flip cfg = Some prob -> float_truthy prob = true ->
      flip_step cfg it o s =
        if draw_passes (uniform01 o (n_uniform s)) prob
        then ([EvCall "flip"], inl (TypeError "float"))
        else ([], inr (it, mkRng (S (n_uniform s)) (n_randint s) (n_shuffle s)))) /\
  (forall (Target : Type) (cfg : Config Target) (it : Item) (o : Oracle)
          (s : RngState) (lo hi prob : F64.float),
      scale cfg = Some (lo, hi, prob) ->
      scale_step cfg it o s =
        if draw_passes (uniform01 o (n_uniform s)) prob
        then ([EvCall "scale"], inl (TypeError "tuple"))
        else ([], inr (it, mkRng (S (n_uniform s)) (n_randint s) (n_shuffle s)))) /\
  (forall (Target : Type) (histogram_eq : Image -> Image)
          (cv2_resize : Image -> Z * Z -> option Image) (cv2_gray : Image -> Image)
          (cfg : Config Target) (i : nat) (x : Image) (y : Labels)
          (to_remove : list nat) (o : Oracle) (s : RngState) (c v : string),
      equalize cfg = false ->
      taken_branch cfg o (n_uniform s) = Some (c, v) ->
      augment_item histogram_eq cv2_resize cv2_gray cfg i x y to_remove o s
      = ([EvAugment i; EvCall c], inl (TypeError v))) /\
  (forall (Target : Type) (histogram_eq : Image -> Image)
          (cv2_resize : Image -> Z * Z -> option Image) (cv2_gray : Image -> Image)
          (cfg : Config Target) (i : nat) (x : Image) (y : Labels)
          (to_remove : list nat) (o : Oracle) (s : RngState)
          (t : list Event) (r : Item * list nat * RngState),
      augment_item histogram_eq cv2_resize cv2_gray cfg i x y to_remove o s
        = (t, inr r) ->
      taken_branch cfg o (n_uniform s) = None) /\
  (forall (Target : Type) (histogram_eq : Image -> Image)
          (cv2_resize : Image -> Z * Z -> option Image) (cv2_gray : Image -> Image)
          (cfg : Config Target) (i : nat) (xs1 : list Image) (ys1 : list Labels)
          (x : Image) (y : Labels) (xs2 : list Image) (ys2 : list Labels)
          (to_remove : list nat) (o : Oracle) (s : RngState)
          (t1 : list Event) (xs1' : list Image) (ys1' : list Labels)
          (to_remove1 : list nat) (s1 : RngState) (c v : string),
      equalize cfg = false ->
      length xs1 = length ys1 ->
      augment_items histogram_eq cv2_resize cv2_gray cfg i xs1 ys1 to_remove o s
        = (t1, inr ((xs1', ys1', to_remove1), s1)) ->
      taken_branch cfg o (n_uniform s1) = Some (c, v) ->
      augment_items histogram_eq cv2_resize cv2_gray cfg i
        (xs1 ++ x :: xs2) (ys1 ++ y :: ys2) to_remove o s
      = (t1 ++ [EvAugment (i + length xs1); EvCall c], inl (TypeError v))) /\
  (forall (Target : Type) (image_open : string -> option Image)
          (histogram_eq : Image -> Image)
          (cv2_resize : Image -> Z * Z -> option Image) (cv2_gray : Image -> Image)
          (cfg : Config Target) (data : list Sample) (n : nat)
          (o : Oracle) (s : RngState) (c v : string),
      equalize cfg = false ->
      data <> [] -> (0 < batch_size cfg)%nat ->
      (forall f, In f (map fst data) -> image_open f <> None) ->
      taken_branch cfg o (n_uniform s) = Some (c, v) ->
      generate image_open histogram_eq cv2_resize cv2_gray cfg data (S n) o s
      = (EvShuffle
           :: map EvLoad
                (map fst (window (shuffle (shuffle_seed o (n_shuffle s)) data) 0
                            (batch_size cfg)))
           ++ [EvAugment 0; EvCall c],
         inl (TypeError v))) /\
  (forall (Target : Type) (image_open : string -> option Image)
          (histogram_eq : Image -> Image)
          (cv2_resize : Image -> Z * Z -> option Image) (cv2_gray : Image -> Image)
          (cfg : Config Target) (data : list Sample) (n : nat)
          (o : Oracle) (s : RngState)
          (t : list Event) (r : Result (list (Batch Target) * RngState)),
      generate image_open histogram_eq cv2_resize cv2_gray cfg data n o s = (t, r) ->
      (forall t1 t2 c,
          t = t1 ++ EvCall c :: t2 ->
          t2 = [] /\ ~ In EvYield t2 /\ exists v, r = inl (TypeError v)) /\
      (forall bs s', r = inr (bs, s') -> no_call t)).
Proof.
  split; [|split; [|split; [|split; [|split; [|split; [|split]]]]]].
  - intros Target cfg it o s lo hi prob H. unfold brightness_step. rewrite H.
    unfold bind, random_uniform. cbn [n_uniform n_randint n_shuffle].
    destruct (draw_passes _ prob); reflexivity.
  - intros Target cfg it o s prob H Ht. unfold flip_step. rewrite H, Ht.
    unfold bind, random_uniform. cbn [n_uniform n_randint n_shuffle].
    destruct (draw_passes _ prob); reflexivity.
  - intros Target cfg it o s lo hi prob H. unfold scale_step. rewrite H.
    unfold bind, random_uniform. cbn [n_uniform n_randint n_shuffle].
    destruct (draw_passes _ prob); reflexivity.
  - intros Target histogram_eq cv2_resize cv2_gray cfg i x y rm o s c v _ Ht.
    now apply augment_item_taken.
  - intros Target histogram_eq cv2_resize cv2_gray cfg i x y rm o s t r E.
    destruct (taken_branch cfg o (n_uniform s)) as [[c v]|] eqn:Ht; [|reflexivity].
    rewrite (augment_item_taken histogram_eq cv2_resize cv2_gray cfg i x y rm o s
               c v Ht) in E.
    discriminate E.
  - intros Target histogram_eq cv2_resize cv2_gray cfg i xs1 ys1 x y xs2 ys2 rm o s
      t1 xs1' ys1' rm1 s1 c v _ L E Ht.
    eapply augment_items_taken; eassumption.
  - intros Target image_open histogram_eq cv2_resize cv2_gray cfg data n o s c v
      _ Hd Hb Hf Ht.
    now apply generate_first_item_taken.
  - intros Target image_open histogram_eq cv2_resize cv2_gray cfg data n o s
      t r Hrun.
    pose proof (call_aborts_generate image_open histogram_eq cv2_resize cv2_gray
                  cfg data n o s t r Hrun) as H.
    split.
    + intros t1 t2 c Ht.
      assert (E2 : t2 = []).
      { eapply call_is_last; [|exact Ht].
        destruct H as [N|(u & c' & v & E & N & _)]; [now left|right; eauto]. }
      subst t2. split; [reflexivity|]. split; [intros []|].
      destruct H as [N|(u & c' & v & E & N & ->)]; [|eauto].
      exfalso. apply (N c). rewrite Ht. apply in_or_app. right. now left.
    + intros bs s' ->. destruct H as [N|(u & c' & v & E & N & F)];
        [exact N|discriminate F].
Qed.

Lemma option_call_raises_type_error_witness :
  equalize Example.flip_config = false /\
  Example.data <> [] /\
  taken_branch Example.flip_config Example.oracle0 (n_uniform Example.rng0)
    = Some ("flip"%string, "float"%string) /\
  generate Example.image_open Example.histogram_eq Example.cv2_resize
    Example.cv2_gray Example.flip_config Example.data 1
    Example.oracle0 Example.rng0
  = ([EvShuffle; EvLoad "a.png"; EvLoad "b.png"; EvAugment 0; EvCall "flip"],
     inl (TypeError "float")).
Proof.
  assert (H1 : equalize Example.flip_config = false) by reflexivity.
  assert (H2 : Example.data <> []) by discriminate.
  assert (H3 : taken_branch Example.flip_config Example.oracle0
                 (n_uniform Example.rng0) = Some ("flip"%string, "float"%string))
    by reflexivity.
  assert (H4 : forall f, In f (map fst Example.data) ->
                         Example.image_open f <> None)
    by (intros f [<-|[<-|[]]]; discriminate).
  split; [exact H1|]. split; [exact H2|]. split; [exact H3|].
  exact (proj1 (proj2 (proj2 (proj2 (proj2 (proj2 (proj2
           option_call_raises_type_error))))))
           unit Example.image_open Example.histogram_eq Example.cv2_resize
           Example.cv2_gray Example.flip_config Example.data 0%nat
           Example.oracle0 Example.rng0 "flip"%string "float"%string
           H1 H2 ltac:(cbn; lia) H4 H3).
Defined.

(* ================================================================== *)
(** ** The box invariant *)























(** The remapping of the flip branch, taken alone, sends a box that touches
    the left edge ([xmin = 0]) to one with [xmax = img_width]: it is the
    [TypeError] of the call before it that keeps such a box out of every
    batch. *)
Remark flip_remap_reaches_width :
  box_within 10 10 (mkBox 0 0 5 0 5) /\
  flip_boxes 10 [mkBox 0 0 5 0 5] = [mkBox 0 5 10 0 5] /\
  ~ box_within 10 10 (mkBox 0 5 10 0 5).
Proof.
  split; [unfold box_within; cbn; lia|]. split; [reflexivity|].
  unfold box_within; cbn. lia.
Qed.

(* ================================================================== *)
(** ** The encoder check of training mode *)

Lemma load_images_trace image_open fs : forall o s t xs s',
  load_images image_open fs o s = (t, inr (xs, s')) ->
  t = map EvLoad fs /\ length xs = length fs /\ s' = s.
Proof.
  induction fs as [|f fs IH]; intros o s t xs s' E; cbn [load_images] in E.
  - inversion E. auto.
  - apply bind_inr in E. destruct E as (t1 & [] & s1 & t2 & E1 & E2 & ->).
    inversion E1; subst. destruct (image_open f); [|discriminate].
    apply bind_inr in E2. destruct E2 as (t3 & xs' & s3 & t4 & E3 & E4 & ->).
    inversion E4; subst. destruct (IH _ _ _ _ _ E3) as (-> & L & ->).
    cbn. rewrite app_nil_r, L. auto.
Qed.

(** C9, as the code has it.  In training mode without an encoder the
    error is raised at the end of the first iteration: when the images of
    the window load and their transforms complete, [next_batch] has loaded
    every image of the window and gone through every transform before it
    raises the [ValueError].  No batch is yielded, in this iteration or by
    [generate], and the exception ends the generator. *)
Theorem train_without_encoder_raises_after_batch_work (Target : Type)
    (image_open : string -> option Image) (histogram_eq : Image -> Image)
    (cv2_resize : Image -> Z * Z -> option Image) (cv2_gray : Image -> Image)
    (cfg : Config Target) :
  train cfg = true -> ssd_box_encoder cfg = None ->
  (forall st o s t r,
      next_batch image_open histogram_eq cv2_resize cv2_gray cfg st o s = (t, r) ->
      exists e, r = inl e) /\
  (forall (st : Cursor Sample) o s t1 (win : list Sample) st1 s1 t2 xs s2 t3 r s3,
      select_window (batch_size cfg) st o s = (t1, inr ((win, st1), s1)) ->
      load_images image_open (map fst win) o s1 = (t2, inr (xs, s2)) ->
      augment_items histogram_eq cv2_resize cv2_gray cfg 0 xs (map snd win) [] o s2
        = (t3, inr (r, s3)) ->
      t2 = map EvLoad (map fst win) /\
      next_batch image_open histogram_eq cv2_resize cv2_gray cfg st o s
        = (t1 ++ t2 ++ t3,
           inl (ValueError "`ssd_box_encoder` cannot be `None` in training mode."))) /\
  (forall data n o s t r,
      generate image_open histogram_eq cv2_resize cv2_gray cfg data (S n) o s = (t, r) ->
      exists e, r = inl e).
Proof.
  intros Ht He.
  assert (A : forall st o s t r,
             next_batch image_open histogram_eq cv2_resize cv2_gray cfg st o s = (t, r) ->
             exists e, r = inl e).
  { intros st o s t r E. destruct r as [e|[[b st'] s']]; [eauto|exfalso].
    unfold next_batch in E.
    apply bind_inr in E. destruct E as (t1 & [win st1] & s1 & t1' & _ & E & _).
    apply bind_inr in E. destruct E as (t2 & xs & s2 & t2' & _ & E & _).
    apply bind_inr in E. destruct E as (t3 & [[bx by_] rm] & s3 & t3' & _ & E & _).
    rewrite Ht, He in E. discriminate. }
  split; [exact A|]. split.
  - intros st o s t1 win st1 s1 t2 xs s2 t3 [[bx by_] rm] s3 E1 E2 E3.
    split; [eapply load_images_trace; exact E2|].
    unfold next_batch, bind. rewrite E1, E2, E3, Ht, He. cbn.
    now rewrite !app_nil_r.
  - intros data n o s t r E. destruct r as [e|[bs s']]; [eauto|exfalso].
    unfold generate in E. cbn [yields] in E.
    apply bind_inr in E. destruct E as (t1 & st & s1 & t1' & _ & E & _).
    apply bind_inr in E. destruct E as (t2 & [b st'] & s2 & t2' & E & _).
    apply A in E. destruct E as (e & E). discriminate.
Qed.

(** C9, counterexample to the claim as stated: on the two-sample dataset,
    [generate(batch_size=2, train=True)] without an encoder loads both
    images and goes through the transforms of both items before it raises
    the [ValueError]. *)
Lemma train_without_encoder_counterexample :
  generate Example.image_open Example.histogram_eq Example.cv2_resize
    Example.cv2_gray Example.train_config Example.data 1
    Example.oracle0 Example.rng0
  = ([EvShuffle; EvLoad "a.png"; EvLoad "b.png"; EvAugment 0; EvAugment 1],
     inl (ValueError "`ssd_box_encoder` cannot be `None` in training mode.")) /\
  ~ (forall t r,
        generate Example.image_open Example.histogram_eq Example.cv2_resize
          Example.cv2_gray Example.train_config Example.data 1
          Example.oracle0 Example.rng0 = (t, r) ->
        forall f i, ~ In (EvLoad f) t /\ ~ In (EvAugment i) t).
Proof.
  split; [vm_compute; reflexivity|].
  intros H. specialize (H _ _ eq_refl "a.png"%string 0%nat).
  destruct H as [H _]. apply H. vm_compute. right. left. reflexivity.
Qed.

Lemma train_without_encoder_raises_after_batch_work_witness :
  train Example.train_config = true /\
  ssd_box_encoder Example.train_config = None /\
  exists t e,
    generate Example.image_open Example.histogram_eq Example.cv2_resize
      Example.cv2_gray Example.train_config Example.data 1
      Example.oracle0 Example.rng0 = (t, inl e).
Proof.
  assert (H1 : train Example.train_config = true) by reflexivity.
  assert (H2 : ssd_box_encoder Example.train_config = None) by reflexivity.
  split; [exact H1|]. split; [exact H2|].
  destruct (generate Example.image_open Example.histogram_eq Example.cv2_resize
              Example.cv2_gray Example.train_config Example.data 1
              Example.oracle0 Example.rng0) as [t r] eqn:E.
  destruct (proj2 (proj2 (train_without_encoder_raises_after_batch_work unit
              Example.image_open Example.histogram_eq Example.cv2_resize
              Example.cv2_gray Example.train_config H1 H2))
              Example.data 0%nat Example.oracle0 Example.rng0 t r E) as (e & ->).
  exists t, e. reflexivity.
Defined.

(* ================================================================== *)
(** ** Removal of items whose crop failed *)

(** C8, the code at a failing input.  On the two-sample dataset with
    [random_crop=(2, 2, 1, 1)] in inference mode, the crop of the first
    item loses its only box and the item is removed: the batch that is
    yielded holds one image and one box list, those of ["b.png"], and both
    file names, the first of them the name of the removed image. *)
Theorem infer_filenames_keep_removed_items :
  exists (x : Image) (s' : RngState),
    generate Example.image_open Example.histogram_eq Example.cv2_resize
      Example.cv2_gray Example.infer_crop_config Example.data 1
      Example.oracle0 Example.rng0
    = ([EvShuffle; EvLoad "a.png"; EvLoad "b.png"; EvAugment 0; EvAugment 1; EvYield],
       inr ([InferBatch [x] [[mkBox 0 0 1 0 1]] ["a.png"%string; "b.png"%string]], s')) /\
    length [x] <> length ["a.png"%string; "b.png"%string] /\
    map snd Example.data = [[mkBox 0 2 3 2 3]; [mkBox 0 0 1 0 1]].
Proof.
  eexists _, _. split; [vm_compute; reflexivity|].
  split; [discriminate|reflexivity].
Qed.

(* ================================================================== *)
(** ** The trial loop of the random crop *)

Lemma crop_trial_draws {Target : Type} (cfg : Config Target) it crop_h crop_w
    y_range x_range o s t r s' :
  crop_trial cfg it crop_h crop_w y_range x_range o s = (t, inr (r, s')) ->
  n_randint s' = S (S (n_randint s)).
Proof.
  unfold crop_trial, bind, random_randint, raise, ret.
  destruct (_ <=? 0); [discriminate|]. cbn [n_uniform n_randint n_shuffle].
  destruct (_ <=? 0); [discriminate|].
  destruct (_ && _); [discriminate|]. cbn [app].
  destruct (crop_patch _ _ _ _ _ _ _ _) as [[px bl] py].
  destruct (limit_boxes cfg && _); cbn; intros H; inversion H; reflexivity.
Qed.

(** The loop runs at most [max_trials] trials, two draws each. *)
Lemma crop_trials_at_most_max_trials {Target : Type} (cfg : Config Target) (i : nat)
    (crop_h crop_w min_1_object max_trials y_range x_range : Z) :
  forall fuel st o s t st' s',
    crop_loop fuel cfg i crop_h crop_w min_1_object max_trials y_range x_range st o s
      = (t, inr (st', s')) ->
    trial_counter st <= trial_counter st' <= Z.max (trial_counter st) max_trials /\
    Z.of_nat (n_randint s') =
      Z.of_nat (n_randint s) + 2 * (trial_counter st' - trial_counter st).
Proof.
  induction fuel as [|fuel IH]; intros st o s t st' s' E; cbn [crop_loop] in E.
  - inversion E; subst. lia.
  - destruct (negb (min_1_object_fulfilled st) && (trial_counter st <? max_trials)) eqn:G.
    2:{ inversion E; subst. lia. }
    apply andb_true_iff in G. destruct G as [_ G]. apply Z.ltb_lt in G.
    apply bind_inr in E.
    destruct E as (t1 & [patch_x patch_y] & s1 & t2 & E1 & E2 & _).
    apply crop_trial_draws in E1.
    destruct (min_1_object =? 0).
    + unfold ret in E2. inversion E2; subst. cbn [trial_counter]. lia.
    + destruct (0 <? length patch_y)%nat;
        [|destruct ((max_trials <=? trial_counter st + 1)
                    && negb (py_in i (batch_items_to_remove st)))];
        apply IH in E2; cbn [trial_counter] in E2; lia.
Qed.

Lemma crop_trial_no_boxes {Target : Type} (cfg : Config Target) it crop_h crop_w
    y_range x_range o s :
  item_y it = [] -> 0 <= crop_h -> 0 <= crop_w ->
  exists patch_x,
    crop_trial cfg it crop_h crop_w y_range x_range o s
    = ([], inr ((patch_x, []),
                mkRng (n_uniform s) (S (S (n_randint s))) (n_shuffle s))).
Proof.
  intros Hy Hh Hw. unfold crop_trial, bind, random_randint, raise, ret.
  assert (F1 : ((if 0 <=? y_range then y_range + 1 else - y_range + 1) <=? 0) = false).
  { apply Z.leb_gt. destruct (0 <=? y_range) eqn:F;
      [apply Z.leb_le in F|apply Z.leb_gt in F]; lia. }
  assert (F2 : ((if 0 <=? x_range then x_range + 1 else - x_range + 1) <=? 0) = false).
  { apply Z.leb_gt. destruct (0 <=? x_range) eqn:F;
      [apply Z.leb_le in F|apply Z.leb_gt in F]; lia. }
  rewrite F1. cbn [n_uniform n_randint n_shuffle]. rewrite F2.
  assert (F3 : ((crop_h <? 0) || (crop_w <? 0)) = false).
  { apply orb_false_iff. split; apply Z.ltb_ge; lia. }
  rewrite F3, andb_false_r. cbn [app n_uniform n_randint n_shuffle].
  unfold crop_patch. rewrite Hy. cbn [map].
  destruct ((0 <=? y_range) && (0 <=? x_range));
    [|destruct ((0 <=? y_range) && (x_range <? 0));
      [|destruct ((y_range <? 0) && (0 <=? x_range))]];
    destruct (limit_boxes cfg); cbn [andb map];
    try destruct ((0 <=? y_range) || (0 <=? x_range));
    eexists; reflexivity.
Qed.

(** With [min_1_object = 1] and at least one trial allowed, an item
    without boxes goes through exactly [max_trials] trials, none of which is
    accepted, and is marked for removal. *)
Lemma crop_retry_exhausts_without_boxes {Target : Type} (cfg : Config Target)
    (i : nat) (crop_h crop_w min_1_object max_trials y_range x_range : Z) :
  min_1_object <> 0 -> 0 <= crop_h -> 0 <= crop_w ->
  forall fuel st o s,
    item_y (loop_item st) = [] ->
    min_1_object_fulfilled st = false ->
    trial_counter st < max_trials ->
    (Z.to_nat (max_trials - trial_counter st) <= fuel)%nat ->
    exists t s',
      crop_loop fuel cfg i crop_h crop_w min_1_object max_trials y_range x_range st o s
        = (t, inr (mkCropLoop (loop_item st) false max_trials
                     (if py_in i (batch_items_to_remove st)
                      then batch_items_to_remove st
                      else batch_items_to_remove st ++ [i]), s')) /\
      Z.of_nat (n_randint s') =
        Z.of_nat (n_randint s) + 2 * (max_trials - trial_counter st).
Proof.
  intros Hm Hh Hw.
  induction fuel as [|fuel IH]; intros st o s Hy Hf Hlt Hfuel; [lia|].
  cbn [crop_loop]. rewrite Hf.
  assert (G : (trial_counter st <? max_trials) = true) by (apply Z.ltb_lt; lia).
  rewrite G. cbn [negb andb].
  destruct (crop_trial_no_boxes cfg (loop_item st) crop_h crop_w y_range x_range o s
              Hy Hh Hw) as (px & Et).
  unfold bind at 1. rewrite Et.
  apply Z.eqb_neq in Hm. rewrite Hm. cbn [length Nat.ltb Nat.leb].
  destruct (Z.eq_dec (trial_counter st + 1) max_trials) as [Elast|Nlast].
  - (* the last trial *)
    assert (G1 : (max_trials <=? trial_counter st + 1) = true) by (apply Z.leb_le; lia).
    rewrite G1. cbn [andb].
    destruct (py_in i (batch_items_to_remove st)) eqn:Hin; cbn [negb];
      destruct fuel; cbn [crop_loop];
      try (assert (G2 : (trial_counter st + 1 <? max_trials) = false)
             by (apply Z.ltb_ge; lia);
           cbn [min_1_object_fulfilled trial_counter]; rewrite G2, ?andb_false_r);
      unfold ret; cbn -[Z.mul Z.sub Z.add Z.of_nat]; rewrite Elast;
      eexists _, _; (split; [reflexivity|]); cbn [n_randint]; lia.
  - assert (G1 : (max_trials <=? trial_counter st + 1) = false) by (apply Z.leb_gt; lia).
    rewrite G1. cbn [andb].
    match goal with
    | |- context [crop_loop fuel cfg i _ _ _ _ _ _ ?st1 o ?s1] =>
        destruct (IH st1 o s1) as (t & s' & E & Hd);
        cbn [loop_item min_1_object_fulfilled trial_counter batch_items_to_remove];
        try assumption; try lia;
        rewrite E
    end.
    cbn -[Z.mul Z.sub Z.add Z.of_nat]. eexists _, _. split; [reflexivity|].
    cbn [trial_counter n_randint] in Hd. lia.
Qed.


(* ================================================================== *)
(** ** The order of the parsed lines and [sorted] *)

Lemma ascii_compare_lt_trans a b c :
  Ascii.compare a b = Lt -> Ascii.compare b c = Lt -> Ascii.compare a c = Lt.
Proof.
  unfold Ascii.compare. rewrite !N.compare_lt_iff. lia.
Qed.

Lemma string_compare_refl s : String.compare s s = Eq.
Proof.
  induction s as [|a s IH]; cbn; [reflexivity|].
  unfold Ascii.compare. now rewrite N.compare_refl.
Qed.

Lemma string_compare_lt_trans : forall a b c,
  String.compare a b = Lt -> String.compare b c = Lt -> String.compare a c = Lt.
Proof.
  induction a as [|x a IH]; intros [|y b] [|z c]; cbn; try congruence.
  destruct (Ascii.compare x y) eqn:E1; try discriminate;
    destruct (Ascii.compare y z) eqn:E2; try discriminate; intros H1 H2.
  - apply Ascii.compare_eq_iff in E1, E2. subst.
    rewrite (proj2 (N.compare_eq_iff _ _) eq_refl : Ascii.compare z z = Eq).
    eauto.
  - apply Ascii.compare_eq_iff in E1. subst. now rewrite E2.
  - apply Ascii.compare_eq_iff in E2. subst. now rewrite E1.
  - now rewrite (ascii_compare_lt_trans _ _ _ E1 E2).
Qed.

Lemma string_compare_gt_lt a b : String.compare a b = Gt <-> String.compare b a = Lt.
Proof.
  rewrite (String.compare_antisym a b).
  destruct (String.compare b a); cbn; split; congruence.
Qed.

(** [box_compare] is the lexicographic order of the five columns. *)
Lemma box_compare_eq a b : box_compare a b = Eq <-> a = b.
Proof.
  split.
  - unfold box_compare. destruct a as [c1 p1 q1 r1 s1], b as [c2 p2 q2 r2 s2]; cbn.
    destruct (Z.compare_spec c1 c2); try discriminate.
    destruct (Z.compare_spec p1 p2); try discriminate.
    destruct (Z.compare_spec q1 q2); try discriminate.
    destruct (Z.compare_spec r1 r2); try discriminate.
    destruct (Z.compare_spec s1 s2); try discriminate.
    intros _. now subst.
  - intros ->. unfold box_compare. now rewrite !Z.compare_refl.
Qed.

Lemma box_compare_lt a b : box_compare a b = Lt <-> box_lt a b.
Proof.
  unfold box_compare, box_lt.
  destruct (Z.compare_spec (class_id a) (class_id b));
    [|split; [lia|reflexivity]|split; [discriminate|lia]].
  destruct (Z.compare_spec (xmin a) (xmin b));
    [|split; [lia|reflexivity]|split; [discriminate|lia]].
  destruct (Z.compare_spec (xmax a) (xmax b));
    [|split; [lia|reflexivity]|split; [discriminate|lia]].
  destruct (Z.compare_spec (ymin a) (ymin b));
    [|split; [lia|reflexivity]|split; [discriminate|lia]].
  rewrite Z.compare_lt_iff. lia.
Qed.

Lemma box_compare_gt a b : box_compare a b = Gt <-> box_lt b a.
Proof.
  unfold box_compare, box_lt.
  destruct (Z.compare_spec (class_id a) (class_id b));
    [|split; [discriminate|lia]|split; [lia|reflexivity]].
  destruct (Z.compare_spec (xmin a) (xmin b));
    [|split; [discriminate|lia]|split; [lia|reflexivity]].
  destruct (Z.compare_spec (xmax a) (xmax b));
    [|split; [discriminate|lia]|split; [lia|reflexivity]].
  destruct (Z.compare_spec (ymin a) (ymin b));
    [|split; [discriminate|lia]|split; [lia|reflexivity]].
  rewrite Z.compare_gt_iff. lia.
Qed.

Lemma box_lt_trans a b c : box_lt a b -> box_lt b c -> box_lt a c.
Proof. unfold box_lt. lia. Qed.

Lemma obj_compare_eq a b : obj_compare a b = Eq <-> a = b.
Proof.
  unfold obj_compare. destruct a as [f x], b as [g y]; cbn.
  destruct (String.compare f g) eqn:E.
  - apply String.compare_eq_iff in E. subst. rewrite box_compare_eq.
    split; intros H; [now subst|now inversion H].
  - split; [discriminate|]. intros H; inversion H; subst.
    now rewrite string_compare_refl in E.
  - split; [discriminate|]. intros H; inversion H; subst.
    now rewrite string_compare_refl in E.
Qed.

Lemma obj_compare_lt a b :
  obj_compare a b = Lt <->
  String.compare (fst a) (fst b) = Lt \/ (fst a = fst b /\ box_lt (snd a) (snd b)).
Proof.
  unfold obj_compare. destruct (String.compare (fst a) (fst b)) eqn:E.
  - rewrite box_compare_lt. apply String.compare_eq_iff in E.
    split; [tauto|]. intros [H|[_ H]]; [discriminate|exact H].
  - split; [tauto|reflexivity].
  - split; [discriminate|]. intros [H|[H _]]; [discriminate|].
    rewrite H, string_compare_refl in E. discriminate.
Qed.

Lemma obj_compare_gt a b : obj_compare a b = Gt <-> obj_compare b a = Lt.
Proof.
  rewrite obj_compare_lt. unfold obj_compare.
  destruct (String.compare (fst a) (fst b)) eqn:E.
  - rewrite box_compare_gt. apply String.compare_eq_iff in E.
    rewrite E, string_compare_refl. split; [auto|].
    intros [H|[_ H]]; [discriminate|exact H].
  - split; [discriminate|]. intros [H|[H _]].
    + apply string_compare_gt_lt in H. congruence.
    + rewrite H, string_compare_refl in E. discriminate.
  - split; [|reflexivity]. intros _. left. now apply string_compare_gt_lt.
Qed.

Lemma obj_lt_trans a b c :
  obj_compare a b = Lt -> obj_compare b c = Lt -> obj_compare a c = Lt.
Proof.
  rewrite !obj_compare_lt. intros [H1|[H1 H1']] [H2|[H2 H2']].
  - left. eapply string_compare_lt_trans; eassumption.
  - left. now rewrite <- H2.
  - left. now rewrite H1.
  - right. split; [congruence|]. eapply box_lt_trans; eassumption.
Qed.

Lemma obj_le_refl a : obj_le a a.
Proof.
  unfold obj_le, obj_ltb. now rewrite (proj2 (obj_compare_eq a a) eq_refl).
Qed.

Lemma obj_le_cases a b : obj_le a b <-> a = b \/ obj_compare a b = Lt.
Proof.
  unfold obj_le, obj_ltb. destruct (obj_compare b a) eqn:E.
  - apply obj_compare_eq in E. subst. split; auto.
  - split; [discriminate|]. intros [->|H].
    + rewrite (proj2 (obj_compare_eq b b) eq_refl) in E. discriminate.
    + pose proof (obj_lt_trans _ _ _ E H) as F.
      rewrite (proj2 (obj_compare_eq b b) eq_refl) in F. discriminate.
  - apply obj_compare_gt in E. split; auto.
Qed.

Lemma obj_le_trans a b c : obj_le a b -> obj_le b c -> obj_le a c.
Proof.
  rewrite !obj_le_cases. intros [->|H1] [->|H2]; auto.
  right. eapply obj_lt_trans; eassumption.
Qed.

Lemma obj_le_antisym a b : obj_le a b -> obj_le b a -> a = b.
Proof.
  intros H1 H2. apply obj_le_cases in H1, H2.
  destruct H1 as [->|H1]; [reflexivity|]. destruct H2 as [->|H2]; [reflexivity|].
  pose proof (obj_lt_trans _ _ _ H1 H2) as F.
  rewrite (proj2 (obj_compare_eq a a) eq_refl) in F. discriminate.
Qed.

Lemma obj_le_total a b : obj_le a b \/ obj_le b a.
Proof.
  rewrite (obj_le_cases a b), (obj_le_cases b a). destruct (obj_compare a b) eqn:E.
  - apply obj_compare_eq in E. auto.
  - auto.
  - apply obj_compare_gt in E. auto.
Qed.

Lemma sorted_insert_perm x l : Permutation (sorted_insert x l) (x :: l).
Proof.
  induction l as [|y l IH]; cbn; [reflexivity|].
  destruct (obj_ltb y x); [|reflexivity].
  rewrite IH. apply perm_swap.
Qed.

Lemma py_sorted_perm l : Permutation (py_sorted l) l.
Proof.
  induction l as [|x l IH]; cbn; [reflexivity|].
  rewrite sorted_insert_perm. now constructor.
Qed.

Lemma sorted_insert_sorted x l :
  StronglySorted obj_le l -> StronglySorted obj_le (sorted_insert x l).
Proof.
  induction 1 as [|y l Hs IH Hf]; cbn; [repeat constructor|].
  destruct (obj_ltb y x) eqn:E.
  - constructor; [exact IH|].
    eapply Permutation_Forall; [symmetry; apply sorted_insert_perm|].
    constructor; [|exact Hf].
    apply obj_le_cases. right. unfold obj_ltb in E.
    destruct (obj_compare y x); congruence.
  - constructor; [now constructor|]. constructor; [exact E|].
    eapply Forall_impl; [|exact Hf]. intros z Hz.
    eapply obj_le_trans; [exact E|exact Hz].
Qed.

Lemma py_sorted_sorted l : StronglySorted obj_le (py_sorted l).
Proof.
  induction l as [|x l IH]; cbn; [constructor|now apply sorted_insert_sorted].
Qed.

(** A list has one sorted arrangement. *)
Lemma sorted_unique : forall l1 l2,
  StronglySorted obj_le l1 -> StronglySorted obj_le l2 ->
  Permutation l1 l2 -> l1 = l2.
Proof.
  induction l1 as [|x l1 IH]; intros l2 H1 H2 P.
  - apply Permutation_nil in P. now subst.
  - destruct l2 as [|y l2]; [apply Permutation_sym, Permutation_nil in P; discriminate|].
    apply StronglySorted_inv in H1, H2. destruct H1 as [S1 F1], H2 as [S2 F2].
    assert (x = y).
    { assert (I1 : In x (y :: l2)) by (eapply Permutation_in; [exact P|now left]).
      assert (I2 : In y (x :: l1))
        by (eapply Permutation_in; [symmetry; exact P|now left]).
      destruct I1 as [->|I1]; [reflexivity|].
      destruct I2 as [->|I2]; [reflexivity|].
      rewrite Forall_forall in F1, F2.
      apply obj_le_antisym; auto. }
    subst y. f_equal. apply IH; auto.
    eapply Permutation_cons_inv; exact P.
Qed.

Lemma py_sorted_permutation l1 l2 :
  Permutation l1 l2 -> py_sorted l1 = py_sorted l2.
Proof.
  intros P. apply sorted_unique; try apply py_sorted_sorted.
  now rewrite !py_sorted_perm.
Qed.

(* ================================================================== *)
(** ** The loop that compiles the samples *)

Lemma group_from_nonempty f acc data : group_from f acc data <> [].
Proof.
  revert f acc. induction data as [|i data IH]; intros f acc; cbn; [discriminate|].
  destruct (String.eqb (fst i) f); [apply IH|discriminate].
Qed.

Lemma group_from_cons f acc i data :
  group_from f acc (i :: data) =
    if String.eqb (fst i) f then group_from f (acc ++ [snd i]) data
    else (f, acc) :: group_from (fst i) [snd i] data.
Proof. reflexivity. Qed.

Lemma removelast_cons {A : Type} (a : A) (l : list A) :
  l <> [] -> removelast (a :: l) = a :: removelast l.
Proof. destruct l; [congruence|reflexivity]. Qed.

Lemma last_line_alone_cons i j data :
  data <> [] -> last_line_alone (i :: j :: data) = last_line_alone (j :: data).
Proof.
  intros Hd. unfold last_line_alone. cbn [rev].
  destruct (rev data) as [|x r] eqn:E.
  - apply (f_equal (@rev Obj)) in E. rewrite rev_involutive in E. now subst.
  - cbn. destruct r; reflexivity.
Qed.

Lemma last_line_alone_two i j :
  last_line_alone [i; j] = negb (String.eqb (fst j) (fst i)).
Proof. reflexivity. Qed.

Lemma last_line_alone_name f b b' data :
  last_line_alone ((f, b) :: data) = last_line_alone ((f, b') :: data).
Proof.
  destruct data as [|j data]; [reflexivity|].
  destruct data as [|k data]; [reflexivity|].
  rewrite !(last_line_alone_cons _ j) by discriminate. reflexivity.
Qed.

(** The loop never touches the other attributes of [self]. *)
Lemma compile_step_frame n st idx i :
  class_map (compile_self (compile_step n st idx i)) = class_map (compile_self st) /\
  include_classes (compile_self (compile_step n st idx i)) = include_classes (compile_self st) /\
  labels_path (compile_self (compile_step n st idx i)) = labels_path (compile_self st) /\
  input_format (compile_self (compile_step n st idx i)) = input_format (compile_self st) /\
  count (compile_self (compile_step n st idx i)) = count (compile_self st).
Proof.
  unfold compile_step.
  destruct (String.eqb (current_file st) "");
    [destruct (n =? 1)%nat
    |destruct (String.eqb (fst i) (current_file st));
       [destruct (idx =? n - 1)%nat|]];
    cbn; auto.
Qed.

Lemma compile_from_frame n : forall data idx st,
  class_map (compile_self (compile_from n idx st data)) = class_map (compile_self st) /\
  include_classes (compile_self (compile_from n idx st data)) = include_classes (compile_self st) /\
  labels_path (compile_self (compile_from n idx st data)) = labels_path (compile_self st) /\
  input_format (compile_self (compile_from n idx st data)) = input_format (compile_self st) /\
  count (compile_self (compile_from n idx st data)) = count (compile_self st).
Proof.
  induction data as [|i data IH]; intros idx st; cbn [compile_from]; [auto|].
  destruct (IH (S idx) (compile_step n st idx i)) as (A & B & C & D & E).
  destruct (compile_step_frame n st idx i) as (A' & B' & C' & D' & E').
  repeat split; congruence.
Qed.

(** From a state in which a run is open, the loop appends the runs of the
    remaining lines, the open one first; the last run is appended only when
    the last line continues it. *)
Lemma compile_from_groups (n : nat) (b0 : Box) : forall data idx st,
  (idx + length data = n)%nat -> data <> [] ->
  current_file st <> ""%string ->
  Forall (fun i => fst i <> ""%string) data ->
  let G := group_from (current_file st) (current_labels st) data in
  let F := if last_line_alone ((current_file st, b0) :: data) then removelast G else G in
  filenames (compile_self (compile_from n idx st data))
    = filenames (compile_self st) ++ map fst F /\
  labels (compile_self (compile_from n idx st data))
    = labels (compile_self st) ++ map snd F.
Proof.
  induction data as [|i data IH]; intros idx st Hn Hne Hcf Hnames; [congruence|].
  apply Forall_cons_iff in Hnames. destruct Hnames as [Hi Hnames].
  assert (Ecf : String.eqb (current_file st) "" = false) by now apply String.eqb_neq.
  cbn [compile_from]. unfold compile_step. rewrite Ecf.
  destruct data as [|j data].
  - (* the last line *)
    cbn [compile_from]. cbn [length] in Hn.
    assert (Eidx : (idx =? n - 1)%nat = true) by (apply Nat.eqb_eq; lia).
    rewrite Eidx, last_line_alone_two. cbn [fst group_from].
    destruct (String.eqb (fst i) (current_file st)); cbn;
      split; reflexivity.
  - assert (Eidx : (idx =? n - 1)%nat = false)
      by (apply Nat.eqb_neq; cbn [length] in Hn; lia).
    rewrite Eidx.
    rewrite last_line_alone_cons by discriminate.
    rewrite (group_from_cons _ _ i).
    destruct (String.eqb (fst i) (current_file st)) eqn:Ei.
    + apply String.eqb_eq in Ei.
      match goal with
      | |- context [compile_from n (S idx) ?st1 _] =>
          destruct (IH (S idx) st1) as [A B];
          [cbn [length] in *; lia|discriminate|exact Hcf|exact Hnames|]
      end.
      cbn [current_file current_labels compile_self] in A, B.
      rewrite (last_line_alone_name _ _ (snd i)) in A, B.
      rewrite (surjective_pairing i), Ei. cbn [snd].
      split; [exact A|exact B].
    + match goal with
      | |- context [compile_from n (S idx) ?st1 _] =>
          destruct (IH (S idx) st1) as [A B];
          [cbn [length] in *; lia|discriminate|exact Hi|exact Hnames|]
      end.
      cbn [current_file current_labels compile_self] in A, B.
      rewrite (last_line_alone_name _ _ (snd i)), <- surjective_pairing in A, B.
      rewrite A, B. unfold append_sample, set_data. cbn [filenames labels].
      rewrite <- !app_assoc. cbn [app]. unfold Obj in *.
      destruct (last_line_alone (i :: j :: data)).
      * rewrite removelast_cons by apply group_from_nonempty.
        split; reflexivity.
      * split; reflexivity.
Qed.

(** [parse_csv]'s second loop on lines with non-empty image names: one
    sample per run of lines with the same name, but for the last run when
    the last line is alone in it. *)
Lemma compile_samples_groups self data :
  Forall (fun i => fst i <> ""%string) data ->
  filenames (compile_samples self data)
    = filenames self
      ++ map fst (if last_line_alone data then removelast (group_rows data)
                  else group_rows data) /\
  labels (compile_samples self data)
    = labels self
      ++ map snd (if last_line_alone data then removelast (group_rows data)
                  else group_rows data).
Proof.
  intros Hnames. unfold compile_samples.
  destruct data as [|i data]; [cbn; now rewrite !app_nil_r|].
  apply Forall_cons_iff in Hnames. destruct Hnames as [Hi Hnames].
  cbn [compile_from]. unfold compile_step. cbn [current_file String.eqb].
  destruct data as [|j data].
  - cbn. split; reflexivity.
  - cbn [length Nat.eqb current_labels app compile_self].
    destruct (compile_from_groups (length (i :: j :: data)) (snd i) (j :: data) 1
                (mkCompile (fst i) [snd i] self)) as [A B];
      [reflexivity|discriminate|exact Hi|exact Hnames|].
    cbn [current_file current_labels compile_self] in A, B.
    rewrite <- surjective_pairing in A, B. cbn [group_rows].
    split; [exact A|exact B].
Qed.

(* ================================================================== *)
(** ** The runs of the sorted lines *)

Lemma name_le_neq_lt f g : name_le f g -> g <> f -> name_lt f g.
Proof.
  unfold name_le, name_lt. intros H N.
  destruct (String.compare f g) eqn:E; try congruence.
  apply String.compare_eq_iff in E. congruence.
Qed.

Lemma name_lt_le_trans a b c : name_lt a b -> name_le b c -> name_lt a c.
Proof.
  unfold name_le, name_lt. intros H1 H2.
  destruct (String.compare b c) eqn:E; try congruence.
  - apply String.compare_eq_iff in E. now subst.
  - eapply string_compare_lt_trans; eassumption.
Qed.

Lemma name_lt_irrefl a : ~ name_lt a a.
Proof. unfold name_lt. now rewrite string_compare_refl. Qed.

Lemma name_lt_le a b : name_lt a b -> name_le a b.
Proof. unfold name_lt, name_le. congruence. Qed.

Lemma obj_le_name_le a b : obj_le a b -> name_le (fst a) (fst b).
Proof.
  intros H. apply obj_le_cases in H. destruct H as [->|H].
  - unfold name_le. now rewrite string_compare_refl.
  - apply obj_compare_lt in H. destruct H as [H|[H _]].
    + now apply name_lt_le.
    + unfold name_le. now rewrite H, string_compare_refl.
Qed.

Lemma sorted_names d :
  StronglySorted obj_le d -> StronglySorted name_le (map fst d).
Proof.
  induction 1 as [|a d Hs IH Hf]; cbn; constructor; [exact IH|].
  apply Forall_map. eapply Forall_impl; [|exact Hf].
  intros b. apply obj_le_name_le.
Qed.

Lemma strict_names_NoDup l : StronglySorted name_lt l -> NoDup l.
Proof.
  induction 1 as [|a l Hs IH Hf]; constructor; [|exact IH].
  intros Hin. rewrite Forall_forall in Hf.
  exact (name_lt_irrefl a (Hf a Hin)).
Qed.

(** The names of the runs of sorted lines ascend strictly. *)
Lemma group_from_sorted : forall d f acc,
  StronglySorted name_le (f :: map fst d) ->
  StronglySorted name_lt (map fst (group_from f acc d)) /\
  Forall (fun g => g = f \/ (name_lt f g /\ In g (map fst d)))
    (map fst (group_from f acc d)).
Proof.
  induction d as [|i d IH]; intros f acc Hs.
  - cbn. split; repeat constructor.
  - apply StronglySorted_inv in Hs. destruct Hs as [Hs Hf].
    cbn [map] in Hs, Hf. apply Forall_cons_iff in Hf. destruct Hf as [Hfi Hf].
    rewrite group_from_cons.
    destruct (String.eqb (fst i) f) eqn:Ei.
    + apply String.eqb_eq in Ei.
      destruct (IH f (acc ++ [snd i])) as [A B].
      { constructor; [|exact Hf]. now apply StronglySorted_inv in Hs. }
      split; [exact A|]. eapply Forall_impl; [|exact B].
      intros g [->|[H1 H2]]; [now left|right]. split; [exact H1|now right].
    + apply String.eqb_neq in Ei.
      destruct (IH (fst i) [snd i] Hs) as [A B].
      assert (Hlt : name_lt f (fst i)) by now apply name_le_neq_lt.
      cbn [map fst]. split.
      * constructor; [exact A|]. eapply Forall_impl; [|exact B].
        intros g [->|[H1 _]]; [exact Hlt|].
        eapply name_lt_le_trans; [exact Hlt|now apply name_lt_le].
      * constructor; [now left|]. eapply Forall_impl; [|exact B].
        intros g [->|[H1 H2]]; right.
        -- split; [exact Hlt|now left].
        -- split; [|now right].
           eapply name_lt_le_trans; [exact Hlt|now apply name_lt_le].
Qed.

Lemma boxes_of_cons f i d :
  boxes_of f (i :: d) =
    (if String.eqb (fst i) f then [snd i] else []) ++ boxes_of f d.
Proof.
  unfold boxes_of. cbn [filter]. now destruct (String.eqb (fst i) f).
Qed.

Lemma boxes_of_absent f d : ~ In f (map fst d) -> boxes_of f d = [].
Proof.
  induction d as [|i d IH]; intros H; [reflexivity|].
  rewrite boxes_of_cons. cbn [map] in H.
  destruct (String.eqb (fst i) f) eqn:E.
  - apply String.eqb_eq in E. exfalso. apply H. now left.
  - apply IH. intros Hin. apply H. now right.
Qed.

Lemma boxes_of_present f d : In f (map fst d) -> boxes_of f d <> [].
Proof.
  induction d as [|i d IH]; intros H; [destruct H|].
  rewrite boxes_of_cons. cbn [map] in H.
  destruct (String.eqb (fst i) f) eqn:E; [discriminate|].
  apply String.eqb_neq in E. destruct H as [H|H]; [congruence|].
  now apply IH.
Qed.

(** Each run of sorted lines holds all the boxes of its image. *)
Lemma group_from_boxes : forall d f acc,
  StronglySorted name_le (f :: map fst d) ->
  forall g bs, In (g, bs) (group_from f acc d) ->
    bs = (if String.eqb g f then acc else []) ++ boxes_of g d.
Proof.
  induction d as [|i d IH]; intros f acc Hs g bs Hin.
  - cbn in Hin. destruct Hin as [Hin|[]]. inversion Hin; subst.
    rewrite String.eqb_refl. cbn. now rewrite app_nil_r.
  - pose proof Hs as Hs0.
    apply StronglySorted_inv in Hs. destruct Hs as [Hs Hf].
    cbn [map] in Hs, Hf. apply Forall_cons_iff in Hf. destruct Hf as [Hfi Hf].
    rewrite group_from_cons in Hin. rewrite boxes_of_cons.
    destruct (String.eqb (fst i) f) eqn:Ei.
    + apply String.eqb_eq in Ei.
      apply IH in Hin.
      2:{ constructor; [|exact Hf]. now apply StronglySorted_inv in Hs. }
      rewrite Hin, Ei, (String.eqb_sym f g).
      destruct (String.eqb g f); cbn; [now rewrite <- app_assoc|reflexivity].
    + apply String.eqb_neq in Ei.
      assert (Hlt : name_lt f (fst i)) by now apply name_le_neq_lt.
      destruct Hin as [Hin|Hin].
      * inversion Hin; subst g bs. rewrite String.eqb_refl.
        apply String.eqb_neq in Ei. rewrite Ei. cbn [app].
        rewrite boxes_of_absent; [now rewrite app_nil_r|].
        intros Hin'. apply StronglySorted_inv in Hs. destruct Hs as [_ Hs].
        rewrite Forall_forall in Hs. specialize (Hs f Hin').
        exact (name_lt_irrefl f (name_lt_le_trans _ _ _ Hlt Hs)).
      * pose proof Hin as Hin0. apply IH in Hin; [|exact Hs].
        destruct (group_from_sorted d (fst i) [snd i] Hs) as [_ B].
        rewrite Forall_forall in B.
        assert (Hg : g <> f).
        { specialize (B g (in_map fst _ _ Hin0)). cbn [fst] in B.
          intros ->. destruct B as [B|[B _]].
          - rewrite <- B in Hlt. exact (name_lt_irrefl _ Hlt).
          - exact (name_lt_irrefl f
                     (name_lt_le_trans _ _ _ Hlt (name_lt_le _ _ B))). }
        apply String.eqb_neq in Hg. rewrite Hg. cbn [app].
        rewrite Hin, (String.eqb_sym g (fst i)). reflexivity.
Qed.

Lemma group_from_names : forall d f acc g,
  In g (f :: map fst d) -> In g (map fst (group_from f acc d)).
Proof.
  induction d as [|i d IH]; intros f acc g Hin.
  - destruct Hin as [->|[]]. now left.
  - rewrite group_from_cons. destruct (String.eqb (fst i) f) eqn:Ei.
    + apply String.eqb_eq in Ei. apply IH.
      destruct Hin as [->|[<-|Hin]]; [now left|left; now symmetry|now right].
    + cbn [map fst]. destruct Hin as [->|Hin]; [now left|right].
      apply IH. exact Hin.
Qed.

Lemma last_cons_default {A : Type} (a : A) (l : list A) (d : A) :
  last (a :: l) d = last l a.
Proof.
  revert a d. induction l as [|b l IH]; intros a d; [reflexivity|].
  change (last (a :: b :: l) d) with (last (b :: l) d).
  rewrite (IH b d), (IH b a). reflexivity.
Qed.

Lemma last_cons_nonempty {A : Type} (a : A) (l : list A) (d : A) :
  l <> [] -> last (a :: l) d = last l d.
Proof. destruct l; [congruence|reflexivity]. Qed.

Lemma group_from_last : forall d f acc x,
  fst (last (group_from f acc d) x) = last (map fst d) f.
Proof.
  induction d as [|i d IH]; intros f acc x; [reflexivity|].
  rewrite group_from_cons. cbn [map]. rewrite last_cons_default.
  destruct (String.eqb (fst i) f) eqn:Ei.
  - apply String.eqb_eq in Ei. rewrite IH. now rewrite Ei.
  - rewrite last_cons_nonempty by apply group_from_nonempty. apply IH.
Qed.

Lemma last_map {A B : Type} (f : A -> B) (l : list A) (d : A) :
  last (map f l) (f d) = f (last l d).
Proof.
  induction l as [|a l IH]; [reflexivity|].
  destruct l as [|b l]; [reflexivity|].
  exact IH.
Qed.

Lemma nth_error_map_inv {A B : Type} (f : A -> B) (l : list A) k y :
  nth_error (map f l) k = Some y -> exists x, nth_error l k = Some x /\ f x = y.
Proof.
  rewrite nth_error_map. destruct (nth_error l k) as [x|]; [|discriminate].
  intros H. inversion H. eauto.
Qed.

Lemma map_removelast {A B : Type} (f : A -> B) (l : list A) :
  map f (removelast l) = removelast (map f l).
Proof.
  induction l as [|a l IH]; [reflexivity|].
  destruct l as [|b l]; [reflexivity|].
  cbn [removelast map] in *. now rewrite IH.
Qed.

Lemma In_removelast {A : Type} (l : list A) (d x : A) :
  NoDup l -> l <> [] -> (In x (removelast l) <-> In x l /\ x <> last l d).
Proof.
  intros Hn Hne. pose proof (app_removelast_last d Hne) as E.
  rewrite E in Hn. apply NoDup_remove_2 in Hn. rewrite app_nil_r in Hn.
  split.
  - intros H. split; [rewrite E; apply in_or_app; now left|].
    intros ->. contradiction.
  - intros [H N]. rewrite E in H. apply in_app_or in H.
    destruct H as [H|[H|[]]]; [exact H|congruence].
Qed.

Lemma removelast_incl {A : Type} (l : list A) (x : A) :
  In x (removelast l) -> In x l.
Proof.
  destruct l as [|a l]; [auto|].
  intros H. rewrite (app_removelast_last a (l := a :: l)) by discriminate.
  apply in_or_app. now left.
Qed.

Lemma last_line_alone_nil_or_one d :
  (length d <= 1)%nat -> last_line_alone d = false.
Proof.
  destruct d as [|a [|b d]]; cbn; try reflexivity. lia.
Qed.

(** What the second loop makes of sorted lines with non-empty image
    names.  The file names ascend strictly; the box array at the position
    of a file name holds all the boxes of that image, in the order of the
    sorted lines; and an image of the lines is among the file names unless
    it is the image of the last line and that line is alone. *)
Lemma compile_samples_sorted self d :
  filenames self = [] -> labels self = [] ->
  StronglySorted obj_le d ->
  Forall (fun i => fst i <> ""%string) d ->
  let g := compile_samples self d in
  StronglySorted name_lt (filenames g) /\
  length (labels g) = length (filenames g) /\
  (forall f, In f (filenames g) <->
             In f (map fst d) /\
             ~ (last_line_alone d = true /\ f = last (map fst d) ""%string)) /\
  (forall k f, nth_error (filenames g) k = Some f ->
               nth_error (labels g) k = Some (boxes_of f d)).
Proof.
  intros Hfs Hls Hs Hnames. cbv zeta.
  destruct (compile_samples_groups self d Hnames) as [A B].
  rewrite Hfs in A. rewrite Hls in B. cbn [app] in A, B.
  destruct d as [|i d].
  { cbn. rewrite Hfs, Hls. cbn. split; [constructor|]. split; [reflexivity|].
    split; [intros f; tauto|]. intros [|k] f; discriminate. }
  pose proof (sorted_names _ Hs) as Hsn. cbn [map] in Hsn.
  destruct (group_from_sorted d (fst i) [snd i] Hsn) as [S1 S2].
  pose proof (group_from_nonempty (fst i) [snd i] d) as Hne.
  assert (Hbox : forall f bs, In (f, bs) (group_rows (i :: d)) ->
                              bs = boxes_of f (i :: d)).
  { intros f bs Hin. cbn [group_rows] in Hin.
    apply (group_from_boxes d (fst i) [snd i] Hsn) in Hin.
    rewrite boxes_of_cons, (String.eqb_sym (fst i) f). exact Hin. }
  assert (Hnm : forall f, In f (map fst (group_rows (i :: d))) <->
                          In f (map fst (i :: d))).
  { intros f. cbn [group_rows map]. split.
    - intros H. rewrite Forall_forall in S2. destruct (S2 f H) as [->|[_ H']];
        [now left|now right].
    - apply group_from_names. }
  assert (Hlast : last (map fst (group_rows (i :: d))) ""%string
                  = last (map fst (i :: d)) ""%string).
  { cbn [group_rows]. 
    pose proof (last_map fst (group_from (fst i) [snd i] d)
                  (""%string, @nil Box)) as L.
    cbn [fst] in L. rewrite L.
    rewrite group_from_last. cbn [map]. now rewrite last_cons_default. }
  set (F := if last_line_alone (i :: d) then removelast (group_rows (i :: d))
            else group_rows (i :: d)) in *.
  assert (HF : forall x, In x F -> In x (group_rows (i :: d))).
  { intros x. unfold F. destruct (last_line_alone (i :: d));
      [apply removelast_incl|auto]. }
  rewrite A, B. split; [|split; [|split]].
  - unfold F. destruct (last_line_alone (i :: d)); [|exact S1].
    rewrite map_removelast. cbn [group_rows].
    revert S1. generalize (map fst (group_from (fst i) [snd i] d)).
    intros l Hl. induction Hl as [|a l Hl IH Hf]; [constructor|].
    destruct l as [|b l]; [constructor|].
    rewrite removelast_cons by discriminate.
    constructor; [exact IH|].
    rewrite Forall_forall in *. intros x Hx. apply Hf.
    now apply removelast_incl.
  - now rewrite !length_map.
  - intros f. unfold F. destruct (last_line_alone (i :: d)) eqn:El.
    + rewrite map_removelast.
      rewrite (In_removelast _ ""%string f).
      * rewrite Hnm, Hlast. split; [intros [H1 H2]|intros [H1 H2]];
          (split; [exact H1|]); tauto.
      * apply strict_names_NoDup. exact S1.
      * cbn [group_rows]. intros E. apply map_eq_nil in E. exact (Hne E).
    + rewrite Hnm. split; [intros H; split; [exact H|]|tauto].
      intros [H1 _]. discriminate.
  - intros k f Hk. apply nth_error_map_inv in Hk.
    destruct Hk as ([f' bs] & E & Ef). cbn [fst] in Ef. subst f'.
    rewrite (map_nth_error snd _ _ E). cbn [snd]. f_equal.
    apply Hbox, HF. eapply nth_error_In; exact E.
Qed.

(* ================================================================== *)
(** ** The class map *)

Lemma dict_get_set_same k v d : dict_get k (dict_set k v d) = Some v.
Proof.
  induction d as [|[k' v'] d IH]; cbn; [now rewrite Z.eqb_refl|].
  destruct (k' =? k) eqn:E; cbn; [now rewrite Z.eqb_refl|now rewrite E].
Qed.

Lemma dict_get_set_other k k' v d :
  k' <> k -> dict_get k' (dict_set k v d) = dict_get k' d.
Proof.
  intros N. induction d as [|[k0 v0] d IH]; cbn.
  - destruct (k =? k') eqn:E; [apply Z.eqb_eq in E; congruence|reflexivity].
  - destruct (k0 =? k) eqn:E; cbn.
    + apply Z.eqb_eq in E. subst k0.
      destruct (k =? k') eqn:E'; [apply Z.eqb_eq in E'; congruence|reflexivity].
    + destruct (k0 =? k'); [reflexivity|exact IH].
Qed.

Lemma fold_class_map c : forall l s d,
  dict_get c
    (fold_left (fun d kv => dict_set (snd kv) (fst kv) d)
       (combine (seq s (length l)) l) d)
  = match last_index_from s c l with
    | Some k => Some k
    | None => dict_get c d
    end.
Proof.
  induction l as [|x l IH]; intros s d; [reflexivity|].
  cbn [length seq combine fold_left last_index_from fst snd].
  rewrite IH. destruct (last_index_from (S s) c l); [reflexivity|].
  destruct (x =? c) eqn:E.
  - apply Z.eqb_eq in E. subst. apply dict_get_set_same.
  - apply Z.eqb_neq in E. apply dict_get_set_other. congruence.
Qed.

Lemma last_index_from_spec c : forall l s k,
  last_index_from s c l = Some k <->
  (s <= k)%nat /\ nth_error l (k - s) = Some c /\
  (forall k', (k < k')%nat -> nth_error l (k' - s) <> Some c).
Proof.
  induction l as [|x l IH]; intros s k; cbn [last_index_from].
  - split; [discriminate|]. intros (_ & H & _). now destruct (k - s)%nat.
  - destruct (last_index_from (S s) c l) as [k0|] eqn:E.
    + apply IH in E. destruct E as (E1 & E2 & E3). split.
      * intros H. inversion H; subst k0. split; [lia|]. split.
        -- replace (k - s)%nat with (S (k - S s)) by lia. exact E2.
        -- intros k' Hk'. replace (k' - s)%nat with (S (k' - S s)) by lia.
           now apply E3.
      * intros (H1 & H2 & H3). f_equal.
        destruct (Nat.lt_trichotomy k0 k) as [Hlt|[Heq|Hgt]]; [|exact Heq|].
        -- exfalso. apply (E3 k Hlt).
           replace (k - s)%nat with (S (k - S s)) in H2 by lia. exact H2.
        -- exfalso. apply (H3 k0 Hgt).
           replace (k0 - s)%nat with (S (k0 - S s)) by lia. exact E2.
    + assert (Hnone : forall k', (s < k')%nat -> nth_error l (k' - S s) <> Some c).
      { intros k' Hk' Hn.
        assert (Hex : exists k1, last_index_from (S s) c l = Some k1).
        { clear IH E. revert Hn. generalize (k' - S s)%nat. generalize (S s).
          induction l as [|y l IHl]; intros s0 n Hn; [now destruct n|].
          cbn [last_index_from]. destruct n as [|n]; cbn in Hn.
          - inversion Hn; subst. rewrite Z.eqb_refl.
            destruct (last_index_from (S s0) c l); eauto.
          - destruct (IHl (S s0) n Hn) as (k1 & ->). eauto. }
        destruct Hex as (k1 & Hk1). congruence. }
      destruct (x =? c) eqn:Ex.
      * apply Z.eqb_eq in Ex. subst x. split.
        -- intros H. inversion H; subst k. split; [lia|].
           rewrite Nat.sub_diag. split; [reflexivity|].
           intros k' Hk'. replace (k' - s)%nat with (S (k' - S s)) by lia.
           now apply Hnone.
        -- intros (H1 & H2 & H3). f_equal.
           destruct (Nat.eq_dec s k) as [->|N]; [reflexivity|exfalso].
           replace (k - s)%nat with (S (k - S s)) in H2 by lia.
           apply (Hnone k); [lia|exact H2].
      * apply Z.eqb_neq in Ex. split; [discriminate|].
        intros (H1 & H2 & H3). exfalso.
        destruct (Nat.eq_dec s k) as [->|N].
        -- rewrite Nat.sub_diag in H2. cbn in H2. congruence.
        -- replace (k - s)%nat with (S (k - S s)) in H2 by lia.
           apply (Hnone k); [lia|exact H2].
Qed.

Lemma last_index_from_none c : forall l s,
  last_index_from s c l = None <-> ~ In c l.
Proof.
  induction l as [|x l IH]; intros s; cbn [last_index_from].
  - split; [auto|reflexivity].
  - destruct (last_index_from (S s) c l) eqn:E.
    + split; [discriminate|]. intros H. exfalso.
      assert (F : last_index_from (S s) c l = None)
        by (apply IH; intros Hin; apply H; now right).
      congruence.
    + apply IH in E. destruct (x =? c) eqn:Ex.
      * apply Z.eqb_eq in Ex. split; [discriminate|]. intros H. exfalso.
        apply H. now left.
      * apply Z.eqb_neq in Ex. split; [|reflexivity].
        intros _ [H|H]; [congruence|contradiction].
Qed.

(** The class map sends a class to its last position in
    [include_classes]. *)
Lemma make_class_map_get classes c :
  dict_get c (make_class_map classes) = last_index_from 0 c classes.
Proof.
  unfold make_class_map, enumerate. rewrite fold_class_map.
  now destruct (last_index_from 0 c classes).
Qed.

Lemma int_in_In x l : int_in x l = true <-> In x l.
Proof.
  unfold int_in. rewrite existsb_exists. split.
  - intros (y & Hy & E). apply Z.eqb_eq in E. now subst.
  - intros H. exists x. split; [exact H|apply Z.eqb_refl].
Qed.

(* ================================================================== *)
(** ** The first loop of [parse_csv] *)

Section ParserFacts.

Variable strip : string -> string.
Variable int_of_str : string -> option Z.

Lemma parse_line_ext s1 s2 fmt i :
  include_classes s1 = include_classes s2 -> class_map s1 = class_map s2 ->
  parse_line strip int_of_str s1 fmt i = parse_line strip int_of_str s2 fmt i.
Proof. intros H1 H2. unfold parse_line. now rewrite H1, H2. Qed.

Lemma parse_lines_ext s1 s2 fmt lines :
  include_classes s1 = include_classes s2 -> class_map s1 = class_map s2 ->
  parse_lines strip int_of_str s1 fmt lines = parse_lines strip int_of_str s2 fmt lines.
Proof.
  intros H1 H2. induction lines as [|i lines IH]; [reflexivity|].
  cbn [parse_lines]. now rewrite IH, (parse_line_ext s1 s2).
Qed.

Lemma parse_lines_cons self fmt i lines data :
  parse_lines strip int_of_str self fmt (i :: lines) = inr data ->
  exists o data',
    parse_line strip int_of_str self fmt i = inr o /\
    parse_lines strip int_of_str self fmt lines = inr data' /\
    data = match o with Some obj => obj :: data' | None => data' end.
Proof.
  cbn [parse_lines]. unfold and_then.
  destruct (parse_line strip int_of_str self fmt i) as [e|o]; [discriminate|].
  destruct (parse_lines strip int_of_str self fmt lines) as [e|data']; [discriminate|].
  intros H. inversion H. eauto.
Qed.

Lemma parse_lines_build self fmt i lines o data' :
  parse_line strip int_of_str self fmt i = inr o ->
  parse_lines strip int_of_str self fmt lines = inr data' ->
  parse_lines strip int_of_str self fmt (i :: lines)
    = inr (match o with Some obj => obj :: data' | None => data' end).
Proof. intros H1 H2. cbn [parse_lines]. unfold and_then. now rewrite H1, H2. Qed.

(** The objects parsed from a permutation of the lines are a permutation
    of the objects parsed from the lines. *)
Lemma parse_lines_perm self fmt lines lines' :
  Permutation lines lines' ->
  forall data, parse_lines strip int_of_str self fmt lines = inr data ->
  exists data', parse_lines strip int_of_str self fmt lines' = inr data' /\
                Permutation data data'.
Proof.
  induction 1 as [|i l l' P IH|i j l|l1 l2 l3 P1 IH1 P2 IH2]; intros data H.
  - exists data. split; [exact H|reflexivity].
  - apply parse_lines_cons in H. destruct H as (o & d1 & H1 & H2 & ->).
    destruct (IH _ H2) as (d1' & H3 & P').
    eexists. split; [apply parse_lines_build; eassumption|].
    destruct o; [now constructor|exact P'].
  - apply parse_lines_cons in H. destruct H as (o1 & d1 & H1 & H2 & ->).
    apply parse_lines_cons in H2. destruct H2 as (o2 & d2 & H2 & H3 & ->).
    eexists. split.
    + apply parse_lines_build; [eassumption|].
      apply parse_lines_build; eassumption.
    + destruct o1, o2; try reflexivity. apply perm_swap.
  - destruct (IH1 _ H) as (d2 & H2 & P2'). destruct (IH2 _ H2) as (d3 & H3 & P3').
    exists d3. split; [exact H3|]. etransitivity; eassumption.
Qed.

Lemma parse_lines_In self fmt : forall lines data obj,
  parse_lines strip int_of_str self fmt lines = inr data ->
  In obj data ->
  exists i, In i lines /\ parse_line strip int_of_str self fmt i = inr (Some obj).
Proof.
  induction lines as [|i lines IH]; intros data obj H Hin.
  - inversion H; subst. destruct Hin.
  - apply parse_lines_cons in H. destruct H as (o & d1 & H1 & H2 & ->).
    destruct o as [obj'|].
    + destruct Hin as [->|Hin].
      * exists i. split; [now left|exact H1].
      * destruct (IH _ _ H2 Hin) as (i' & Hi' & E). exists i'. split; [now right|exact E].
    + destruct (IH _ _ H2 Hin) as (i' & Hi' & E). exists i'. split; [now right|exact E].
Qed.

(** The first line that fails decides the exception. *)
Lemma parse_lines_first_error self fmt : forall lines1 i lines2 data1 e,
  parse_lines strip int_of_str self fmt lines1 = inr data1 ->
  parse_line strip int_of_str self fmt i = inl e ->
  parse_lines strip int_of_str self fmt (lines1 ++ i :: lines2) = inl e.
Proof.
  induction lines1 as [|j lines1 IH]; intros i lines2 data1 e H1 H2.
  - cbn [app parse_lines]. unfold and_then. now rewrite H2.
  - apply parse_lines_cons in H1. destruct H1 as (o & d1 & H1 & H3 & ->).
    cbn [app parse_lines]. unfold and_then. rewrite H1.
    now rewrite (IH i lines2 d1 e H3 H2).
Qed.

(** A line of a constructed generator that is kept: its class is among
    [include_classes], and its [class_id] is the last position of that
    class. *)
Lemma parse_line_kept classes fmt i f b :
  parse_line strip int_of_str (new_generator classes) fmt i = inr (Some (f, b)) ->
  exists c,
    int_cell strip int_of_str fmt i "class_id" = inr c /\ In c classes /\
    cell strip fmt i "image_name" = inr f /\
    last_index_from 0 c classes = Some (Z.to_nat (class_id b)) /\
    0 <= class_id b /\
    int_cell strip int_of_str fmt i "xmin" = inr (xmin b) /\
    int_cell strip int_of_str fmt i "xmax" = inr (xmax b) /\
    int_cell strip int_of_str fmt i "ymin" = inr (ymin b) /\
    int_cell strip int_of_str fmt i "ymax" = inr (ymax b).
Proof.
  unfold parse_line, new_generator. cbn [include_classes class_map]. unfold and_then.
  destruct (int_cell strip int_of_str fmt i "class_id") as [e|c] eqn:Ec; [discriminate|].
  destruct (int_in c classes) eqn:Hin; [|discriminate].
  destruct (cell strip fmt i "image_name") as [e|f'] eqn:Ef; [discriminate|].
  rewrite make_class_map_get.
  destruct (last_index_from 0 c classes) as [k|] eqn:Ek; [|discriminate].
  destruct (int_cell strip int_of_str fmt i "xmin") as [e|x0]; [discriminate|].
  destruct (int_cell strip int_of_str fmt i "xmax") as [e|x1]; [discriminate|].
  destruct (int_cell strip int_of_str fmt i "ymin") as [e|y0]; [discriminate|].
  destruct (int_cell strip int_of_str fmt i "ymax") as [e|y1]; [discriminate|].
  intros H. inversion H; subst. cbn [class_id xmin xmax ymin ymax].
  exists c. rewrite Nat2Z.id. apply int_in_In in Hin.
  repeat split; auto. lia.
Qed.

(** A line whose class is not among [include_classes] is skipped, whatever
    its other cells hold. *)
Lemma parse_line_skipped classes fmt i c :
  int_cell strip int_of_str fmt i "class_id" = inr c -> ~ In c classes ->
  parse_line strip int_of_str (new_generator classes) fmt i = inr None.
Proof.
  intros Ec Hn. unfold parse_line, new_generator. cbn [include_classes class_map].
  unfold and_then. rewrite Ec.
  destruct (int_in c classes) eqn:Hin; [|reflexivity].
  apply int_in_In in Hin. contradiction.
Qed.

(* ---------------------------------------------------------------- *)
(** *** Invariants of the second loop *)

Lemma compile_step_inv src n st idx i :
  In (snd i) src -> compile_inv src st -> compile_inv src (compile_step n st idx i).
Proof.
  intros Hi (L & N & C & I1 & I2). unfold compile_step.
  assert (Hcl : incl (current_labels st ++ [snd i]) src).
  { intros x Hx. apply in_app_or in Hx. destruct Hx as [Hx|[<-|[]]]; auto. }
  assert (Hne : current_labels st ++ [snd i] <> [])
    by (intros E; apply app_eq_nil in E; destruct E; discriminate).
  destruct (String.eqb (current_file st) "") eqn:Ecf;
    [destruct (n =? 1)%nat
    |destruct (String.eqb (fst i) (current_file st));
       [destruct (idx =? n - 1)%nat|]];
    unfold compile_inv, append_sample, set_data;
    cbn [compile_self current_file current_labels labels filenames];
    rewrite ?length_app, ?Forall_app; cbn [length];
    repeat split; auto; try lia;
    try (constructor; [|constructor]; auto);
    try (intros _; discriminate);
    try (apply C; now apply String.eqb_neq);
    try (intros x [<-|[]]; exact Hi).
Qed.

Lemma compile_from_inv src n : forall data idx st,
  incl (map snd data) src -> compile_inv src st ->
  compile_inv src (compile_from n idx st data).
Proof.
  induction data as [|i data IH]; intros idx st Hs H; [exact H|].
  cbn [compile_from]. apply IH.
  - intros x Hx. apply Hs. now right.
  - apply compile_step_inv; [|exact H]. apply Hs. now left.
Qed.

(** The result of the loop depends on [self] only through its two
    lists. *)
Lemma compile_from_ext n : forall data idx st st',
  current_file st = current_file st' -> current_labels st = current_labels st' ->
  filenames (compile_self st) = filenames (compile_self st') ->
  labels (compile_self st) = labels (compile_self st') ->
  filenames (compile_self (compile_from n idx st data))
    = filenames (compile_self (compile_from n idx st' data)) /\
  labels (compile_self (compile_from n idx st data))
    = labels (compile_self (compile_from n idx st' data)).
Proof.
  induction data as [|i data IH]; intros idx st st' H1 H2 H3 H4; [now split|].
  cbn [compile_from]. apply IH; unfold compile_step; rewrite <- ?H1, <- ?H2;
    destruct (String.eqb (current_file st) "");
    try destruct (n =? 1)%nat;
    try destruct (String.eqb (fst i) (current_file st));
    try destruct (idx =? n - 1)%nat;
    unfold append_sample, set_data;
    cbn [compile_self current_file current_labels labels filenames];
    congruence.
Qed.

End ParserFacts.

(* ================================================================== *)
(** ** The dataset that the constructor builds *)

Section ParserTheorems.

Variable strip : string -> string.
Variable int_of_str : string -> option Z.

(** The generator before the second loop of [parse_csv]. *)
Lemma init_run read_csv path fmt classes lines data :
  read_csv path = Some lines ->
  parse_lines strip int_of_str (new_generator classes) fmt (tl lines) = inr data ->
  let self1 := mkBatchGenerator (make_class_map classes) (Some classes)
                 (Some path) (Some fmt) [] [] None in
  let self2 := compile_samples self1 (py_sorted data) in
  init strip int_of_str read_csv (Some path) (Some fmt) (Some classes)
  = inr (mkBatchGenerator (make_class_map classes) (Some classes)
           (Some path) (Some fmt) (filenames self2) (labels self2)
           (Some (length (filenames self2)))).
Proof.
  intros Hr Hp self1 self2. unfold init, parse_csv.
  cbn [labels_path input_format class_map include_classes count new_generator].
  rewrite Hr. fold self1.
  rewrite (parse_lines_ext strip int_of_str self1 (new_generator classes))
    by reflexivity.
  rewrite Hp. cbn [and_then]. fold self2.
  destruct (compile_from_frame (length (py_sorted data)) (py_sorted data) 0
              (mkCompile "" [] self1)) as (A & B & C & D & _).
  fold (compile_samples self1 (py_sorted data)) in A, B, C, D. fold self2 in A, B, C, D.
  cbn [compile_self] in A, B, C, D. now rewrite A, B, C, D.
Qed.

Lemma init_inv read_csv lp fo co g :
  init strip int_of_str read_csv lp fo co = inr g ->
  exists path fmt classes lines data,
    lp = Some path /\ fo = Some fmt /\ co = Some classes /\
    read_csv path = Some lines /\
    parse_lines strip int_of_str (new_generator classes) fmt (tl lines) = inr data.
Proof.
  unfold init. destruct co as [classes|]; [|discriminate].
  unfold parse_csv. cbn [labels_path input_format new_generator].
  destruct lp as [path|]; [|discriminate]. destruct fo as [fmt|]; [|discriminate].
  destruct (read_csv path) as [lines|] eqn:Hr; [|discriminate].
  cbn [class_map include_classes count].
  match goal with
  | |- context [parse_lines strip int_of_str ?s fmt (tl lines)] =>
      rewrite (parse_lines_ext strip int_of_str s (new_generator classes))
        by reflexivity
  end.
  destruct (parse_lines strip int_of_str (new_generator classes) fmt (tl lines))
    as [e|data] eqn:Hp; [discriminate|].
  intros _. exists path, fmt, classes, lines, data. auto.
Qed.

Lemma last_In {A : Type} (l : list A) (d : A) : l <> [] -> In (last l d) l.
Proof.
  intros H. rewrite (app_removelast_last d H) at 2.
  apply in_or_app. right. now left.
Qed.

Lemma sorted_data_names data :
  Forall (fun i : Obj => fst i <> ""%string) data ->
  Forall (fun i : Obj => fst i <> ""%string) (py_sorted data).
Proof.
  intros H. eapply Permutation_Forall; [symmetry; apply py_sorted_perm|exact H].
Qed.

Lemma sorted_data_In f data :
  In f (map fst (py_sorted data)) <-> In f (map fst data).
Proof.
  split; apply Permutation_in, Permutation_map;
    [apply py_sorted_perm|symmetry; apply py_sorted_perm].
Qed.

(** X1. When every line after the header parses and the image names are
    not empty, the constructor succeeds and the dataset lists its images in
    strictly ascending order of their names, each of them an image of the
    file, and the box array at the position of an image holds all the boxes
    of that image that were kept, in the order of the sorted lines. *)
Theorem parsed_images_hold_all_their_boxes read_csv path fmt classes lines data :
  read_csv path = Some lines ->
  parse_lines strip int_of_str (new_generator classes) fmt (tl lines) = inr data ->
  Forall (fun i => fst i <> ""%string) data ->
  exists g,
    init strip int_of_str read_csv (Some path) (Some fmt) (Some classes) = inr g /\
    StronglySorted name_lt (filenames g) /\
    NoDup (filenames g) /\
    (forall f, In f (filenames g) -> In f (map fst data)) /\
    (forall k f, nth_error (filenames g) k = Some f ->
                 nth_error (labels g) k = Some (boxes_of f (py_sorted data)) /\
                 boxes_of f (py_sorted data) <> []).
Proof.
  intros Hr Hp Hn. eexists. split; [exact (init_run _ _ _ _ _ _ Hr Hp)|].
  cbn [filenames labels].
  match goal with
  | |- context [compile_samples ?s _] =>
      destruct (compile_samples_sorted s (py_sorted data) eq_refl eq_refl
                  (py_sorted_sorted data) (sorted_data_names data Hn))
        as (A & B & C & D)
  end.
  split; [exact A|]. split; [now apply strict_names_NoDup|]. split.
  - intros f Hf. apply C in Hf. destruct Hf as [Hf _]. now apply sorted_data_In.
  - intros k f Hk. split; [now apply D|].
    apply boxes_of_present. apply (C f). eapply nth_error_In; exact Hk.
Qed.

(** X2. Which images the dataset holds: every image of the lines that
    were kept, but for one case.  When the sorted lines end with a line
    whose image name differs from the name of the line before it (the image
    that sorts last has one box only, and is not the only line), that image
    is left out of [filenames] and [labels]. *)
Theorem last_single_line_image_is_left_out read_csv path fmt classes lines data :
  read_csv path = Some lines ->
  parse_lines strip int_of_str (new_generator classes) fmt (tl lines) = inr data ->
  Forall (fun i => fst i <> ""%string) data ->
  exists g,
    init strip int_of_str read_csv (Some path) (Some fmt) (Some classes) = inr g /\
    (forall f, In f (filenames g) <->
               In f (map fst data) /\
               ~ (last_line_alone (py_sorted data) = true /\
                  f = last (map fst (py_sorted data)) ""%string)) /\
    (last_line_alone (py_sorted data) = true ->
     In (last (map fst (py_sorted data)) ""%string) (map fst data) /\
     ~ In (last (map fst (py_sorted data)) ""%string) (filenames g)).
Proof.
  intros Hr Hp Hn. eexists. split; [exact (init_run _ _ _ _ _ _ Hr Hp)|].
  cbn [filenames labels].
  match goal with
  | |- context [compile_samples ?s _] =>
      destruct (compile_samples_sorted s (py_sorted data) eq_refl eq_refl
                  (py_sorted_sorted data) (sorted_data_names data Hn))
        as (A & B & C & D)
  end.
  assert (M : forall f, In f (filenames
                (compile_samples
                   (mkBatchGenerator (make_class_map classes) (Some classes)
                      (Some path) (Some fmt) [] [] None) (py_sorted data))) <->
              In f (map fst data) /\
              ~ (last_line_alone (py_sorted data) = true /\
                 f = last (map fst (py_sorted data)) ""%string)).
  { intros f. rewrite (C f), sorted_data_In. reflexivity. }
  split; [exact M|]. intros Hl. split.
  - apply sorted_data_In. apply last_In.
    destruct (py_sorted data); [discriminate|]. discriminate.
  - intros Hin. apply M in Hin. destruct Hin as [_ Hin]. apply Hin. auto.
Qed.

End ParserTheorems.

Lemma map_fst_combine {A B : Type} : forall (l1 : list A) (l2 : list B),
  length l2 = length l1 -> map fst (combine l1 l2) = l1 /\ map snd (combine l1 l2) = l2.
Proof.
  induction l1 as [|a l1 IH]; intros [|b l2] H; try discriminate; [now split|].
  cbn in *. destruct (IH l2) as [E1 E2]; [lia|]. now rewrite E1, E2.
Qed.

(** The generator on an empty dataset: every iteration reshuffles, loads
    nothing and yields an empty batch. *)
Lemma yields_empty {Target : Type} image_open histogram_eq cv2_resize cv2_gray
    (cfg : Config Target) :
  train cfg = false ->
  forall n c o s,
    yields image_open histogram_eq cv2_resize cv2_gray cfg n (mkCursor [] c) o s
    = (concat (repeat [EvShuffle; EvYield] n),
       inr (repeat (InferBatch [] [] []) n,
            mkRng (n_uniform s) (n_randint s) (n + n_shuffle s))).
Proof.
  intros Ht. induction n as [|n IH]; intros c o s.
  - cbn. now destruct s.
  - cbn [yields]. unfold bind at 1.
    assert (E : next_batch image_open histogram_eq cv2_resize cv2_gray cfg
                  (mkCursor [] c) o s
                = ([EvShuffle; EvYield],
                   inr ((InferBatch [] [] [], mkCursor [] (0 + batch_size cfg)),
                        mkRng (n_uniform s) (n_randint s) (S (n_shuffle s))))).
    { unfold next_batch. rewrite Ht. unfold bind at 1.
      rewrite select_window_run. cbn [dataset current length Nat.leb].
      destruct (shuffle_seed o (n_shuffle s)); cbn [shuffle];
        unfold window; rewrite skipn_nil, firstn_nil; cbn; reflexivity. }
    rewrite E. unfold bind. rewrite IH. cbn [n_uniform n_randint n_shuffle].
    unfold ret. cbn [repeat concat app]. rewrite app_nil_r.
    replace (n + S (n_shuffle s))%nat with (S n + n_shuffle s)%nat by lia.
    reflexivity.
Qed.

Section ParserTheorems2.

Variable strip : string -> string.
Variable int_of_str : string -> option Z.

(** X3. The dataset does not depend on the order of the lines of the
    file, nor on its header: a file whose lines after the first are a
    permutation of those of another gives the same generator. *)
Theorem line_order_is_irrelevant read_csv read_csv' path fmt classes
    header header' lines lines' g :
  read_csv path = Some (header :: lines) ->
  read_csv' path = Some (header' :: lines') ->
  Permutation lines lines' ->
  init strip int_of_str read_csv (Some path) (Some fmt) (Some classes) = inr g ->
  init strip int_of_str read_csv' (Some path) (Some fmt) (Some classes) = inr g.
Proof.
  intros Hr Hr' P H.
  destruct (init_inv _ _ _ _ _ _ _ H) as (p & f & c & l & data & E1 & E2 & E3 & E4 & E5).
  inversion E1; inversion E2; inversion E3; subst p f c.
  rewrite Hr in E4. inversion E4; subst l. cbn [tl] in E5.
  rewrite (init_run strip int_of_str read_csv path fmt classes _ data Hr E5) in H.
  destruct (parse_lines_perm strip int_of_str _ _ _ _ P _ E5) as (data' & E6 & P').
  rewrite (init_run strip int_of_str read_csv' path fmt classes _ data' Hr' E6).
  rewrite <- (py_sorted_permutation _ _ P'). exact H.
Qed.

(** X4. Class ids.  Every box of the dataset is the box of a line of the
    file, and it carries as [class_id] a position of [include_classes]: the
    last one at which the class of that line occurs.  When the image names
    of the lines that are kept are not empty, that line is a line of the
    image under which the box is filed.  A line whose class is not among
    [include_classes] is skipped without a look at its other cells, and the
    look-up in the class map never fails. *)
Theorem class_ids_are_positions_in_include_classes read_csv path fmt classes lines g :
  read_csv path = Some lines ->
  init strip int_of_str read_csv (Some path) (Some fmt) (Some classes) = inr g ->
  (forall bs b, In bs (labels g) -> In b bs ->
     exists i f c,
       In i (tl lines) /\
       parse_line strip int_of_str (new_generator classes) fmt i = inr (Some (f, b)) /\
       int_cell strip int_of_str fmt i "class_id" = inr c /\ In c classes /\
       0 <= class_id b < Z.of_nat (length classes) /\
       nth_error classes (Z.to_nat (class_id b)) = Some c /\
       (forall k, (Z.to_nat (class_id b) < k)%nat -> nth_error classes k <> Some c)) /\
  ((forall i f b, In i (tl lines) ->
      parse_line strip int_of_str (new_generator classes) fmt i = inr (Some (f, b)) ->
      f <> ""%string) ->
   forall k f bs b,
     nth_error (filenames g) k = Some f -> nth_error (labels g) k = Some bs ->
     In b bs ->
     exists i c,
       In i (tl lines) /\
       parse_line strip int_of_str (new_generator classes) fmt i = inr (Some (f, b)) /\
       cell strip fmt i "image_name" = inr f /\
       int_cell strip int_of_str fmt i "class_id" = inr c /\
       nth_error classes (Z.to_nat (class_id b)) = Some c /\
       (forall k', (Z.to_nat (class_id b) < k')%nat -> nth_error classes k' <> Some c)) /\
  (forall fmt' i c,
     int_cell strip int_of_str fmt' i "class_id" = inr c -> ~ In c classes ->
     parse_line strip int_of_str (new_generator classes) fmt' i = inr None) /\
  (forall fmt' i k,
     parse_line strip int_of_str (new_generator classes) fmt' i <> inl (KeyError k)).
Proof.
  intros Hr H.
  destruct (init_inv _ _ _ _ _ _ _ H) as (p & f0 & c0 & l & data & E1 & E2 & E3 & E4 & E5).
  inversion E1; subst p. inversion E2; subst f0. inversion E3; subst c0.
  rewrite Hr in E4. inversion E4; subst l. clear E1 E2 E3 E4.
  rewrite (init_run strip int_of_str read_csv path fmt classes _ data Hr E5) in H.
  inversion H; subst g. clear H. cbn [labels filenames].
  assert (Hline : forall f b, In (f, b) data ->
            exists i c,
              In i (tl lines) /\
              parse_line strip int_of_str (new_generator classes) fmt i
                = inr (Some (f, b)) /\
              cell strip fmt i "image_name" = inr f /\
              int_cell strip int_of_str fmt i "class_id" = inr c /\ In c classes /\
              0 <= class_id b < Z.of_nat (length classes) /\
              nth_error classes (Z.to_nat (class_id b)) = Some c /\
              (forall k, (Z.to_nat (class_id b) < k)%nat ->
                         nth_error classes k <> Some c)).
  { intros f b I.
    destruct (parse_lines_In strip int_of_str _ _ _ _ _ E5 I) as (i & Hi & Hp).
    pose proof Hp as Hk. apply parse_line_kept in Hk.
    destruct Hk as (c & Hc & Hin & Hf & Hk & Hpos & _).
    apply last_index_from_spec in Hk. rewrite Nat.sub_0_r in Hk.
    destruct Hk as (_ & Hn & Hlast).
    assert (Hlt : (Z.to_nat (class_id b) < length classes)%nat)
      by (apply nth_error_Some; congruence).
    exists i, c. repeat split; auto; try lia.
    intros k Hk. specialize (Hlast k Hk). now rewrite Nat.sub_0_r in Hlast. }
  split; [|split; [|split]].
  - intros bs b Hbs Hb.
    match type of Hbs with
    | In bs (labels (compile_samples ?s ?d)) =>
        pose proof (compile_from_inv (map snd d) (length d) d 0 (mkCompile "" [] s)
                      (incl_refl _)) as Inv
    end.
    destruct Inv as (_ & _ & _ & I & _).
    { unfold compile_inv. cbn. repeat split; auto. intros x []. }
    rewrite Forall_forall in I. specialize (I bs Hbs b Hb).
    apply in_map_iff in I. destruct I as ([f' b'] & Eb & I). cbn in Eb. subst b'.
    apply (Permutation_in _ (py_sorted_perm data)) in I.
    destruct (Hline f' b I) as (i & c & A1 & A2 & _ & A4 & A5 & A6 & A7 & A8).
    exists i, f', c. repeat split; auto; lia.
  - intros Hnames k f bs b Hk Hl Hb.
    assert (Hn : Forall (fun i : Obj => fst i <> ""%string) data).
    { apply Forall_forall. intros [f' b'] I. cbn [fst].
      destruct (Hline f' b' I) as (i & c & A1 & A2 & _). exact (Hnames i f' b' A1 A2). }
    match type of Hk with
    | nth_error (filenames (compile_samples ?s ?d)) k = _ =>
        destruct (compile_samples_sorted s d eq_refl eq_refl
                    (py_sorted_sorted data) (sorted_data_names data Hn))
          as (_ & _ & _ & D)
    end.
    rewrite (D k f Hk) in Hl. inversion Hl; subst bs. clear Hl.
    unfold boxes_of in Hb. apply in_map_iff in Hb.
    destruct Hb as ([f' b'] & Eb & I). cbn [snd] in Eb. subst b'.
    apply filter_In in I. destruct I as [I Ef]. cbn [fst] in Ef.
    apply String.eqb_eq in Ef. subst f'.
    apply (Permutation_in _ (py_sorted_perm data)) in I.
    destruct (Hline f b I) as (i & c & A1 & A2 & A3 & A4 & _ & _ & A7 & A8).
    exists i, c. repeat split; auto.
  - intros fmt' i c. apply parse_line_skipped.
  - intros fmt' i k. unfold parse_line, new_generator.
    cbn [include_classes class_map]. unfold and_then.
    destruct (int_cell strip int_of_str fmt' i "class_id") as [e|c] eqn:Ec.
    + intros E. inversion E; subst e. unfold int_cell, and_then, cell in Ec.
      destruct (list_index "class_id" fmt'); [|discriminate].
      destruct (nth_error i n); [|discriminate].
      destruct (int_of_str (strip s)); discriminate.
    + destruct (int_in c classes) eqn:Hin; [|discriminate].
      destruct (cell strip fmt' i "image_name") as [e|f'] eqn:Ef.
      { intros E. inversion E; subst e. unfold cell in Ef.
        destruct (list_index "image_name" fmt'); [|discriminate].
        destruct (nth_error i n); discriminate. }
      rewrite make_class_map_get.
      destruct (last_index_from 0 c classes) as [k0|] eqn:Ek.
      * assert (G : forall item, int_cell strip int_of_str fmt' i item <> inl (KeyError k)).
        { intros item. unfold int_cell, and_then, cell.
          destruct (list_index item fmt'); [|discriminate].
          destruct (nth_error i n); [|discriminate].
          destruct (int_of_str (strip s)); discriminate. }
        destruct (int_cell strip int_of_str fmt' i "xmin") as [e|x0] eqn:E0;
          [intros E; inversion E; subst e; exact (G _ E0)|].
        destruct (int_cell strip int_of_str fmt' i "xmax") as [e|x1] eqn:E1;
          [intros E; inversion E; subst e; exact (G _ E1)|].
        destruct (int_cell strip int_of_str fmt' i "ymin") as [e|y0] eqn:E2;
          [intros E; inversion E; subst e; exact (G _ E2)|].
        destruct (int_cell strip int_of_str fmt' i "ymax") as [e|y1] eqn:E3;
          [intros E; inversion E; subst e; exact (G _ E3)|].
        discriminate.
      * apply last_index_from_none in Ek. apply int_in_In in Hin. contradiction.
Qed.

(** X5. The two lists of a constructed generator are parallel:
    [labels] has one box array per file name, [count] and
    [get_n_samples()] are their common length, and no box array is
    empty. *)
Theorem parsed_dataset_is_parallel read_csv lp fo co g :
  init strip int_of_str read_csv lp fo co = inr g ->
  length (labels g) = length (filenames g) /\
  count g = Some (get_n_samples g) /\
  length (samples g) = get_n_samples g /\
  map fst (samples g) = filenames g /\
  map snd (samples g) = labels g /\
  Forall (fun bs => bs <> []) (labels g).
Proof.
  intros H.
  destruct (init_inv _ _ _ _ _ _ _ H) as (p & f & c & l & data & -> & -> & -> & E4 & E5).
  rewrite (init_run strip int_of_str read_csv p f c _ data E4 E5) in H.
  inversion H; subst g. clear H. unfold get_n_samples, samples.
  cbn [labels filenames count].
  match goal with
  | |- context [compile_samples ?s ?d] =>
      pose proof (compile_from_inv (map snd d) (length d) d 0 (mkCompile "" [] s)
                    (incl_refl _)) as Inv
  end.
  destruct Inv as (L & N & _ & _ & _).
  { unfold compile_inv. cbn. repeat split; auto. intros x []. }
  match goal with
  | |- context [compile_samples ?s ?d] =>
      fold (compile_samples s d) in L, N; set (S2 := compile_samples s d) in *
  end.
  destruct (map_fst_combine (filenames S2) (labels S2) L) as [M1 M2].
  split; [exact L|]. split; [reflexivity|]. split.
  - transitivity (length (map fst (combine (filenames S2) (labels S2))));
      [now rewrite length_map|now rewrite M1].
  - auto.
Qed.

(** X6. The failures of the constructor, in the order in which the code
    meets them: [include_classes=None] is a [TypeError] whatever the other
    arguments are; a missing [labels_path] or [input_format] is the
    [ValueError] of [parse_csv], raised before the file is opened; a file
    that cannot be opened is an [OSError]; otherwise the exception is that
    of the first line, in the order of the file, that fails to parse. *)
Theorem constructor_reports_first_failure read_csv :
  (forall lp fo, init strip int_of_str read_csv lp fo None = inl NotIterable) /\
  (forall fo classes,
     init strip int_of_str read_csv None fo (Some classes) = inl MissingArguments) /\
  (forall lp classes,
     init strip int_of_str read_csv lp None (Some classes) = inl MissingArguments) /\
  (forall path fmt classes,
     read_csv path = None ->
     init strip int_of_str read_csv (Some path) (Some fmt) (Some classes)
       = inl (FileError path)) /\
  (forall path fmt classes header lines1 i lines2 data1 e,
     read_csv path = Some (header :: lines1 ++ i :: lines2) ->
     parse_lines strip int_of_str (new_generator classes) fmt lines1 = inr data1 ->
     parse_line strip int_of_str (new_generator classes) fmt i = inl e ->
     init strip int_of_str read_csv (Some path) (Some fmt) (Some classes) = inl e).
Proof.
  split; [reflexivity|]. split; [reflexivity|]. split.
  { intros [p|] classes; reflexivity. }
  split.
  - intros path fmt classes Hr. unfold init, parse_csv. cbn. now rewrite Hr.
  - intros path fmt classes header lines1 i lines2 data1 e Hr H1 H2.
    unfold init, parse_csv. cbn [labels_path input_format new_generator].
    rewrite Hr. cbn [tl class_map include_classes count].
    match goal with
    | |- context [parse_lines strip int_of_str ?s fmt _] =>
        rewrite (parse_lines_ext strip int_of_str s (new_generator classes))
          by reflexivity
    end.
    now rewrite (parse_lines_first_error strip int_of_str _ _ _ _ _ _ _ H1 H2).
Qed.

(** X7. A file without a line after its header gives an empty dataset,
    whatever [input_format] and [include_classes] are, and [generate] on it
    never fails: in inference mode every iteration reshuffles, opens no
    image and yields an empty batch. *)
Theorem header_only_file_gives_empty_batches read_csv path fmt classes lines
    (Target : Type) (image_open : string -> option Image)
    (histogram_eq : Image -> Image) (cv2_resize : Image -> Z * Z -> option Image)
    (cv2_gray : Image -> Image) (cfg : Config Target) :
  read_csv path = Some lines -> (length lines <= 1)%nat -> train cfg = false ->
  exists g,
    init strip int_of_str read_csv (Some path) (Some fmt) (Some classes) = inr g /\
    filenames g = [] /\ labels g = [] /\ get_n_samples g = 0%nat /\
    forall n o s,
      generate image_open histogram_eq cv2_resize cv2_gray cfg (samples g) n o s
      = (EvShuffle :: concat (repeat [EvShuffle; EvYield] n),
         inr (repeat (InferBatch [] [] []) n,
              mkRng (n_uniform s) (n_randint s) (S n + n_shuffle s))).
Proof.
  intros Hr Hl Ht.
  assert (Hp : parse_lines strip int_of_str (new_generator classes) fmt (tl lines)
               = inr []).
  { destruct lines as [|h [|i lines]]; cbn in *; try reflexivity. lia. }
  eexists. split; [exact (init_run _ _ _ _ _ _ _ _ Hr Hp)|].
  cbn [py_sorted fold_right compile_samples compile_from length compile_self
       filenames labels].
  split; [reflexivity|]. split; [reflexivity|]. split; [reflexivity|].
  intros n o s. unfold samples. cbn [filenames labels combine].
  unfold generate, generate_start, bind, random_shuffle, ret.
  destruct (shuffle_seed o (n_shuffle s)); cbn [shuffle app];
    rewrite (yields_empty image_open histogram_eq cv2_resize cv2_gray cfg Ht);
    cbn [n_uniform n_randint n_shuffle app];
    replace (n + S (n_shuffle s))%nat with (S n + n_shuffle s)%nat by lia;
    reflexivity.
Qed.

(** X8. [parse_csv()] without arguments on a constructed generator reads
    the stored path with the stored format again; while the file is
    unchanged, the generator it leaves is the one it started from. *)
Theorem reparse_without_arguments_is_idempotent read_csv lp fo co g :
  init strip int_of_str read_csv lp fo co = inr g ->
  parse_csv strip int_of_str read_csv g None None = inr g.
Proof.
  intros H.
  destruct (init_inv _ _ _ _ _ _ _ H) as (p & f & c & l & data & -> & -> & -> & E4 & E5).
  rewrite (init_run strip int_of_str read_csv p f c _ data E4 E5) in H.
  inversion H; subst g. clear H.
  unfold parse_csv. cbn [labels_path input_format class_map include_classes count].
  rewrite E4.
  match goal with
  | |- context [parse_lines strip int_of_str ?s f _] =>
      rewrite (parse_lines_ext strip int_of_str s (new_generator c)) by reflexivity
  end.
  rewrite E5. cbn [and_then].
  match goal with
  | |- inr (mkBatchGenerator _ _ _ _ (filenames (compile_samples ?s1 ?d)) _ _)
       = inr (mkBatchGenerator _ _ _ _ (filenames (compile_samples ?s2 _)) _ _) =>
      destruct (compile_from_ext (length d) d 0 (mkCompile "" [] s1)
                  (mkCompile "" [] s2) eq_refl eq_refl eq_refl eq_refl) as [F1 F2];
      destruct (compile_from_frame (length d) d 0 (mkCompile "" [] s1))
        as (A & B & C & D & _);
      fold (compile_samples s1 d) in F1, F2, A, B, C, D;
      fold (compile_samples s2 d) in F1, F2;
      cbn [compile_self class_map include_classes labels_path input_format] in A, B, C, D;
      rewrite A, B, C, D, F1, F2
  end.
  reflexivity.
Qed.

End ParserTheorems2.

(* ================================================================== *)
(** ** The removal of the marked batch items *)

Lemma insert_desc_perm j l : Permutation (insert_desc j l) (j :: l).
Proof.
  induction l as [|k l IH]; cbn; [reflexivity|].
  destruct (k <=? j)%nat; [reflexivity|].
  rewrite IH. apply perm_swap.
Qed.

Lemma sorted_reverse_perm l : Permutation (sorted_reverse l) l.
Proof.
  induction l as [|j l IH]; cbn; [reflexivity|].
  rewrite insert_desc_perm. now constructor.
Qed.

Lemma insert_desc_sorted j l :
  StronglySorted ge l -> StronglySorted ge (insert_desc j l).
Proof.
  induction 1 as [|k l Hs IH Hf]; cbn; [repeat constructor|].
  destruct (k <=? j)%nat eqn:E.
  - apply Nat.leb_le in E. constructor; [now constructor|].
    constructor; [lia|]. eapply Forall_impl; [|exact Hf]. cbn. intros. lia.
  - apply Nat.leb_gt in E. constructor; [exact IH|].
    eapply Permutation_Forall; [symmetry; apply insert_desc_perm|].
    constructor; [lia|exact Hf].
Qed.

Lemma sorted_reverse_sorted l : StronglySorted ge (sorted_reverse l).
Proof.
  induction l as [|j l IH]; cbn; [constructor|now apply insert_desc_sorted].
Qed.

Lemma sorted_NoDup_strict l :
  StronglySorted ge l -> NoDup l -> StronglySorted gt l.
Proof.
  induction 1 as [|k l Hs IH Hf]; intros Hn; [constructor|].
  inversion Hn; subst. constructor; [now apply IH|].
  rewrite Forall_forall in *. intros x Hx. specialize (Hf x Hx).
  assert (x <> k) by (intros ->; contradiction). lia.
Qed.

Lemma py_in_In x l : py_in x l = true <-> In x l.
Proof.
  unfold py_in. rewrite existsb_exists. split.
  - intros (y & Hy & E). apply Nat.eqb_eq in E. now subst.
  - intros H. exists x. split; [exact H|apply Nat.eqb_refl].
Qed.

Lemma py_in_perm x l l' : Permutation l l' -> py_in x l = py_in x l'.
Proof.
  intros P. destruct (py_in x l) eqn:E; symmetry.
  - apply py_in_In. apply py_in_In in E. eapply Permutation_in; eassumption.
  - destruct (py_in x l') eqn:E'; [|reflexivity].
    apply py_in_In in E'. apply Permutation_sym in P.
    assert (F : py_in x l = true)
      by (apply py_in_In; eapply Permutation_in; eassumption).
    congruence.
Qed.

Lemma keep_unmarked_ext {A : Type} rm rm' : forall (l : list A) i,
  (forall k, py_in k rm = py_in k rm') ->
  keep_unmarked rm i l = keep_unmarked rm' i l.
Proof.
  induction l as [|x l IH]; intros i H; [reflexivity|].
  cbn. rewrite <- H. now rewrite (IH (S i) H).
Qed.

Lemma keep_unmarked_below {A : Type} rm : forall (l : list A) i,
  Forall (fun k => (k < i)%nat) rm -> keep_unmarked rm i l = l.
Proof.
  induction l as [|x l IH]; intros i H; [reflexivity|].
  cbn. destruct (py_in i rm) eqn:E.
  - apply py_in_In in E. rewrite Forall_forall in H. specialize (H i E). lia.
  - f_equal. apply IH. eapply Forall_impl; [|exact H]. cbn. intros. lia.
Qed.

(** Popping position [j] and then dropping marks below it is dropping
    [j] and those marks. *)
Lemma keep_unmarked_pop {A : Type} js : forall (l : list A) j s,
  Forall (fun k => (k < s + j)%nat) js ->
  keep_unmarked js s (pop j l) = keep_unmarked ((s + j)%nat :: js) s l.
Proof.
  induction l as [|x l IH]; intros j s H; [now destruct j|].
  destruct j as [|j].
  - cbn [pop keep_unmarked]. 
    assert (E : py_in s ((s + 0)%nat :: js) = true)
      by (apply py_in_In; left; lia).
    rewrite E. rewrite Nat.add_0_r in *.
    rewrite keep_unmarked_below by exact H.
    symmetry. apply keep_unmarked_below.
    constructor; [lia|]. eapply Forall_impl; [|exact H]. cbn. intros. lia.
  - cbn [pop keep_unmarked].
    assert (E : py_in s ((s + S j)%nat :: js) = py_in s js).
    { unfold py_in. cbn [existsb].
      destruct (Nat.eqb_spec s (s + S j)); [lia|reflexivity]. }
    rewrite E.
    replace (s + S j)%nat with (S s + j)%nat by lia.
    rewrite (IH j (S s)) by (eapply Forall_impl; [|exact H]; cbn; intros; lia).
    reflexivity.
Qed.

Lemma pop_length {A : Type} : forall (l : list A) j,
  (j < length l)%nat -> length (pop j l) = (length l - 1)%nat.
Proof.
  induction l as [|x l IH]; intros j H; [cbn in H; lia|].
  destruct j as [|j]; cbn [pop length]; [lia|].
  cbn [length] in H. rewrite IH by lia. lia.
Qed.

Lemma pops_descending {A : Type} : forall js (l : list A),
  StronglySorted gt js -> Forall (fun j => (j < length l)%nat) js ->
  fold_left (fun acc j => pop j acc) js l = keep_unmarked js 0 l /\
  length (fold_left (fun acc j => pop j acc) js l) = (length l - length js)%nat.
Proof.
  induction js as [|j js IH]; intros l Hs Hf.
  - cbn. rewrite keep_unmarked_below by constructor. split; [reflexivity|lia].
  - apply StronglySorted_inv in Hs. destruct Hs as [Hs Hlt].
    apply Forall_cons_iff in Hf. destruct Hf as [Hj Hf].
    cbn [fold_left length].
    destruct (IH (pop j l) Hs) as [E L].
    { rewrite pop_length by exact Hj.
      eapply Forall_impl; [|exact Hlt]. cbn. intros. lia. }
    split; [|rewrite L, pop_length by exact Hj; lia].
    rewrite E. apply (keep_unmarked_pop js l j 0).
    eapply Forall_impl; [|exact Hlt]. cbn. intros. lia.
Qed.

Lemma remove_items_spec {A : Type} (to_remove : list nat) (l : list A) :
  NoDup to_remove -> Forall (fun j => (j < length l)%nat) to_remove ->
  remove_items to_remove l = keep_unmarked to_remove 0 l /\
  length (remove_items to_remove l) = (length l - length to_remove)%nat.
Proof.
  intros Hn Hf. unfold remove_items.
  pose proof (sorted_reverse_perm to_remove) as P.
  destruct (pops_descending (sorted_reverse to_remove) l) as [E L].
  - apply sorted_NoDup_strict; [apply sorted_reverse_sorted|].
    eapply Permutation_NoDup; [symmetry; exact P|exact Hn].
  - eapply Permutation_Forall; [symmetry; exact P|exact Hf].
  - split.
    + rewrite E. apply keep_unmarked_ext. intros k. now apply py_in_perm.
    + rewrite L. now rewrite (Permutation_length P).
Qed.

(** X9. The removal loop at the end of an iteration.  When the marked
    positions are distinct positions of the list, popping them in
    descending order removes exactly the elements at these positions: what
    is left are the other elements, in their order, and the list is shorter
    by the number of marks. *)
Theorem remove_items_removes_marked_positions {A : Type}
    (to_remove : list nat) (l : list A) :
  NoDup to_remove -> Forall (fun j => (j < length l)%nat) to_remove ->
  remove_items to_remove l = keep_unmarked to_remove 0 l /\
  length (remove_items to_remove l) = (length l - length to_remove)%nat /\
  (forall k x, nth_error l k = Some x -> ~ In k to_remove ->
               In x (remove_items to_remove l)).
Proof.
  intros Hn Hf. destruct (remove_items_spec to_remove l Hn Hf) as [E L].
  split; [exact E|]. split; [exact L|].
  intros k x Hk Hnot. rewrite E. clear E L Hn Hf.
  replace k with (0 + k)%nat in Hnot by lia.
  revert k Hk Hnot. generalize 0%nat.
  induction l as [|y l IH]; intros s k Hk Hnot; [now destruct k|].
  cbn [keep_unmarked]. destruct k as [|k].
  - cbn in Hk. inversion Hk; subst y. rewrite Nat.add_0_r in Hnot.
    destruct (py_in s to_remove) eqn:E; [apply py_in_In in E; contradiction|].
    now left.
  - cbn in Hk. assert (Hin : In x (keep_unmarked to_remove (S s) l)).
    { apply (IH (S s) k Hk). now replace (S s + k)%nat with (s + S k)%nat by lia. }
    destruct (py_in s to_remove); [exact Hin|now right].
Qed.

(* ================================================================== *)
(** ** The random crop: trials, draws and marks *)

Lemma randint_high_pos r : ((if 0 <=? r then r + 1 else - r + 1) <=? 0) = false.
Proof.
  apply Z.leb_gt. destruct (0 <=? r) eqn:F;
    [apply Z.leb_le in F|apply Z.leb_gt in F]; lia.
Qed.

(** One trial draws twice, leaves no event, and fails only on a canvas of
    negative extent. *)
Lemma crop_trial_run {Target : Type} (cfg : Config Target) it crop_h crop_w
    y_range x_range o s :
  (exists patch_x patch_y,
     crop_trial cfg it crop_h crop_w y_range x_range o s
     = ([], inr ((patch_x, patch_y),
                 mkRng (n_uniform s) (S (S (n_randint s))) (n_shuffle s)))) \/
  (crop_trial cfg it crop_h crop_w y_range x_range o s
   = ([], inl (ValueError "negative dimensions are not allowed")) /\
   (y_range < 0 \/ x_range < 0) /\ (crop_h < 0 \/ crop_w < 0)).
Proof.
  unfold crop_trial, bind, random_randint, raise, ret.
  rewrite (randint_high_pos y_range). cbn [n_uniform n_randint n_shuffle].
  rewrite (randint_high_pos x_range).
  destruct (((y_range <? 0) || (x_range <? 0)) && ((crop_h <? 0) || (crop_w <? 0)))
    eqn:G.
  - right. split; [reflexivity|].
    apply andb_true_iff in G. destruct G as [G1 G2].
    apply orb_true_iff in G1, G2. rewrite !Z.ltb_lt in G1, G2. tauto.
  - left. cbn [app n_uniform n_randint n_shuffle].
    destruct (crop_patch _ _ _ _ _ _ _ _) as [[px bl] py].
    destruct (limit_boxes cfg && _); cbn [app]; eauto.
Qed.

Lemma crop_trial_total {Target : Type} (cfg : Config Target) it crop_h crop_w
    y_range x_range o s :
  0 <= crop_h -> 0 <= crop_w ->
  exists patch_x patch_y,
    crop_trial cfg it crop_h crop_w y_range x_range o s
    = ([], inr ((patch_x, patch_y),
                mkRng (n_uniform s) (S (S (n_randint s))) (n_shuffle s))).
Proof.
  intros Hh Hw.
  destruct (crop_trial_run cfg it crop_h crop_w y_range x_range o s)
    as [H|(_ & _ & H)]; [exact H|lia].
Qed.

(** What a run of the trial loop leaves behind: no event; only
    [randint] draws, two per trial; at most one mark, that of item [i]; and
    the loop has ended by its condition or by its [break]. *)
Lemma crop_loop_run {Target : Type} (cfg : Config Target) (i : nat)
    (crop_h crop_w min_1_object max_trials y_range x_range : Z) :
  forall fuel st o s t r,
    crop_loop fuel cfg i crop_h crop_w min_1_object max_trials y_range x_range st o s
      = (t, r) ->
    t = [] /\
    forall st' s', r = inr (st', s') ->
      n_uniform s' = n_uniform s /\ n_shuffle s' = n_shuffle s /\
      trial_counter st <= trial_counter st' /\
      Z.of_nat (n_randint s') =
        Z.of_nat (n_randint s) + 2 * (trial_counter st' - trial_counter st) /\
      (batch_items_to_remove st' = batch_items_to_remove st \/
       batch_items_to_remove st' = batch_items_to_remove st ++ [i] /\
       py_in i (batch_items_to_remove st) = false /\ min_1_object <> 0) /\
      ((Z.to_nat (max_trials - trial_counter st) < fuel)%nat ->
       min_1_object_fulfilled st' = true \/ max_trials <= trial_counter st' \/
       min_1_object = 0 /\ trial_counter st' = trial_counter st + 1) /\
      (min_1_object = 0 ->
       trial_counter st' <= trial_counter st + 1 /\
       batch_items_to_remove st' = batch_items_to_remove st).
Proof.
  induction fuel as [|fuel IH]; intros st o s t r E; cbn [crop_loop] in E.
  - inversion E; subst. split; [reflexivity|]. intros st' s' H. inversion H; subst.
    repeat split; auto; try lia.
  - destruct (negb (min_1_object_fulfilled st) && (trial_counter st <? max_trials)) eqn:G.
    2:{ inversion E; subst. split; [reflexivity|]. intros st' s' H. inversion H; subst.
        repeat split; auto; try lia. intros _.
        apply andb_false_iff in G. destruct G as [G|G].
        - left. now destruct (min_1_object_fulfilled st').
        - right; left. apply Z.ltb_ge in G. exact G. }
    apply andb_true_iff in G. destruct G as [_ G]. apply Z.ltb_lt in G.
    unfold bind in E.
    destruct (crop_trial_run cfg (loop_item st) crop_h crop_w y_range x_range o s)
      as [(px & py & Et)|(Et & _)]; rewrite Et in E.
    2:{ inversion E; subst. split; [reflexivity|]. intros st' s' H. discriminate. }
    destruct (min_1_object =? 0) eqn:Em.
    + apply Z.eqb_eq in Em. unfold ret in E. inversion E; subst.
      split; [reflexivity|]. intros st' s' H. inversion H; subst.
      cbn [n_uniform n_randint n_shuffle trial_counter batch_items_to_remove
           min_1_object_fulfilled].
      repeat split; auto; try lia.
    + apply Z.eqb_neq in Em.
      destruct (0 <? length py)%nat;
        [|destruct ((max_trials <=? trial_counter st + 1)
                    && negb (py_in i (batch_items_to_remove st))) eqn:Gm];
        match type of E with
        | context [crop_loop fuel _ _ _ _ _ _ _ _ ?st1 _ ?s1] =>
            destruct (crop_loop fuel cfg i crop_h crop_w min_1_object max_trials
                        y_range x_range st1 o s1) as [t1 r1] eqn:E1
        end;
        cbn [app] in E; inversion E; subst t r; clear E;
        apply IH in E1; destruct E1 as [-> E1]; (split; [reflexivity|]);
        intros st' s' H; destruct (E1 st' s' H) as (A & B & C & D & Mk & T & Z0);
        cbn [n_uniform n_randint n_shuffle trial_counter batch_items_to_remove
             min_1_object_fulfilled loop_item] in *;
        (split; [exact A|]); (split; [exact B|]); (split; [lia|]);
        (split; [lia|]);
        (split; [|split; [intros Hf; destruct T as [T|[T|[T _]]];
                          [lia|auto|auto|congruence]
                         |intros Hz; congruence]]).
      * exact Mk.
      * apply andb_true_iff in Gm. destruct Gm as [_ Gm].
        apply negb_true_iff in Gm.
        destruct Mk as [Mk|(Mk & Mk' & _)].
        -- right. auto.
        -- exfalso. assert (F : py_in i (batch_items_to_remove st ++ [i]) = true)
             by (apply py_in_In, in_or_app; right; now left).
           congruence.
      * exact Mk.
Qed.

Lemma crop_loop_total {Target : Type} (cfg : Config Target) (i : nat)
    (crop_h crop_w min_1_object max_trials y_range x_range : Z) :
  0 <= crop_h -> 0 <= crop_w ->
  forall fuel st o s,
    exists st' s',
      crop_loop fuel cfg i crop_h crop_w min_1_object max_trials y_range x_range st o s
        = ([], inr (st', s')).
Proof.
  intros Hh Hw. induction fuel as [|fuel IH]; intros st o s; cbn [crop_loop].
  - eexists _, _. reflexivity.
  - destruct (negb (min_1_object_fulfilled st) && (trial_counter st <? max_trials));
      [|eexists _, _; reflexivity].
    destruct (crop_trial_total cfg (loop_item st) crop_h crop_w y_range x_range o s
                Hh Hw) as (px & py & Et).
    unfold bind. rewrite Et.
    destruct (min_1_object =? 0); [eexists _, _; reflexivity|].
    destruct (0 <? length py)%nat;
      [|destruct ((max_trials <=? trial_counter st + 1)
                  && negb (py_in i (batch_items_to_remove st)))];
      match goal with
      | |- context [crop_loop fuel _ _ _ _ _ _ _ _ ?st1 _ ?s1] =>
          destruct (IH st1 o s1) as (st' & s' & ->)
      end; eexists _, _; reflexivity.
Qed.

(** X10. The trial loop of the random crop makes at most [max_trials]
    trials, and at most one when [min_1_object = 0]; each trial draws two
    random integers and nothing else; and the loop always ends by its own
    condition or by its [break]. *)
Theorem random_crop_makes_at_most_max_trials {Target : Type} (cfg : Config Target)
    (i : nat) (it : Item) (to_remove : list nat)
    (crop_h crop_w min_1_object max_trials : Z) o s t st s' :
  random_crop cfg = Some (crop_h, crop_w, min_1_object, max_trials) ->
  random_crop_step cfg i it to_remove o s = (t, inr (st, s')) ->
  t = [] /\
  0 <= trial_counter st <= Z.max 0 max_trials /\
  (min_1_object = 0 -> trial_counter st <= 1) /\
  Z.of_nat (n_randint s') = Z.of_nat (n_randint s) + 2 * trial_counter st /\
  n_uniform s' = n_uniform s /\ n_shuffle s' = n_shuffle s /\
  (min_1_object_fulfilled st = true \/ max_trials <= trial_counter st \/
   min_1_object = 0 /\ trial_counter st = 1).
Proof.
  intros Hc E. unfold random_crop_step in E. rewrite Hc in E.
  pose proof E as E0. apply crop_trials_at_most_max_trials in E0.
  cbn [trial_counter] in E0. destruct E0 as [Hb _].
  apply crop_loop_run in E. destruct E as [-> E].
  destruct (E st s' eq_refl) as (A & B & C & D & _ & T & Z0).
  cbn [trial_counter] in *. rewrite Z.sub_0_r in *.
  assert (T' : min_1_object_fulfilled st = true \/ max_trials <= trial_counter st \/
               min_1_object = 0 /\ trial_counter st = 0 + 1) by (apply T; lia).
  repeat split; auto; try lia;
    try (intros Hm; destruct (Z0 Hm) as [Z1 _]; lia).
Qed.

(** X11. With [min_1_object = 1] and at least one trial allowed, an item
    without boxes goes through exactly [max_trials] trials (two draws
    each), none of which is accepted: the item keeps its image and its
    extents, and its position is marked for removal, once. *)
Theorem item_without_boxes_exhausts_its_trials {Target : Type} (cfg : Config Target)
    (i : nat) (it : Item) (to_remove : list nat)
    (crop_h crop_w min_1_object max_trials : Z) o s :
  random_crop cfg = Some (crop_h, crop_w, min_1_object, max_trials) ->
  min_1_object <> 0 -> 1 <= max_trials -> 0 <= crop_h -> 0 <= crop_w ->
  item_y it = [] ->
  random_crop_step cfg i it to_remove o s
  = ([], inr (mkCropLoop it false max_trials
                (if py_in i to_remove then to_remove else to_remove ++ [i]),
              mkRng (n_uniform s) (n_randint s + 2 * Z.to_nat max_trials)
                (n_shuffle s))).
Proof.
  intros Hc Hm Hn Hh Hw Hy. unfold random_crop_step. rewrite Hc.
  destruct (crop_retry_exhausts_without_boxes cfg i crop_h crop_w min_1_object
              max_trials (img_height it - crop_h) (img_width it - crop_w)
              Hm Hh Hw (S (Z.to_nat max_trials)) (mkCropLoop it false 0 to_remove) o s)
    as (t & s' & E & D); cbn [loop_item min_1_object_fulfilled trial_counter];
    try assumption; try reflexivity; try lia.
  cbn [loop_item batch_items_to_remove trial_counter] in E, D.
  pose proof E as E0. apply crop_loop_run in E0. destruct E0 as [-> E0].
  destruct (E0 _ _ eq_refl) as (A & B & _).
  rewrite E. f_equal. f_equal. f_equal.
  destruct s' as [u r sh]. cbn [n_uniform n_randint n_shuffle] in *.
  subst. f_equal. lia.
Qed.

(** X12. With [min_1_object = 0] the crop is made exactly once when
    [max_trials >= 1], and accepted whatever boxes are left: the item takes
    the patch and the extents of the patch.  With [max_trials <= 0] no crop
    is made at all.  In neither case is the item marked for removal. *)
Theorem crop_without_object_check_is_made_once {Target : Type} (cfg : Config Target)
    (i : nat) (it : Item) (to_remove : list nat)
    (crop_h crop_w max_trials : Z) o s t st s' :
  random_crop cfg = Some (crop_h, crop_w, 0, max_trials) ->
  random_crop_step cfg i it to_remove o s = (t, inr (st, s')) ->
  batch_items_to_remove st = to_remove /\ min_1_object_fulfilled st = false /\
  (max_trials <= 0 /\ st = mkCropLoop it false 0 to_remove /\ s' = s \/
   1 <= max_trials /\ trial_counter st = 1 /\
   img_height (loop_item st) = crop_h /\ img_width (loop_item st) = crop_w /\
   crop_trial cfg it crop_h crop_w (img_height it - crop_h) (img_width it - crop_w) o s
     = ([], inr ((item_x (loop_item st), item_y (loop_item st)), s'))).
Proof.
  intros Hc E. unfold random_crop_step in E. rewrite Hc in E.
  cbn [crop_loop min_1_object_fulfilled trial_counter negb andb] in E.
  destruct (0 <? max_trials) eqn:G.
  - apply Z.ltb_lt in G. unfold bind in E.
    destruct (crop_trial_run cfg it crop_h crop_w (img_height it - crop_h)
                (img_width it - crop_w) o s) as [(px & py & Et)|(Et & _)];
      cbn [loop_item] in E; rewrite Et in E; [|discriminate].
    cbn [Z.eqb] in E. unfold ret in E. inversion E; subst.
    cbn [batch_items_to_remove min_1_object_fulfilled trial_counter loop_item
         img_height img_width item_x item_y].
    split; [reflexivity|]. split; [reflexivity|]. right.
    repeat split; try reflexivity; try lia. exact Et.
  - apply Z.ltb_ge in G. unfold ret in E. inversion E; subst.
    split; [reflexivity|]. split; [reflexivity|]. left. auto.
Qed.

(** X13. A random crop with a patch of non-negative extents never raises
    and leaves no event: the bounds of both draws are positive whatever the
    extents of the image are.  A patch with a negative extent that needs a
    canvas raises the [ValueError] of [np.zeros] at the first trial. *)
Theorem random_crop_never_raises {Target : Type} (cfg : Config Target)
    (i : nat) (it : Item) (to_remove : list nat)
    (crop_h crop_w min_1_object max_trials : Z) o s :
  random_crop cfg = Some (crop_h, crop_w, min_1_object, max_trials) ->
  (0 <= crop_h -> 0 <= crop_w ->
   exists st s', random_crop_step cfg i it to_remove o s = ([], inr (st, s'))) /\
  (crop_h < 0 \/ crop_w < 0 ->
   img_height it < crop_h \/ img_width it < crop_w -> 1 <= max_trials ->
   random_crop_step cfg i it to_remove o s
   = ([], inl (ValueError "negative dimensions are not allowed"))).
Proof.
  intros Hc. unfold random_crop_step. rewrite Hc. split.
  - intros Hh Hw. apply crop_loop_total; assumption.
  - intros Hneg Hcanvas Hn.
    cbn [crop_loop min_1_object_fulfilled trial_counter negb andb loop_item].
    assert (G : (0 <? max_trials) = true) by (apply Z.ltb_lt; lia).
    rewrite G. unfold bind.
    destruct (crop_trial_run cfg it crop_h crop_w (img_height it - crop_h)
                (img_width it - crop_w) o s) as [(px & py & Et)|(Et & _)].
    + exfalso. unfold crop_trial, bind, random_randint, raise, ret in Et.
      rewrite ?randint_high_pos in Et. cbn [n_uniform n_randint n_shuffle] in Et.
      rewrite ?randint_high_pos in Et.
      assert (F : (((img_height it - crop_h <? 0) || (img_width it - crop_w <? 0))
                   && ((crop_h <? 0) || (crop_w <? 0))) = true).
      { apply andb_true_iff. split; apply orb_true_iff; rewrite !Z.ltb_lt; lia. }
      rewrite F in Et. discriminate.
    + now rewrite Et.
Qed.

(* ================================================================== *)
(** ** The batch that an iteration yields *)

Lemma sorted_snoc rm i :
  StronglySorted lt rm -> Forall (fun k => (k < i)%nat) rm ->
  StronglySorted lt (rm ++ [i]).
Proof.
  induction 1 as [|k rm Hs IH Hf]; intros Hb; cbn; [repeat constructor|].
  apply Forall_cons_iff in Hb. destruct Hb as [Hk Hb].
  constructor; [now apply IH|]. apply Forall_app. split; [exact Hf|].
  constructor; [exact Hk|constructor].
Qed.

Lemma sorted_lt_NoDup rm : StronglySorted lt rm -> NoDup rm.
Proof.
  induction 1 as [|k rm Hs IH Hf]; constructor; [|exact IH].
  intros Hin. rewrite Forall_forall in Hf. specialize (Hf k Hin). lia.
Qed.

Lemma crop_step_success {Target : Type} (cfg : Config Target) it o s :
  exists it', crop_step cfg it o s = ([], inr (it', s)).
Proof.
  unfold crop_step. destruct (crop cfg) as [[[[ct cb] cl] cr]|]; eexists; reflexivity.
Qed.

(** The marks that the transforms of item [i] leave. *)
Lemma augment_item_marks {Target : Type} histogram_eq cv2_resize cv2_gray
    (cfg : Config Target) i x y to_remove o s t it' to_remove' s' :
  augment_item histogram_eq cv2_resize cv2_gray cfg i x y to_remove o s
    = (t, inr ((it', to_remove'), s')) ->
  (to_remove' = to_remove \/
   to_remove' = to_remove ++ [i] /\ py_in i to_remove = false) /\
  (random_crop cfg = None -> to_remove' = to_remove).
Proof.
  intros E. unfold augment_item in E.
  apply bind_inr in E. destruct E as (t0 & [] & s0 & t0' & _ & E & _).
  apply bind_inr in E. destruct E as (t1 & it1 & s1 & t1' & _ & E & _).
  apply bind_inr in E. destruct E as (t2 & it2 & s2 & t2' & _ & E & _).
  apply bind_inr in E. destruct E as (t3 & it3 & s3 & t3' & _ & E & _).
  apply bind_inr in E. destruct E as (t4 & it4 & s4 & t4' & _ & E & _).
  apply bind_inr in E. destruct E as (t5 & st & s5 & t5' & E5 & E & _).
  apply bind_inr in E. destruct E as (t6 & it6 & s6 & t6' & _ & E & _).
  apply bind_inr in E. destruct E as (t7 & it7 & s7 & t7' & _ & E & _).
  apply bind_inr in E. destruct E as (t8 & it8 & s8 & t8' & _ & E & _).
  unfold ret in E. inversion E; subst. clear E.
  unfold random_crop_step in E5.
  destruct (random_crop cfg) as [[[[ch cw] m] n]|].
  - apply crop_loop_run in E5. destruct E5 as [_ E5].
    destruct (E5 _ _ eq_refl) as (_ & _ & _ & _ & Mk & _).
    cbn [batch_items_to_remove] in Mk. split; [|discriminate].
    destruct Mk as [Mk|(Mk & Mk' & _)]; auto.
  - unfold ret in E5. inversion E5; subst. cbn. auto.
Qed.

Lemma augment_items_run {Target : Type} histogram_eq cv2_resize cv2_gray
    (cfg : Config Target) : forall xs i ys to_remove o s t xs' ys' to_remove' s',
  augment_items histogram_eq cv2_resize cv2_gray cfg i xs ys to_remove o s
    = (t, inr ((xs', ys', to_remove'), s')) ->
  length xs' = length xs /\ length ys' = length ys /\
  (length xs <= length ys)%nat /\
  (StronglySorted lt to_remove -> Forall (fun k => (k < i)%nat) to_remove ->
   StronglySorted lt to_remove' /\
   Forall (fun k => (k < i + length xs)%nat) to_remove') /\
  (random_crop cfg = None -> to_remove' = to_remove).
Proof.
  induction xs as [|x xs IH]; intros i ys rm o s t xs' ys' rm' s' E;
    cbn [augment_items] in E.
  - unfold ret in E. inversion E; subst. cbn [length].
    repeat split; auto; try lia.
    eapply Forall_impl; [|eassumption]. cbn. intros. lia.
  - destruct ys as [|y ys]; [discriminate|].
    apply bind_inr in E. destruct E as (t1 & [it1 rm1] & s1 & t1' & E1 & E & _).
    apply bind_inr in E.
    destruct E as (t2 & [[xs2 ys2] rm2] & s2 & t2' & E2 & E & _).
    unfold ret in E. inversion E; subst. clear E.
    apply augment_item_marks in E1. destruct E1 as [Mk Mn].
    apply IH in E2. destruct E2 as (L1 & L2 & L3 & Hsort & N).
    cbn [length]. split; [lia|]. split; [lia|]. split; [lia|]. split.
    + intros Hs Hf.
      assert (H1 : StronglySorted lt rm1 /\ Forall (fun k => (k < S i)%nat) rm1).
      { destruct Mk as [->|[-> _]].
        - split; [exact Hs|]. eapply Forall_impl; [|exact Hf]. cbn. intros. lia.
        - split; [now apply sorted_snoc|]. apply Forall_app. split.
          + eapply Forall_impl; [|exact Hf]. cbn. intros. lia.
          + constructor; [lia|constructor]. }
      destruct H1 as [Hs1 Hf1]. destruct (Hsort Hs1 Hf1) as [Hs2 Hf2].
      split; [exact Hs2|]. eapply Forall_impl; [|exact Hf2]. cbn. intros. lia.
    + intros Hn. rewrite (N Hn). exact (Mn Hn).
Qed.

Lemma load_images_fail image_open : forall fs1 f fs2 o s,
  Forall (fun g => image_open g <> None) fs1 -> image_open f = None ->
  load_images image_open (fs1 ++ f :: fs2) o s
  = (map EvLoad fs1 ++ [EvLoad f], inl (IOError f)).
Proof.
  induction fs1 as [|g fs1 IH]; intros f fs2 o s Hf Hn;
    cbn [app load_images map]; unfold bind, emit.
  - rewrite Hn. reflexivity.
  - apply Forall_cons_iff in Hf. destruct Hf as [Hg Hf].
    destruct (image_open g) as [x|]; [|congruence].
    unfold bind. rewrite (IH f fs2 o s Hf Hn). reflexivity.
Qed.

(** X14. In every batch that is yielded the images and the label arrays
    are aligned: there are as many of one as of the other, at most
    [batch_size], and at most as many as file names; without a random crop
    the file names are aligned as well.  The iteration leaves the dataset a
    permutation of what it was. *)
Theorem batch_images_and_labels_stay_aligned {Target : Type}
    (image_open : string -> option Image) (histogram_eq : Image -> Image)
    (cv2_resize : Image -> Z * Z -> option Image) (cv2_gray : Image -> Image)
    (cfg : Config Target) (st : Cursor Sample) o s t b st' s' :
  next_batch image_open histogram_eq cv2_resize cv2_gray cfg st o s
    = (t, inr ((b, st'), s')) ->
  Permutation (dataset st') (dataset st) /\
  match b with
  | InferBatch batch_x batch_y this_filenames =>
      length batch_x = length batch_y /\
      (length batch_x <= length this_filenames <= batch_size cfg)%nat /\
      incl this_filenames (map fst (dataset st')) /\
      (random_crop cfg = None -> length batch_x = length this_filenames)
  | TrainBatch batch_x _ => (length batch_x <= batch_size cfg)%nat
  end.
Proof.
  intros E. unfold next_batch in E.
  apply bind_inr in E. destruct E as (t1 & [win st1] & s1 & t1' & E1 & E & _).
  apply bind_inr in E. destruct E as (t2 & xs & s2 & t2' & E2 & E & _).
  apply bind_inr in E.
  destruct E as (t3 & [[xs3 ys3] rm] & s3 & t3' & E3 & E & _).
  apply load_images_trace in E2. destruct E2 as (_ & L2 & _).
  rewrite length_map in L2.
  apply augment_items_run in E3. destruct E3 as (L3 & L4 & _ & Hsort & N).
  destruct (Hsort (SSorted_nil lt) (Forall_nil _)) as [Hs Hf]. cbn [Nat.add] in Hf.
  rewrite length_map in L4.
  assert (Hwin : Permutation (dataset st1) (dataset st) /\
                 win = window (dataset st1) (current st1 - batch_size cfg)
                         (batch_size cfg)).
  { rewrite select_window_run in E1.
    destruct (length (dataset st) <=? current st)%nat;
      inversion E1; subst; cbn [dataset current].
    - split; [apply shuffle_perm|]. f_equal. lia.
    - split; [reflexivity|]. f_equal. lia. }
  destruct Hwin as [P Hwin].
  assert (Lw : (length win <= batch_size cfg)%nat)
    by (rewrite Hwin, window_length; lia).
  assert (Iw : incl (map fst win) (map fst (dataset st1))).
  { intros f Hf'. apply in_map_iff in Hf'. destruct Hf' as (x & <- & Hx).
    apply in_map. rewrite Hwin in Hx. now apply window_incl in Hx. }
  destruct (remove_items_spec rm xs3 (sorted_lt_NoDup _ Hs)) as [_ R1];
    [now rewrite L3|].
  destruct (remove_items_spec rm ys3 (sorted_lt_NoDup _ Hs)) as [_ R2];
    [now rewrite L4, <- L2|].
  assert (Lx : (length xs3 <= batch_size cfg)%nat) by (rewrite L3, L2; exact Lw).
  assert (Ly : length ys3 = length xs3) by (rewrite L3, L2; exact L4).
  assert (Lf : length (map fst win) = length xs3) by (now rewrite length_map, L3, L2).
  clear Hwin Lw L2 L3 L4.
  destruct (train cfg).
  - destruct (ssd_box_encoder cfg) as [enc|]; [|discriminate].
    unfold bind, emit, ret in E. inversion E; subst. split; [exact P|].
    rewrite R1. lia.
  - unfold bind, emit, ret in E. inversion E; subst. split; [exact P|].
    rewrite R1, R2, Lf. split; [lia|]. split; [lia|]. split; [exact Iw|].
    intros Hn. rewrite (N Hn). cbn [length]. lia.
Qed.

(** X15. An image file that cannot be opened ends the iteration with the
    error of [Image.open], for the first such file of the window: the files
    before it have been opened, the files after it are not, no transform has
    run and nothing is yielded. *)
Theorem unreadable_image_aborts_the_batch {Target : Type}
    (image_open : string -> option Image) (histogram_eq : Image -> Image)
    (cv2_resize : Image -> Z * Z -> option Image) (cv2_gray : Image -> Image)
    (cfg : Config Target) (st : Cursor Sample) o s t1 win st1 s1 fs1 f fs2 :
  select_window (batch_size cfg) st o s = (t1, inr ((win, st1), s1)) ->
  map fst win = fs1 ++ f :: fs2 ->
  Forall (fun g => image_open g <> None) fs1 -> image_open f = None ->
  next_batch image_open histogram_eq cv2_resize cv2_gray cfg st o s
  = (t1 ++ map EvLoad fs1 ++ [EvLoad f], inl (IOError f)).
Proof.
  intros E1 Hw Hf Hn. unfold next_batch, bind at 1. rewrite E1.
  unfold bind at 1. rewrite Hw, (load_images_fail image_open fs1 f fs2 o s1 Hf Hn).
  reflexivity.
Qed.

(* ================================================================== *)
(** ** The shape of the cropped image *)

Lemma py_slice_length {A : Type} (l : list A) lo hi :
  0 <= lo -> lo <= hi -> hi <= Z.of_nat (length l) ->
  Z.of_nat (length (py_slice l lo hi)) = hi - lo.
Proof.
  intros H1 H2 H3. unfold py_slice, py_index.
  destruct (lo <? 0) eqn:E1; [apply Z.ltb_lt in E1; lia|].
  destruct (hi <? 0) eqn:E2; [apply Z.ltb_lt in E2; lia|].
  rewrite length_firstn, length_skipn. lia.
Qed.

Lemma py_slice_empty {A : Type} (l : list A) lo hi :
  0 <= hi -> hi <= lo -> py_slice l lo hi = [].
Proof.
  intros H1 H2. unfold py_slice, py_index.
  destruct (lo <? 0) eqn:E1; [apply Z.ltb_lt in E1; lia|].
  destruct (hi <? 0) eqn:E2; [apply Z.ltb_lt in E2; lia|].
  replace (Z.to_nat _) with 0%nat by lia. reflexivity.
Qed.

(** A negative stop counts from the end of the list. *)
Lemma py_slice_negative_stop {A : Type} (l : list A) hi :
  hi < 0 -> - Z.of_nat (length l) <= hi ->
  Z.of_nat (length (py_slice l 0 hi)) = Z.of_nat (length l) + hi.
Proof.
  intros H1 H2. unfold py_slice, py_index. cbn [Z.ltb Z.compare].
  destruct (hi <? 0) eqn:E2; [|apply Z.ltb_ge in E2; lia].
  rewrite length_firstn, length_skipn. lia.
Qed.

Lemma py_slice_Forall {A : Type} (P : A -> Prop) (l : list A) lo hi :
  Forall P l -> Forall P (py_slice l lo hi).
Proof.
  intros H. unfold py_slice. rewrite Forall_forall in *. intros x Hx. apply H.
  rewrite <- (firstn_skipn (Z.to_nat (py_index (Z.of_nat (length l)) lo)) l).
  apply in_or_app. right.
  match type of Hx with
  | In x (firstn ?n ?m) => rewrite <- (firstn_skipn n m)
  end.
  apply in_or_app. now left.
Qed.

Lemma zeros_length {A : Type} (z : A) n : 0 <= n -> Z.of_nat (length (zeros z n)) = n.
Proof. intros H. unfold zeros. rewrite repeat_length. lia. Qed.

Lemma zeros_Forall {A : Type} (P : A -> Prop) (z : A) n : P z -> Forall P (zeros z n).
Proof.
  intros H. unfold zeros. apply Forall_forall. intros x Hx.
  apply repeat_spec in Hx. now subst.
Qed.

Lemma crop_image_shape (x : Image) h w r0 r1 c0 c1 :
  image_shape h w x ->
  0 <= r0 -> r0 <= r1 -> r1 <= h -> 0 <= c0 -> c0 <= c1 -> c1 <= w ->
  image_shape (r1 - r0) (c1 - c0) (crop_image x r0 r1 c0 c1).
Proof.
  intros (Hr & Hw & Hf) A1 A2 A3 B1 B2 B3. unfold image_shape, crop_image, img_rows in *.
  unfold Image, Pixel in *.
  split; [|split; [lia|]].
  - rewrite length_map. apply py_slice_length; lia.
  - apply Forall_map. apply py_slice_Forall.
    eapply Forall_impl; [|exact Hf]. cbn. intros row Hrow.
    apply py_slice_length; lia.
Qed.

Lemma place_on_canvas_shape (patch : Image) h w ch top left ph pw :
  image_shape ph pw patch ->
  0 <= top -> top + ph <= h -> 0 <= left -> left + pw <= w ->
  image_shape h w (place_on_canvas h w ch top left patch).
Proof.
  intros (Hr & Hw & Hf) A1 A2 B1 B2. unfold image_shape, place_on_canvas, img_rows in *.
  unfold Image, Pixel in *.
  assert (Hph : 0 <= ph) by lia.
  split; [|split; [lia|]].
  - rewrite !length_app, length_map, !Nat2Z.inj_add, !zeros_length; lia.
  - rewrite !Forall_app. split; [|split].
    + apply zeros_Forall. apply zeros_length. lia.
    + apply Forall_map. eapply Forall_impl; [|exact Hf]. cbn. intros row Hrow.
      rewrite !length_app, !Nat2Z.inj_add, !zeros_length; lia.
    + apply zeros_Forall. apply zeros_length. lia.
Qed.

(** The patch of one trial has the extents of the patch that was asked
    for. *)
Lemma crop_trial_shape {Target : Type} (cfg : Config Target) (it : Item)
    (crop_h crop_w : Z) o s t patch_x patch_y s' :
  image_shape (img_height it) (img_width it) (item_x it) ->
  0 <= crop_h -> 0 <= crop_w ->
  crop_trial cfg it crop_h crop_w (img_height it - crop_h) (img_width it - crop_w) o s
    = (t, inr ((patch_x, patch_y), s')) ->
  image_shape crop_h crop_w patch_x.
Proof.
  intros Hs Hh Hw E.
  pose proof Hs as (Hr & Hw0 & Hf).
  assert (Hh0 : 0 <= img_height it) by (rewrite <- Hr; unfold img_rows; lia).
  unfold crop_trial, bind, random_randint, raise, ret in E.
  set (yr := img_height it - crop_h) in *.
  set (xr := img_width it - crop_w) in *.
  rewrite (randint_high_pos yr) in E. cbn [n_uniform n_randint n_shuffle] in E.
  rewrite (randint_high_pos xr) in E.
  set (hy := if 0 <=? yr then yr + 1 else - yr + 1) in *.
  set (hx := if 0 <=? xr then xr + 1 else - xr + 1) in *.
  assert (Hhy : 0 < hy) by (unfold hy; destruct (0 <=? yr) eqn:F;
    [apply Z.leb_le in F|apply Z.leb_gt in F]; lia).
  assert (Hhx : 0 < hx) by (unfold hx; destruct (0 <=? xr) eqn:F;
    [apply Z.leb_le in F|apply Z.leb_gt in F]; lia).
  set (cy := randint_raw o (n_randint s) mod hy) in *.
  set (cx := randint_raw o (S (n_randint s)) mod hx) in *.
  assert (Hcy : 0 <= cy < hy) by (apply Z.mod_pos_bound; lia).
  assert (Hcx : 0 <= cx < hx) by (apply Z.mod_pos_bound; lia).
  destruct (((yr <? 0) || (xr <? 0)) && ((crop_h <? 0) || (crop_w <? 0)));
    [discriminate|].
  cbn [app n_uniform n_randint n_shuffle] in E.
  assert (S : image_shape crop_h crop_w
                (fst (fst (crop_patch cfg it crop_h crop_w yr xr cy cx)))).
  { unfold crop_patch.
    destruct (0 <=? yr) eqn:Fy; destruct (0 <=? xr) eqn:Fx;
      cbn [andb]; unfold hy, hx in *; rewrite ?Fy, ?Fx in *;
      try (apply Z.leb_le in Fy); try (apply Z.leb_gt in Fy);
      try (apply Z.leb_le in Fx); try (apply Z.leb_gt in Fx).
    - cbn [fst].
      replace crop_h with (cy + crop_h - cy) at 1 by lia.
      replace crop_w with (cx + crop_w - cx) at 1 by lia.
      eapply crop_image_shape; [exact Hs|unfold yr, xr in *; lia..].
    - assert (Gx : (xr <? 0) = true) by (apply Z.ltb_lt; lia).
      rewrite Gx. cbn [fst].
      eapply place_on_canvas_shape with (ph := crop_h) (pw := img_width it);
        [|unfold yr, xr in *; lia..].
      split; [|split; [lia|]].
      + unfold img_rows. rewrite py_slice_length; unfold img_rows, yr in *; lia.
      + now apply py_slice_Forall.
    - assert (Gy : (yr <? 0) = true) by (apply Z.ltb_lt; lia).
      rewrite Gy. cbn [andb fst].
      eapply place_on_canvas_shape with (ph := img_height it) (pw := crop_w);
        [|unfold yr, xr in *; lia..].
      split; [|split; [lia|]].
      + unfold img_rows in *. now rewrite length_map.
      + apply Forall_map. eapply Forall_impl; [|exact Hf]. cbn. intros row Hrow.
        rewrite py_slice_length; unfold xr in *; lia.
    - assert (Gy : (yr <? 0) = true) by (apply Z.ltb_lt; lia).
      rewrite Gy. cbn [andb fst].
      eapply place_on_canvas_shape; [exact Hs|unfold yr, xr in *; lia..]. }
  destruct (crop_patch cfg it crop_h crop_w yr xr cy cx) as [[px bl] py].
  cbn [fst] in S.
  destruct (limit_boxes cfg && _); inversion E; subst; exact S.
Qed.

Lemma crop_loop_shape {Target : Type} (cfg : Config Target) (i : nat)
    (crop_h crop_w min_1_object max_trials : Z) (h w : Z) :
  0 <= crop_h -> 0 <= crop_w ->
  forall fuel st o s t st' s',
    (min_1_object_fulfilled st = false ->
     img_height (loop_item st) = h /\ img_width (loop_item st) = w) ->
    image_shape (img_height (loop_item st)) (img_width (loop_item st))
      (item_x (loop_item st)) ->
    crop_loop fuel cfg i crop_h crop_w min_1_object max_trials
      (h - crop_h) (w - crop_w) st o s = (t, inr (st', s')) ->
    image_shape (img_height (loop_item st')) (img_width (loop_item st'))
      (item_x (loop_item st')).
Proof.
  intros Hh Hw. induction fuel as [|fuel IH]; intros st o s t st' s' Hst Hs E;
    cbn [crop_loop] in E.
  - inversion E; subst. exact Hs.
  - destruct (negb (min_1_object_fulfilled st) && (trial_counter st <? max_trials)) eqn:G.
    2:{ inversion E; subst. exact Hs. }
    apply andb_true_iff in G. destruct G as [G _]. apply negb_true_iff in G.
    destruct (Hst G) as [Eh Ew].
    apply bind_inr in E. destruct E as (t1 & [px py] & s1 & t2 & E1 & E2 & _).
    rewrite <- Eh, <- Ew in E1.
    apply crop_trial_shape in E1; try assumption.
    destruct (min_1_object =? 0).
    + unfold ret in E2. inversion E2; subst. cbn. exact E1.
    + destruct (0 <? length py)%nat;
        [|destruct ((max_trials <=? trial_counter st + 1)
                    && negb (py_in i (batch_items_to_remove st)))];
        (eapply IH; [| |exact E2]);
        cbn [loop_item min_1_object_fulfilled img_height img_width item_x];
        try (intros; discriminate); try (intros _; now split);
        try exact E1; try exact Hs; try (intros F; apply Hst; exact G).
Qed.

(** X16. After the random crop the running [img_height] and [img_width]
    are the true extents of the image of the item: a patch that was
    accepted is [crop_h] rows by [crop_w] columns in each of the four cases
    (crop, canvas in one direction, canvas in both), and an item whose
    trials were all rejected keeps its image. *)
Theorem random_crop_keeps_extents_true {Target : Type} (cfg : Config Target)
    (i : nat) (it : Item) (to_remove : list nat) o s t st s' :
  image_shape (img_height it) (img_width it) (item_x it) ->
  (forall crop_h crop_w m n,
      random_crop cfg = Some (crop_h, crop_w, m, n) -> 0 <= crop_h /\ 0 <= crop_w) ->
  random_crop_step cfg i it to_remove o s = (t, inr (st, s')) ->
  image_shape (img_height (loop_item st)) (img_width (loop_item st))
    (item_x (loop_item st)) /\
  (loop_item st = it \/
   exists crop_h crop_w m n,
     random_crop cfg = Some (crop_h, crop_w, m, n) /\
     img_height (loop_item st) = crop_h /\ img_width (loop_item st) = crop_w).
Proof.
  intros Hs Hc E. unfold random_crop_step in E.
  destruct (random_crop cfg) as [[[[ch cw] m] n]|] eqn:Ec.
  - destruct (Hc ch cw m n eq_refl) as [Hh Hw]. split.
    + eapply (crop_loop_shape cfg i ch cw m n (img_height it) (img_width it) Hh Hw);
        [| |exact E]; cbn [loop_item min_1_object_fulfilled]; auto.
    + clear Hs Hc.
      assert (G : forall fuel st0 o s t st' s',
                 crop_loop fuel cfg i ch cw m n (img_height it - ch)
                   (img_width it - cw) st0 o s = (t, inr (st', s')) ->
                 loop_item st' = loop_item st0 \/
                 img_height (loop_item st') = ch /\ img_width (loop_item st') = cw).
      { clear. induction fuel as [|fuel IH]; intros st0 o s t st' s' E;
          cbn [crop_loop] in E.
        - inversion E; auto.
        - destruct (negb (min_1_object_fulfilled st0) && (trial_counter st0 <? n));
            [|inversion E; auto].
          apply bind_inr in E. destruct E as (t1 & [px py] & s1 & t2 & _ & E2 & _).
          destruct (m =? 0); [unfold ret in E2; inversion E2; subst; cbn; auto|].
          destruct (0 <? length py)%nat;
            [|destruct ((n <=? trial_counter st0 + 1)
                        && negb (py_in i (batch_items_to_remove st0)))];
            apply IH in E2; cbn [loop_item] in E2;
            (destruct E2 as [E2|E2]; [rewrite E2; cbn; auto|auto]). }
      apply G in E. cbn [loop_item] in E. destruct E as [E|E]; [now left|right].
      exists ch, cw, m, n. auto.
  - unfold ret in E. inversion E; subst. cbn [loop_item]. auto.
Qed.

(** X17. After the fixed crop the running extents are the true extents
    of the image, provided the crop values are non-negative and leave at
    least an empty image.  When more rows are cropped than the image has,
    the running [img_height] becomes negative: the image is left without
    rows, or, when [crop_bottom] alone exceeds the height, the negative stop
    of the slice counts from the end and rows are left. *)
Theorem fixed_crop_keeps_extents_true {Target : Type} (cfg : Config Target)
    (it : Item) (crop_top crop_bottom crop_left crop_right : Z) o s :
  crop cfg = Some (crop_top, crop_bottom, crop_left, crop_right) ->
  image_shape (img_height it) (img_width it) (item_x it) ->
  0 <= crop_top -> 0 <= crop_bottom -> 0 <= crop_left -> 0 <= crop_right ->
  exists it',
    crop_step cfg it o s = ([], inr (it', s)) /\
    img_height it' = img_height it - (crop_top + crop_bottom) /\
    img_width it' = img_width it - (crop_left + crop_right) /\
    (crop_top + crop_bottom <= img_height it ->
     crop_left + crop_right <= img_width it ->
     image_shape (img_height it') (img_width it') (item_x it')) /\
    (crop_bottom <= img_height it -> img_height it < crop_top + crop_bottom ->
     item_x it' = [] /\ img_height it' < 0) /\
    (crop_top = 0 -> img_height it < crop_bottom <= 2 * img_height it ->
     img_rows (item_x it') = 2 * img_height it - crop_bottom /\ img_height it' < 0).
Proof.
  intros Hc Hs Ht Hb Hl Hr. unfold crop_step. rewrite Hc.
  eexists. split; [reflexivity|].
  cbn [img_height img_width item_x]. split; [reflexivity|]. split; [reflexivity|].
  split.
  - intros H1 H2.
    replace (img_height it - (crop_top + crop_bottom))
      with (img_height it - crop_bottom - crop_top) by lia.
    replace (img_width it - (crop_left + crop_right))
      with (img_width it - crop_right - crop_left) by lia.
    eapply crop_image_shape; [exact Hs|lia..].
  - split.
    + intros H0 H. split; [|lia]. unfold crop_image.
      rewrite py_slice_empty by lia. reflexivity.
    + intros -> H. split; [|lia]. unfold crop_image, img_rows.
      destruct Hs as (Hrows & _). unfold img_rows in Hrows.
      rewrite length_map, py_slice_negative_stop; lia.
Qed.

(* ================================================================== *)
(** ** The properties on the example file and the example dataset *)

Lemma example_lines_parse :
  parse_lines ExampleCsv.strip ExampleCsv.int_of_str
    (new_generator ExampleCsv.classes) ExampleCsv.format
    (tl (ExampleCsv.header :: ExampleCsv.lines)) = inr ExampleCsv.data.
Proof. vm_compute. reflexivity. Qed.

Lemma example_names_not_empty :
  Forall (fun i : Obj => fst i <> ""%string) ExampleCsv.data.
Proof. repeat constructor; discriminate. Qed.

Lemma example_image_shape : image_shape 4 4 Example.image4.
Proof.
  split; [reflexivity|]. split; [lia|]. repeat constructor.
Qed.

Lemma parsed_images_hold_all_their_boxes_witness :
  ExampleCsv.read_csv "labels.csv" = Some (ExampleCsv.header :: ExampleCsv.lines) /\
  exists g,
    init ExampleCsv.strip ExampleCsv.int_of_str ExampleCsv.read_csv
      (Some "labels.csv"%string) (Some ExampleCsv.format) (Some ExampleCsv.classes)
      = inr g /\
    NoDup (filenames g).
Proof.
  assert (H : ExampleCsv.read_csv "labels.csv"
              = Some (ExampleCsv.header :: ExampleCsv.lines)) by reflexivity.
  split; [exact H|].
  destruct (parsed_images_hold_all_their_boxes ExampleCsv.strip ExampleCsv.int_of_str
              ExampleCsv.read_csv "labels.csv" ExampleCsv.format ExampleCsv.classes
              (ExampleCsv.header :: ExampleCsv.lines) ExampleCsv.data
              H example_lines_parse example_names_not_empty)
    as (g & E & _ & N & _).
  exists g. split; [exact E|exact N].
Defined.

Lemma last_single_line_image_is_left_out_witness :
  last_line_alone (py_sorted ExampleCsv.data) = true /\
  exists g,
    init ExampleCsv.strip ExampleCsv.int_of_str ExampleCsv.read_csv
      (Some "labels.csv"%string) (Some ExampleCsv.format) (Some ExampleCsv.classes)
      = inr g /\
    In "c.png"%string (map fst ExampleCsv.data) /\
    ~ In "c.png"%string (filenames g).
Proof.
  assert (H : last_line_alone (py_sorted ExampleCsv.data) = true) by reflexivity.
  split; [exact H|].
  destruct (last_single_line_image_is_left_out ExampleCsv.strip ExampleCsv.int_of_str
              ExampleCsv.read_csv "labels.csv" ExampleCsv.format ExampleCsv.classes
              (ExampleCsv.header :: ExampleCsv.lines) ExampleCsv.data
              eq_refl example_lines_parse example_names_not_empty)
    as (g & E & _ & L).
  exists g. split; [exact E|]. exact (L H).
Defined.

Lemma line_order_is_irrelevant_witness :
  let read_csv' := fun path : string =>
    if String.eqb path "labels.csv"
    then Some (ExampleCsv.header :: rev ExampleCsv.lines) else None in
  Permutation ExampleCsv.lines (rev ExampleCsv.lines) /\
  init ExampleCsv.strip ExampleCsv.int_of_str read_csv'
    (Some "labels.csv"%string) (Some ExampleCsv.format) (Some ExampleCsv.classes)
  = init ExampleCsv.strip ExampleCsv.int_of_str ExampleCsv.read_csv
      (Some "labels.csv"%string) (Some ExampleCsv.format) (Some ExampleCsv.classes).
Proof.
  intros read_csv'.
  assert (P : Permutation ExampleCsv.lines (rev ExampleCsv.lines))
    by apply Permutation_rev.
  split; [exact P|].
  destruct (init ExampleCsv.strip ExampleCsv.int_of_str ExampleCsv.read_csv
              (Some "labels.csv"%string) (Some ExampleCsv.format)
              (Some ExampleCsv.classes)) as [e|g] eqn:E.
  - exfalso. vm_compute in E. discriminate E.
  - exact (line_order_is_irrelevant ExampleCsv.strip ExampleCsv.int_of_str
             ExampleCsv.read_csv read_csv' "labels.csv" ExampleCsv.format
             ExampleCsv.classes ExampleCsv.header ExampleCsv.header
             ExampleCsv.lines (rev ExampleCsv.lines) g eq_refl eq_refl P E).
Defined.

Lemma class_ids_are_positions_in_include_classes_witness :
  ExampleCsv.read_csv "labels.csv" = Some (ExampleCsv.header :: ExampleCsv.lines) /\
  exists g,
    init ExampleCsv.strip ExampleCsv.int_of_str ExampleCsv.read_csv
      (Some "labels.csv"%string) (Some ExampleCsv.format) (Some ExampleCsv.classes)
      = inr g /\
    forall bs b, In bs (labels g) -> In b bs ->
      exists i f c,
        In i ExampleCsv.lines /\
        parse_line ExampleCsv.strip ExampleCsv.int_of_str
          (new_generator ExampleCsv.classes) ExampleCsv.format i = inr (Some (f, b)) /\
        int_cell ExampleCsv.strip ExampleCsv.int_of_str ExampleCsv.format i "class_id"
          = inr c /\
        nth_error ExampleCsv.classes (Z.to_nat (class_id b)) = Some c.
Proof.
  assert (Hr : ExampleCsv.read_csv "labels.csv"
               = Some (ExampleCsv.header :: ExampleCsv.lines)) by reflexivity.
  split; [exact Hr|].
  destruct (init ExampleCsv.strip ExampleCsv.int_of_str ExampleCsv.read_csv
              (Some "labels.csv"%string) (Some ExampleCsv.format)
              (Some ExampleCsv.classes)) as [e|g] eqn:E.
  - exfalso. vm_compute in E. discriminate E.
  - exists g. split; [reflexivity|]. intros bs b Hbs Hb.
    destruct (proj1 (class_ids_are_positions_in_include_classes
                       ExampleCsv.strip ExampleCsv.int_of_str ExampleCsv.read_csv
                       "labels.csv"%string ExampleCsv.format ExampleCsv.classes
                       (ExampleCsv.header :: ExampleCsv.lines) g Hr E) bs b Hbs Hb)
      as (i & f & c & A1 & A2 & A3 & _ & _ & A6 & _).
    exists i, f, c. repeat split; assumption.
Defined.

Lemma parsed_dataset_is_parallel_witness :
  exists g,
    init ExampleCsv.strip ExampleCsv.int_of_str ExampleCsv.read_csv
      (Some "labels.csv"%string) (Some ExampleCsv.format) (Some ExampleCsv.classes)
      = inr g /\
    length (labels g) = length (filenames g) /\
    count g = Some (get_n_samples g).
Proof.
  destruct (init ExampleCsv.strip ExampleCsv.int_of_str ExampleCsv.read_csv
              (Some "labels.csv"%string) (Some ExampleCsv.format)
              (Some ExampleCsv.classes)) as [e|g] eqn:E.
  - exfalso. vm_compute in E. discriminate E.
  - exists g. split; [reflexivity|].
    destruct (parsed_dataset_is_parallel ExampleCsv.strip ExampleCsv.int_of_str
                ExampleCsv.read_csv (Some "labels.csv"%string)
                (Some ExampleCsv.format) (Some ExampleCsv.classes) g E)
      as (A & B & _).
    split; [exact A|exact B].
Defined.

Lemma constructor_reports_first_failure_witness :
  ExampleCsv.read_csv "missing.csv" = None /\
  init ExampleCsv.strip ExampleCsv.int_of_str ExampleCsv.read_csv
    (Some "missing.csv"%string) (Some ExampleCsv.format) (Some ExampleCsv.classes)
  = inl (FileError "missing.csv").
Proof.
  assert (H : ExampleCsv.read_csv "missing.csv" = None) by reflexivity.
  split; [exact H|].
  exact (proj1 (proj2 (proj2 (proj2
           (constructor_reports_first_failure ExampleCsv.strip ExampleCsv.int_of_str
              ExampleCsv.read_csv))))
           "missing.csv"%string ExampleCsv.format ExampleCsv.classes H).
Defined.

Lemma header_only_file_gives_empty_batches_witness :
  let read_csv := fun _ : string => Some [ExampleCsv.header] in
  (length [ExampleCsv.header] <= 1)%nat /\
  train Example.infer_crop_config = false /\
  exists g,
    init ExampleCsv.strip ExampleCsv.int_of_str read_csv
      (Some "labels.csv"%string) (Some ExampleCsv.format) (Some ExampleCsv.classes)
      = inr g /\
    generate Example.image_open Example.histogram_eq Example.cv2_resize
      Example.cv2_gray Example.infer_crop_config (samples g) 2
      Example.oracle0 Example.rng0
    = ([EvShuffle; EvShuffle; EvYield; EvShuffle; EvYield],
       inr ([InferBatch [] [] []; InferBatch [] [] []], mkRng 0 0 3)).
Proof.
  intros read_csv.
  assert (H1 : (length [ExampleCsv.header] <= 1)%nat) by (cbn; lia).
  assert (H2 : train Example.infer_crop_config = false) by reflexivity.
  split; [exact H1|]. split; [exact H2|].
  destruct (header_only_file_gives_empty_batches ExampleCsv.strip
              ExampleCsv.int_of_str read_csv "labels.csv" ExampleCsv.format
              ExampleCsv.classes [ExampleCsv.header] unit Example.image_open
              Example.histogram_eq Example.cv2_resize Example.cv2_gray
              Example.infer_crop_config eq_refl H1 H2)
    as (g & E & _ & _ & _ & G).
  exists g. split; [exact E|]. exact (G 2%nat Example.oracle0 Example.rng0).
Defined.

Lemma reparse_without_arguments_is_idempotent_witness :
  exists g,
    init ExampleCsv.strip ExampleCsv.int_of_str ExampleCsv.read_csv
      (Some "labels.csv"%string) (Some ExampleCsv.format) (Some ExampleCsv.classes)
      = inr g /\
    parse_csv ExampleCsv.strip ExampleCsv.int_of_str ExampleCsv.read_csv g None None
      = inr g.
Proof.
  destruct (init ExampleCsv.strip ExampleCsv.int_of_str ExampleCsv.read_csv
              (Some "labels.csv"%string) (Some ExampleCsv.format)
              (Some ExampleCsv.classes)) as [e|g] eqn:E.
  - exfalso. vm_compute in E. discriminate E.
  - exists g. split; [reflexivity|].
    exact (reparse_without_arguments_is_idempotent ExampleCsv.strip
             ExampleCsv.int_of_str ExampleCsv.read_csv (Some "labels.csv"%string)
             (Some ExampleCsv.format) (Some ExampleCsv.classes) g E).
Defined.

Lemma remove_items_removes_marked_positions_witness :
  NoDup [2; 0]%nat /\
  Forall (fun j => (j < length [10; 11; 12; 13])%nat) [2; 0]%nat /\
  remove_items [2; 0]%nat [10; 11; 12; 13] = [11; 13] /\
  length (remove_items [2; 0]%nat [10; 11; 12; 13]) = 2%nat.
Proof.
  assert (H1 : NoDup [2; 0]%nat).
  { repeat constructor; cbn; intuition discriminate. }
  assert (H2 : Forall (fun j => (j < length [10; 11; 12; 13])%nat) [2; 0]%nat).
  { repeat constructor; cbn; lia. }
  split; [exact H1|]. split; [exact H2|].
  destruct (remove_items_removes_marked_positions [2; 0]%nat [10; 11; 12; 13] H1 H2)
    as (A & B & _).
  split; [exact A|exact B].
Defined.

Lemma random_crop_makes_at_most_max_trials_witness :
  let it := mkItem Example.image4 [mkBox 0 2 3 2 3] 4 4 in
  random_crop Example.infer_crop_config = Some (2, 2, 1, 1) /\
  exists t st s',
    random_crop_step Example.infer_crop_config 0 it [] Example.oracle0 Example.rng0
      = (t, inr (st, s')) /\
    0 <= trial_counter st <= 1 /\
    Z.of_nat (n_randint s') = 2 * trial_counter st.
Proof.
  intros it.
  assert (H : random_crop Example.infer_crop_config = Some (2, 2, 1, 1))
    by reflexivity.
  split; [exact H|].
  destruct (random_crop_step Example.infer_crop_config 0 it [] Example.oracle0
              Example.rng0) as [t [e|[st s']]] eqn:E.
  - exfalso. vm_compute in E. discriminate E.
  - exists t, st, s'. split; [reflexivity|].
    destruct (random_crop_makes_at_most_max_trials Example.infer_crop_config 0 it []
                2 2 1 1 Example.oracle0 Example.rng0 t st s' H E)
      as (_ & A & _ & B & _).
    split; [exact A|exact B].
Defined.

Lemma item_without_boxes_exhausts_its_trials_witness :
  let it := mkItem Example.image4 [] 4 4 in
  random_crop Example.infer_crop_config = Some (2, 2, 1, 1) /\
  item_y it = [] /\
  random_crop_step Example.infer_crop_config 0 it [] Example.oracle0 Example.rng0
  = ([], inr (mkCropLoop it false 1 [0%nat], mkRng 0 2 0)).
Proof.
  intros it.
  assert (H : random_crop Example.infer_crop_config = Some (2, 2, 1, 1))
    by reflexivity.
  split; [exact H|]. split; [reflexivity|].
  exact (item_without_boxes_exhausts_its_trials Example.infer_crop_config 0 it []
           2 2 1 1 Example.oracle0 Example.rng0 H
           ltac:(discriminate) ltac:(lia) ltac:(lia) ltac:(lia) eq_refl).
Defined.

Lemma crop_without_object_check_is_made_once_witness :
  let it := mkItem Example.image4 [mkBox 0 2 3 2 3] 4 4 in
  random_crop Example.crop_resize_config = Some (2, 2, 0, 1) /\
  exists t st s',
    random_crop_step Example.crop_resize_config 0 it [] Example.oracle0 Example.rng0
      = (t, inr (st, s')) /\
    batch_items_to_remove st = [] /\ min_1_object_fulfilled st = false.
Proof.
  intros it.
  assert (H : random_crop Example.crop_resize_config = Some (2, 2, 0, 1))
    by reflexivity.
  split; [exact H|].
  destruct (random_crop_step Example.crop_resize_config 0 it [] Example.oracle0
              Example.rng0) as [t [e|[st s']]] eqn:E.
  - exfalso. vm_compute in E. discriminate E.
  - exists t, st, s'. split; [reflexivity|].
    destruct (crop_without_object_check_is_made_once Example.crop_resize_config 0 it
                [] 2 2 1 Example.oracle0 Example.rng0 t st s' H E)
      as (A & B & _).
    split; [exact A|exact B].
Defined.

Lemma random_crop_never_raises_witness :
  let it := mkItem Example.image4 [mkBox 0 2 3 2 3] 4 4 in
  random_crop Example.infer_crop_config = Some (2, 2, 1, 1) /\
  exists st s',
    random_crop_step Example.infer_crop_config 0 it [] Example.oracle0 Example.rng0
    = ([], inr (st, s')).
Proof.
  intros it.
  assert (H : random_crop Example.infer_crop_config = Some (2, 2, 1, 1))
    by reflexivity.
  split; [exact H|].
  apply (proj1 (random_crop_never_raises Example.infer_crop_config 0 it [] 2 2 1 1
                  Example.oracle0 Example.rng0 H)); lia.
Defined.

Lemma batch_images_and_labels_stay_aligned_witness :
  exists t b st' s',
    next_batch Example.image_open Example.histogram_eq Example.cv2_resize
      Example.cv2_gray Example.infer_crop_config (mkCursor Example.data 0)
      Example.oracle0 Example.rng0
    = (t, inr ((b, st'), s')) /\
    Permutation (dataset st') Example.data.
Proof.
  destruct (next_batch Example.image_open Example.histogram_eq Example.cv2_resize
              Example.cv2_gray Example.infer_crop_config (mkCursor Example.data 0)
              Example.oracle0 Example.rng0) as [t [e|[[b st'] s']]] eqn:E.
  - exfalso. vm_compute in E. discriminate E.
  - exists t, b, st', s'. split; [reflexivity|].
    exact (proj1 (batch_images_and_labels_stay_aligned Example.image_open
                    Example.histogram_eq Example.cv2_resize Example.cv2_gray
                    Example.infer_crop_config (mkCursor Example.data 0)
                    Example.oracle0 Example.rng0 t b st' s' E)).
Defined.

Lemma unreadable_image_aborts_the_batch_witness :
  let data : list Sample := [("a.png"%string, []); ("z.png"%string, [])] in
  Example.image_open "z.png" = None /\
  next_batch Example.image_open Example.histogram_eq Example.cv2_resize
    Example.cv2_gray Example.infer_crop_config (mkCursor data 0)
    Example.oracle0 Example.rng0
  = ([EvLoad "a.png"; EvLoad "z.png"], inl (IOError "z.png")).
Proof.
  intros data.
  assert (H : Example.image_open "z.png" = None) by reflexivity.
  split; [exact H|].
  assert (F : Forall (fun g => Example.image_open g <> None) ["a.png"%string])
    by (repeat constructor; discriminate).
  exact (unreadable_image_aborts_the_batch Example.image_open Example.histogram_eq
           Example.cv2_resize Example.cv2_gray Example.infer_crop_config
           (mkCursor data 0) Example.oracle0 Example.rng0
           [] data (mkCursor data 2) Example.rng0 ["a.png"%string] "z.png"%string []
           eq_refl eq_refl F H).
Defined.

Lemma random_crop_keeps_extents_true_witness :
  let it := mkItem Example.image4 [mkBox 0 2 3 2 3] 4 4 in
  image_shape (img_height it) (img_width it) (item_x it) /\
  exists t st s',
    random_crop_step Example.crop_resize_config 0 it [] Example.oracle0 Example.rng0
      = (t, inr (st, s')) /\
    image_shape (img_height (loop_item st)) (img_width (loop_item st))
      (item_x (loop_item st)).
Proof.
  intros it.
  assert (H : image_shape (img_height it) (img_width it) (item_x it))
    by exact example_image_shape.
  split; [exact H|].
  destruct (random_crop_step Example.crop_resize_config 0 it [] Example.oracle0
              Example.rng0) as [t [e|[st s']]] eqn:E.
  - exfalso. vm_compute in E. discriminate E.
  - exists t, st, s'. split; [reflexivity|].
    refine (proj1 (random_crop_keeps_extents_true Example.crop_resize_config 0 it []
                     Example.oracle0 Example.rng0 t st s' H _ E)).
    intros crop_h crop_w m n Hc. inversion Hc. lia.
Defined.

Lemma fixed_crop_keeps_extents_true_witness :
  let it := mkItem Example.image4 [mkBox 0 2 3 2 3] 4 4 in
  crop Example.crop_resize_config = Some (0, 1, 0, 1) /\
  image_shape (img_height it) (img_width it) (item_x it) /\
  exists it',
    crop_step Example.crop_resize_config it Example.oracle0 Example.rng0
      = ([], inr (it', Example.rng0)) /\
    img_height it' = 3 /\ img_width it' = 3 /\
    image_shape 3 3 (item_x it').
Proof.
  intros it.
  assert (H1 : crop Example.crop_resize_config = Some (0, 1, 0, 1)) by reflexivity.
  assert (H2 : image_shape (img_height it) (img_width it) (item_x it))
    by exact example_image_shape.
  split; [exact H1|]. split; [exact H2|].
  destruct (fixed_crop_keeps_extents_true Example.crop_resize_config it 0 1 0 1
              Example.oracle0 Example.rng0 H1 H2
              ltac:(lia) ltac:(lia) ltac:(lia) ltac:(lia))
    as (it' & E & A & B & C & _).
  exists it'. split; [exact E|].
  cbn [img_height img_width it] in A, B, C.
  assert (A' : img_height it' = 3) by (rewrite A; reflexivity).
  assert (B' : img_width it' = 3) by (rewrite B; reflexivity).
  split; [exact A'|]. split; [exact B'|].
  assert (S : image_shape (img_height it') (img_width it') (item_x it'))
    by (apply C; lia).
  rewrite A', B' in S. exact S.
Defined.
